(** * Custom Opus to Ogg Opus reframing (coding/ffmpeg_decoder_custom_opus.c)

    A shallow embedding of vgmstream's custom-Opus IO layer: the Ogg page
    builder, the Ogg checksum, the Opus packet inspector, the per-container
    packet framing, the logical size walk and the random-access read.

    Data model.  C integers are [Z] with the conversions written out for an
    LP64 target: [int] is 32 bits signed, [size_t] and [uint64_t] are 64 bits
    unsigned, [off_t] is 64 bits signed.  Byte buffers ([uint8_t *]) are
    [list Z] with one element per byte; a pointer into a buffer is the buffer
    together with an index.  The byte source ([STREAMFILE]) is its contents,
    a [list Z].  Signed overflow, which C leaves undefined, wraps here.
    Stores past the end of an array are dropped and loads past the end read
    0: memory outside the arrays is not modelled. *)

From Stdlib Require Import ZArith List Lia Bool String Ascii.
Import ListNotations.
Open Scope Z_scope.

(** ** C integer conversions *)

Module CInt.

Definition wrap_unsigned (bits z : Z) : Z := z mod 2 ^ bits.

Definition wrap_signed (bits z : Z) : Z :=
  (z + 2 ^ (bits - 1)) mod 2 ^ bits - 2 ^ (bits - 1).

Definition to_uint8 : Z -> Z := wrap_unsigned 8.
Definition to_uint16 : Z -> Z := wrap_unsigned 16.
Definition to_uint32 : Z -> Z := wrap_unsigned 32.
Definition to_uint64 : Z -> Z := wrap_unsigned 64.
Definition to_size_t : Z -> Z := wrap_unsigned 64.
Definition to_int16 : Z -> Z := wrap_signed 16.
Definition to_int : Z -> Z := wrap_signed 32.
Definition to_off_t : Z -> Z := wrap_signed 64.

(** The values of an [off_t]. *)
Definition is_off_t (z : Z) : Prop := - 2 ^ 63 <= z < 2 ^ 63.

End CInt.
Export CInt.

(** ** Byte buffers *)

Fixpoint poke (buf : list Z) (n : nat) (v : Z) : list Z :=
  match buf, n with
  | [], _ => []
  | _ :: t, O => v :: t
  | h :: t, S k => h :: poke t k v
  end.

(** [buf[pos]] *)
Definition peek (buf : list Z) (pos : Z) : Z :=
  if pos <? 0 then 0 else nth (Z.to_nat pos) buf 0.

(** Modelled from the spec: util.h's writers are not in this file.  They
    are the fixed-endianness integer writes into a byte buffer at an offset;
    [put_8bit buf pos v] is [put_8bit(buf+pos, v)]. *)
Definition put_8bit (buf : list Z) (pos v : Z) : list Z :=
  if pos <? 0 then buf else poke buf (Z.to_nat pos) (to_uint8 v).

(** Modelled from the spec: util.h's [put_16bitLE], little-endian 16-bit
    write. *)
Definition put_16bitLE (buf : list Z) (pos v : Z) : list Z :=
  put_8bit (put_8bit buf pos v) (pos + 1) (Z.shiftr v 8).

(** Modelled from the spec: util.h's [put_32bitLE], little-endian 32-bit
    write. *)
Definition put_32bitLE (buf : list Z) (pos v : Z) : list Z :=
  put_8bit (put_8bit (put_8bit (put_8bit buf
    pos v) (pos + 1) (Z.shiftr v 8)) (pos + 2) (Z.shiftr v 16))
    (pos + 3) (Z.shiftr v 24).

(** Modelled from the spec: util.h's [put_32bitBE], big-endian 32-bit
    write. *)
Definition put_32bitBE (buf : list Z) (pos v : Z) : list Z :=
  put_8bit (put_8bit (put_8bit (put_8bit buf
    pos (Z.shiftr v 24)) (pos + 1) (Z.shiftr v 16)) (pos + 2) (Z.shiftr v 8))
    (pos + 3) v.

(** [memcpy(buf+pos, src, n)] with [n] the length of [src]. *)
Fixpoint memcpy_to (buf : list Z) (pos : Z) (src : list Z) : list Z :=
  match src with
  | [] => buf
  | b :: rest => memcpy_to (put_8bit buf pos b) (pos + 1) rest
  end.

(** The [n] bytes [memcpy(dest, buf+pos, n)] hands to [dest]. *)
Definition memcpy_from (buf : list Z) (pos n : Z) : list Z :=
  map (fun i => peek buf (pos + Z.of_nat i)) (seq 0 (Z.to_nat n)).

(** The bytes of a C string literal, without the closing NUL. *)
Definition bytes_of_string (s : string) : list Z :=
  map (fun c => Z.of_nat (nat_of_ascii c)) (list_ascii_of_string s).

(** Little-endian decoding of a field of a finished page. *)
Definition get_32bitLE (buf : list Z) (pos : Z) : Z :=
  peek buf pos + 2 ^ 8 * peek buf (pos + 1) + 2 ^ 16 * peek buf (pos + 2)
  + 2 ^ 24 * peek buf (pos + 3).

Definition get_64bitLE (buf : list Z) (pos : Z) : Z :=
  get_32bitLE buf pos + 2 ^ 32 * get_32bitLE buf (pos + 4).

(** ** The byte source *)

(** Modelled from the spec: streamfile.h's [STREAMFILE] is not in this
    file.  It is the random-access byte source; here, its contents. *)
Definition STREAMFILE := list Z.

(** Modelled from the spec: the byte source's [size()], its total size. *)
Definition get_streamfile_size (sf : STREAMFILE) : Z := Z.of_nat (List.length sf).

(** Modelled from the spec: one byte of the source; an out-of-range source
    read yields zero-filled bytes rather than a failure. *)
Definition source_byte (sf : STREAMFILE) (offset : Z) : Z :=
  to_uint8 (peek sf offset).

(** Modelled from the spec: streamfile.h's integer readers are not in this
    file.  They are the fixed-endianness integer reads from the byte source
    at an offset.  Their results are signed, [int32_t] here and [int16_t]
    below, as the [(uint16_t)] casts at the 16-bit calls presuppose; the
    32-bit call has no cast. *)
Definition read_32bitBE (offset : Z) (sf : STREAMFILE) : Z :=
  to_int (2 ^ 24 * source_byte sf offset + 2 ^ 16 * source_byte sf (offset + 1)
          + 2 ^ 8 * source_byte sf (offset + 2) + source_byte sf (offset + 3)).

(** Modelled from the spec: streamfile.h's little-endian 16-bit reader. *)
Definition read_16bitLE (offset : Z) (sf : STREAMFILE) : Z :=
  to_int16 (source_byte sf offset + 2 ^ 8 * source_byte sf (offset + 1)).

(** Modelled from the spec: streamfile.h's big-endian 16-bit reader. *)
Definition read_16bitBE (offset : Z) (sf : STREAMFILE) : Z :=
  to_int16 (2 ^ 8 * source_byte sf offset + source_byte sf (offset + 1)).

(** Modelled from the spec: the bytes the byte source's [read(dest, offset,
    length)] delivers: random access, fewer bytes than requested at EOF. *)
Definition source_range (sf : STREAMFILE) (offset length : Z) : list Z :=
  if (offset <? 0) || (get_streamfile_size sf <=? offset) then []
  else map to_uint8 (firstn (Z.to_nat length) (skipn (Z.to_nat offset) sf)).

(** Modelled from the spec: streamfile.h's [read_streamfile(buf+pos, offset,
    length, sf)].  The bytes delivered are stored at [buf+pos]; the rest of
    [buf] keeps its contents. *)
Definition read_streamfile (buf : list Z) (pos offset length : Z)
    (sf : STREAMFILE) : list Z :=
  memcpy_to buf pos (source_range sf offset length).

(** ** Ogg checksum *)

Definition crc_lookup : list Z :=
  [0x00000000;0x04c11db7;0x09823b6e;0x0d4326d9;0x130476dc;0x17c56b6b;0x1a864db2;0x1e475005;
   0x2608edb8;0x22c9f00f;0x2f8ad6d6;0x2b4bcb61;0x350c9b64;0x31cd86d3;0x3c8ea00a;0x384fbdbd;
   0x4c11db70;0x48d0c6c7;0x4593e01e;0x4152fda9;0x5f15adac;0x5bd4b01b;0x569796c2;0x52568b75;
   0x6a1936c8;0x6ed82b7f;0x639b0da6;0x675a1011;0x791d4014;0x7ddc5da3;0x709f7b7a;0x745e66cd;
   0x9823b6e0;0x9ce2ab57;0x91a18d8e;0x95609039;0x8b27c03c;0x8fe6dd8b;0x82a5fb52;0x8664e6e5;
   0xbe2b5b58;0xbaea46ef;0xb7a96036;0xb3687d81;0xad2f2d84;0xa9ee3033;0xa4ad16ea;0xa06c0b5d;
   0xd4326d90;0xd0f37027;0xddb056fe;0xd9714b49;0xc7361b4c;0xc3f706fb;0xceb42022;0xca753d95;
   0xf23a8028;0xf6fb9d9f;0xfbb8bb46;0xff79a6f1;0xe13ef6f4;0xe5ffeb43;0xe8bccd9a;0xec7dd02d;
   0x34867077;0x30476dc0;0x3d044b19;0x39c556ae;0x278206ab;0x23431b1c;0x2e003dc5;0x2ac12072;
   0x128e9dcf;0x164f8078;0x1b0ca6a1;0x1fcdbb16;0x018aeb13;0x054bf6a4;0x0808d07d;0x0cc9cdca;
   0x7897ab07;0x7c56b6b0;0x71159069;0x75d48dde;0x6b93dddb;0x6f52c06c;0x6211e6b5;0x66d0fb02;
   0x5e9f46bf;0x5a5e5b08;0x571d7dd1;0x53dc6066;0x4d9b3063;0x495a2dd4;0x44190b0d;0x40d816ba;
   0xaca5c697;0xa864db20;0xa527fdf9;0xa1e6e04e;0xbfa1b04b;0xbb60adfc;0xb6238b25;0xb2e29692;
   0x8aad2b2f;0x8e6c3698;0x832f1041;0x87ee0df6;0x99a95df3;0x9d684044;0x902b669d;0x94ea7b2a;
   0xe0b41de7;0xe4750050;0xe9362689;0xedf73b3e;0xf3b06b3b;0xf771768c;0xfa325055;0xfef34de2;
   0xc6bcf05f;0xc27dede8;0xcf3ecb31;0xcbffd686;0xd5b88683;0xd1799b34;0xdc3abded;0xd8fba05a;
   0x690ce0ee;0x6dcdfd59;0x608edb80;0x644fc637;0x7a089632;0x7ec98b85;0x738aad5c;0x774bb0eb;
   0x4f040d56;0x4bc510e1;0x46863638;0x42472b8f;0x5c007b8a;0x58c1663d;0x558240e4;0x51435d53;
   0x251d3b9e;0x21dc2629;0x2c9f00f0;0x285e1d47;0x36194d42;0x32d850f5;0x3f9b762c;0x3b5a6b9b;
   0x0315d626;0x07d4cb91;0x0a97ed48;0x0e56f0ff;0x1011a0fa;0x14d0bd4d;0x19939b94;0x1d528623;
   0xf12f560e;0xf5ee4bb9;0xf8ad6d60;0xfc6c70d7;0xe22b20d2;0xe6ea3d65;0xeba91bbc;0xef68060b;
   0xd727bbb6;0xd3e6a601;0xdea580d8;0xda649d6f;0xc423cd6a;0xc0e2d0dd;0xcda1f604;0xc960ebb3;
   0xbd3e8d7e;0xb9ff90c9;0xb4bcb610;0xb07daba7;0xae3afba2;0xaafbe615;0xa7b8c0cc;0xa379dd7b;
   0x9b3660c6;0x9ff77d71;0x92b45ba8;0x9675461f;0x8832161a;0x8cf30bad;0x81b02d74;0x857130c3;
   0x5d8a9099;0x594b8d2e;0x5408abf7;0x50c9b640;0x4e8ee645;0x4a4ffbf2;0x470cdd2b;0x43cdc09c;
   0x7b827d21;0x7f436096;0x7200464f;0x76c15bf8;0x68860bfd;0x6c47164a;0x61043093;0x65c52d24;
   0x119b4be9;0x155a565e;0x18197087;0x1cd86d30;0x029f3d35;0x065e2082;0x0b1d065b;0x0fdc1bec;
   0x3793a651;0x3352bbe6;0x3e119d3f;0x3ad08088;0x2497d08d;0x2056cd3a;0x2d15ebe3;0x29d4f654;
   0xc5a92679;0xc1683bce;0xcc2b1d17;0xc8ea00a0;0xd6ad50a5;0xd26c4d12;0xdf2f6bcb;0xdbee767c;
   0xe3a1cbc1;0xe760d676;0xea23f0af;0xeee2ed18;0xf0a5bd1d;0xf464a0aa;0xf9278673;0xfde69bc4;
   0x89b8fd09;0x8d79e0be;0x803ac667;0x84fbdbd0;0x9abc8bd5;0x9e7d9662;0x933eb0bb;0x97ffad0c;
   0xafb010b1;0xab710d06;0xa6322bdf;0xa2f33668;0xbcb4666d;0xb8757bda;0xb5365d03;0xb1f740b4].

(** One turn of the [for] loop of [get_oggs_checksum]. *)
Definition crc_step (crc_reg byte : Z) : Z :=
  Z.lxor (to_uint32 (Z.shiftl crc_reg 8))
         (peek crc_lookup (Z.lxor (Z.land (Z.shiftr crc_reg 24) 0xff) byte)).

Definition get_oggs_checksum (data : list Z) (pos bytes : Z) : Z :=
  fold_left crc_step (memcpy_from data pos bytes) 0.

(** ** Opus packet inspector *)

Definition opus_packet_get_samples_per_frame (data : list Z) (pos Fs : Z) : Z :=
  let d0 := peek data pos in
  let audiosize :=
    if negb (Z.land d0 0x80 =? 0) then
      let audiosize := Z.land (Z.shiftr d0 3) 0x3 in
      Z.quot (to_int (Z.shiftl Fs audiosize)) 400
    else if Z.land d0 0x60 =? 0x60 then
      if negb (Z.land d0 0x08 =? 0) then Z.quot Fs 50 else Z.quot Fs 100
    else
      let audiosize := Z.land (Z.shiftr d0 3) 0x3 in
      if audiosize =? 3 then Z.quot (to_int (Fs * 60)) 1000
      else Z.quot (to_int (Z.shiftl Fs audiosize)) 100 in
  to_uint32 audiosize.

Definition opus_packet_get_nb_frames (packet : list Z) (pos len : Z) : Z :=
  if len <? 1 then 0
  else
    let count := Z.land (peek packet pos) 0x3 in
    if count =? 0 then 1
    else if negb (count =? 3) then 2
    else if len <? 2 then 0
    else Z.land (peek packet (pos + 1)) 0x3F.

Definition opus_get_packet_samples (buf : list Z) (pos len : Z) : Z :=
  to_size_t (to_uint32 (opus_packet_get_nb_frames buf pos len
                        * opus_packet_get_samples_per_frame buf pos 48000)).

(** ** Ogg page builder *)

(** The segment table loop of [make_oggs_page],
    [while (lacing_done < data_size)].  Each turn stores one lacing value at
    [buf+page_done], and a closing 0 after a final 0xFF.  [fuel] bounds the
    turns; [lacing_loop_complete] below shows the bound [make_oggs_page]
    passes is never reached. *)
Fixpoint lacing_loop (fuel : nat) (buf : list Z)
    (pos page_done lacing_done data_size : Z) : list Z * Z * Z :=
  if lacing_done <? data_size then
    match fuel with
    | O => (buf, page_done, lacing_done)
    | S fuel' =>
        let bytes := to_int (to_size_t (data_size - lacing_done)) in
        let bytes := if bytes >? 0xFF then 0xFF else bytes in
        let buf := put_8bit buf (pos + page_done) bytes in
        let page_done := to_size_t (page_done + 1) in
        let lacing_done := to_size_t (lacing_done + bytes) in
        if (lacing_done =? data_size) && (bytes =? 0xFF) then
          lacing_loop fuel' (put_8bit buf (pos + page_done) 0x00) pos
                      (to_size_t (page_done + 1)) lacing_done data_size
        else
          lacing_loop fuel' buf pos page_done lacing_done data_size
    end
  else (buf, page_done, lacing_done).

(** [make_oggs_page(buf+pos, buf_size, data_size, page_sequence, granule)]:
    the buffer after the call and the returned page size (0 on failure).
    [page_sequence] and [granule] are the [int] parameters, so a caller
    holding a [size_t] passes it through [to_int]. *)
Definition make_oggs_page (buf : list Z)
    (pos buf_size data_size page_sequence granule : Z) : list Z * Z :=
  let absolute_granule := to_uint64 granule in
  let header_type_flag := if page_sequence =? 0 then 2 else 0 in
  let stream_serial_number := 0x7667 in
  let checksum := 0 in
  if to_size_t (0x1b + (data_size / 0xFF + 1) + data_size) >? to_size_t buf_size
  then (buf, 0)
  else
    let segment_count := to_int (to_size_t (data_size / 0xFF + 1)) in
    let buf := put_32bitBE buf (pos + 0x00) 0x4F676753 in
    let buf := put_8bit buf (pos + 0x04) 0 in
    let buf := put_8bit buf (pos + 0x05) header_type_flag in
    let buf := put_32bitLE buf (pos + 0x06)
                 (to_uint32 (Z.land (Z.shiftr absolute_granule 0) 0xFFFFFFFF)) in
    let buf := put_32bitLE buf (pos + 0x0A)
                 (to_uint32 (Z.land (Z.shiftr absolute_granule 32) 0xFFFFFFFF)) in
    let buf := put_32bitLE buf (pos + 0x0E) stream_serial_number in
    let buf := put_32bitLE buf (pos + 0x12) page_sequence in
    let buf := put_32bitLE buf (pos + 0x16) checksum in
    let buf := put_8bit buf (pos + 0x1A) segment_count in
    let '(buf, page_done, _) :=
      lacing_loop (Z.to_nat (data_size / 0xFF + 1)) buf pos 0x1B 0 data_size in
    let page_done := to_size_t (page_done + data_size) in
    let checksum := to_int (get_oggs_checksum buf pos (to_int page_done)) in
    let buf := put_32bitLE buf (pos + 0x16) checksum in
    (buf, page_done).

(** ** Header synthesizer *)

Definition make_opus_header (buf : list Z)
    (pos buf_size channels skip sample_rate : Z) : list Z * Z :=
  let header_size := 0x13 in
  let mapping_family := 0 in
  if header_size >? to_size_t buf_size then (buf, 0)
  else
    let buf := put_32bitBE buf (pos + 0x00) 0x4F707573 in
    let buf := put_32bitBE buf (pos + 0x04) 0x48656164 in
    let buf := put_8bit buf (pos + 0x08) 1 in
    let buf := put_8bit buf (pos + 0x09) channels in
    let buf := put_16bitLE buf (pos + 0x0A) skip in
    let buf := put_32bitLE buf (pos + 0x0c) sample_rate in
    let buf := put_16bitLE buf (pos + 0x10) 0 in
    let buf := put_8bit buf (pos + 0x12) mapping_family in
    (buf, header_size).

Definition vendor_string : list Z := bytes_of_string "vgmstream".
Definition user_comment_0_string : list Z :=
  bytes_of_string "vgmstream Opus converter".

Definition make_opus_comment (buf : list Z) (pos buf_size : Z) : list Z * Z :=
  let vendor_string_length := Z.of_nat (List.length vendor_string) in
  let user_comment_0_length := Z.of_nat (List.length user_comment_0_string) in
  let comment_size := 0x14 + vendor_string_length + user_comment_0_length in
  if comment_size >? to_size_t buf_size then (buf, 0)
  else
    let buf := put_32bitBE buf (pos + 0x00) 0x4F707573 in
    let buf := put_32bitBE buf (pos + 0x04) 0x54616773 in
    let buf := put_32bitLE buf (pos + 0x08) vendor_string_length in
    let buf := memcpy_to buf (pos + 0x0c) vendor_string in
    let buf := put_32bitLE buf (pos + 0x0c + vendor_string_length + 0x00) 1 in
    let buf := put_32bitLE buf (pos + 0x0c + vendor_string_length + 0x04)
                 user_comment_0_length in
    let buf := memcpy_to buf (pos + 0x0c + vendor_string_length + 0x08)
                 user_comment_0_string in
    (buf, comment_size).

Definition make_oggs_first (buf : list Z)
    (buf_size channels skip sample_rate : Z) : list Z * Z :=
  let buf_done := 0 in
  if buf_size <? 0x100 then (buf, 0)
  else
    let '(buf, bytes) :=
      make_opus_header buf (buf_done + 0x1c) buf_size channels skip sample_rate in
    let buf := fst (make_oggs_page buf (buf_done + 0x00) buf_size bytes 0 0) in
    let buf_done := to_int (to_size_t (buf_done + 0x1c + bytes)) in
    let '(buf, bytes) := make_opus_comment buf (buf_done + 0x1c) buf_size in
    let buf := fst (make_oggs_page buf (buf_done + 0x00) buf_size bytes 1 0) in
    let buf_done := to_int (to_size_t (buf_done + 0x1c + bytes)) in
    (buf, to_size_t buf_done).

(** ** Reframer state *)

Inductive opus_type_t := OPUS_SWITCH | OPUS_UE4 | OPUS_EA | OPUS_X.

Record opus_io_data := mk_opus_io_data {
  (* config *)
  type : opus_type_t;
  stream_offset : Z;
  stream_size : Z;
  (* state *)
  logical_offset : Z;
  physical_offset : Z;
  block_size : Z;
  page_size : Z;
  page_buffer : list Z;
  sequence : Z;
  samples_done : Z;
  head_buffer : list Z;
  head_size : Z;
  logical_size : Z
}.

Definition set_logical_offset (v : Z) (d : opus_io_data) : opus_io_data :=
  mk_opus_io_data (type d) (stream_offset d) (stream_size d) v
    (physical_offset d) (block_size d) (page_size d) (page_buffer d)
    (sequence d) (samples_done d) (head_buffer d) (head_size d) (logical_size d).

Definition set_physical_offset (v : Z) (d : opus_io_data) : opus_io_data :=
  mk_opus_io_data (type d) (stream_offset d) (stream_size d) (logical_offset d)
    v (block_size d) (page_size d) (page_buffer d)
    (sequence d) (samples_done d) (head_buffer d) (head_size d) (logical_size d).

Definition set_block_size (v : Z) (d : opus_io_data) : opus_io_data :=
  mk_opus_io_data (type d) (stream_offset d) (stream_size d) (logical_offset d)
    (physical_offset d) v (page_size d) (page_buffer d)
    (sequence d) (samples_done d) (head_buffer d) (head_size d) (logical_size d).

Definition set_page_size (v : Z) (d : opus_io_data) : opus_io_data :=
  mk_opus_io_data (type d) (stream_offset d) (stream_size d) (logical_offset d)
    (physical_offset d) (block_size d) v (page_buffer d)
    (sequence d) (samples_done d) (head_buffer d) (head_size d) (logical_size d).

Definition set_page_buffer (v : list Z) (d : opus_io_data) : opus_io_data :=
  mk_opus_io_data (type d) (stream_offset d) (stream_size d) (logical_offset d)
    (physical_offset d) (block_size d) (page_size d) v
    (sequence d) (samples_done d) (head_buffer d) (head_size d) (logical_size d).

Definition set_sequence (v : Z) (d : opus_io_data) : opus_io_data :=
  mk_opus_io_data (type d) (stream_offset d) (stream_size d) (logical_offset d)
    (physical_offset d) (block_size d) (page_size d) (page_buffer d)
    v (samples_done d) (head_buffer d) (head_size d) (logical_size d).

Definition set_samples_done (v : Z) (d : opus_io_data) : opus_io_data :=
  mk_opus_io_data (type d) (stream_offset d) (stream_size d) (logical_offset d)
    (physical_offset d) (block_size d) (page_size d) (page_buffer d)
    (sequence d) v (head_buffer d) (head_size d) (logical_size d).

Definition set_logical_size (v : Z) (d : opus_io_data) : opus_io_data :=
  mk_opus_io_data (type d) (stream_offset d) (stream_size d) (logical_offset d)
    (physical_offset d) (block_size d) (page_size d) (page_buffer d)
    (sequence d) (samples_done d) (head_buffer d) (head_size d) v.

(** ** Variant framing reader *)

Definition get_xopus_packet_size (packet : Z) (sf : STREAMFILE) : Z :=
  to_size_t (to_uint16 (read_16bitLE (to_int (0x20 + to_int (packet * 0x02))) sf)).

(** The [switch(data->type)] of [opus_io_read] and [opus_io_size]:
    [(data_size, skip_size)] of the packet at [physical_offset]; [packet] is
    the [int] handed to [get_xopus_packet_size]. *)
Definition packet_framing (ty : opus_type_t) (sf : STREAMFILE)
    (physical_offset packet : Z) : Z * Z :=
  match ty with
  | OPUS_SWITCH => (to_size_t (read_32bitBE physical_offset sf), 0x08)
  | OPUS_UE4 => (to_size_t (to_uint16 (read_16bitLE physical_offset sf)), 0x02)
  | OPUS_EA => (to_size_t (to_uint16 (read_16bitBE physical_offset sf)), 0x02)
  | OPUS_X => (get_xopus_packet_size packet sf, 0)
  end.

(** [oggs_size = 0x1b + (int)(data_size / 0xFF + 1)] *)
Definition oggs_size_of (data_size : Z) : Z :=
  to_size_t (to_int (0x1b + to_int (to_size_t (data_size / 0xFF + 1)))).

(** ** Random-access read *)

Definition sizeof_page_buffer : Z := 0x2000.

(** "ignore bad reads" *)
Definition bad_read (d : opus_io_data) (offset : Z) : bool :=
  (offset <? 0) || (to_size_t offset >? logical_size d).

(** "previous offset: re-start as we can't map logical<>physical offsets" *)
Definition restart_if_previous (d : opus_io_data) (offset : Z) : opus_io_data :=
  if offset <? logical_offset d then
    let d := set_physical_offset (stream_offset d) d in
    let d := set_logical_offset 0x00 d in
    let d := set_page_size 0 d in
    let d := set_samples_done 0 d in
    let d := set_sequence 2 d in
    if to_size_t offset >=? head_size d
    then set_logical_offset (to_off_t (head_size d)) d
    else d
  else d.

(** What the read goes on with after its first two [if]s. *)
Inductive read_entry :=
| Ignored
| Proceed (d : opus_io_data).

Definition opus_io_read_entry (d : opus_io_data) (offset : Z) : read_entry :=
  if bad_read d offset then Ignored else Proceed (restart_if_previous d offset).

(** The locals of [opus_io_read] that the loop carries, with [dest]
    represented by the bytes stored through it so far. *)
Record read_locals := mk_read_locals {
  dest : list Z;
  total_read : Z;
  offset_ : Z;
  length_ : Z
}.

(** "insert fake header" *)
Definition insert_fake_header (d : opus_io_data) (l : read_locals)
    : opus_io_data * read_locals :=
  if to_size_t (offset_ l) <? head_size d then
    let bytes_consumed := to_size_t (to_off_t (offset_ l - logical_offset d)) in
    let to_read := to_size_t (head_size d - bytes_consumed) in
    let to_read := if to_read >? length_ l then length_ l else to_read in
    (set_logical_offset (to_off_t (to_size_t (logical_offset d) + to_read)) d,
     mk_read_locals (dest l ++ memcpy_from (head_buffer d) bytes_consumed to_read)
                    (to_size_t (total_read l + to_read))
                    (to_off_t (to_size_t (offset_ l) + to_read))
                    (to_size_t (length_ l - to_read)))
  else (d, l).

(** "process new block": the state after the block, and whether the loop is
    left through the [break] of the capacity check. *)
Definition process_new_block (sf : STREAMFILE) (d : opus_io_data)
    : opus_io_data * bool :=
  let '(data_size, skip_size) :=
    packet_framing (type d) sf (physical_offset d)
                   (to_int (to_size_t (sequence d - 2))) in
  let oggs_size := oggs_size_of data_size in
  let d := set_block_size (to_size_t (data_size + skip_size)) d in
  let d := set_page_size (to_size_t (oggs_size + data_size)) d in
  if page_size d >? sizeof_page_buffer then (set_page_size 0 d, true)
  else
    let d := set_page_buffer
               (read_streamfile (page_buffer d) oggs_size
                  (to_off_t (to_size_t (physical_offset d) + skip_size))
                  data_size sf) d in
    let d := set_samples_done
               (to_size_t (samples_done d
                           + opus_get_packet_samples (page_buffer d) oggs_size
                                                     (to_int data_size))) d in
    let d := set_page_buffer
               (fst (make_oggs_page (page_buffer d) 0 sizeof_page_buffer
                       data_size (to_int (sequence d)) (to_int (samples_done d)))) d in
    (set_sequence (to_size_t (sequence d + 1)) d, false).

(** "move to next block" *)
Definition move_to_next_block (d : opus_io_data) : opus_io_data :=
  let d := set_physical_offset
             (to_off_t (to_size_t (physical_offset d) + block_size d)) d in
  let d := set_logical_offset
             (to_off_t (to_size_t (logical_offset d) + page_size d)) d in
  set_page_size 0 d.

(** One turn of [while (length > 0)], entered with [length > 0]. *)
Inductive turn :=
| Break (d : opus_io_data) (l : read_locals)
| Again (d : opus_io_data) (l : read_locals).

Definition read_block_turn (sf : STREAMFILE) (d : opus_io_data)
    (l : read_locals) : turn :=
  if to_size_t (logical_offset d) >=? logical_size d then Break d l
  else
    let '(d, stop) :=
      if page_size d =? 0 then process_new_block sf d else (d, false) in
    if stop then Break d l
    else if to_size_t (offset_ l) >=?
            to_size_t (to_size_t (logical_offset d) + page_size d)
    then Again (move_to_next_block d) l
    else
      let bytes_consumed := to_size_t (to_off_t (offset_ l - logical_offset d)) in
      let to_read := to_size_t (page_size d - bytes_consumed) in
      let to_read := if to_read >? length_ l then length_ l else to_read in
      let l' :=
        mk_read_locals
          (dest l ++ memcpy_from (page_buffer d) bytes_consumed to_read)
          (to_size_t (total_read l + to_read))
          (to_off_t (to_size_t (offset_ l) + to_read))
          (to_size_t (length_ l - to_read)) in
      if to_read =? 0 then Break d l' else Again d l'.

(** "read blocks, one at a time".  [None]: the loop is still running after
    [fuel] turns. *)
Fixpoint read_blocks (fuel : nat) (sf : STREAMFILE) (d : opus_io_data)
    (l : read_locals) : option (opus_io_data * read_locals) :=
  if length_ l >? 0 then
    match fuel with
    | O => None
    | S fuel' =>
        match read_block_turn sf d l with
        | Break d l => Some (d, l)
        | Again d l => read_blocks fuel' sf d l
        end
    end
  else Some (d, l).

(** [opus_io_read(streamfile, dest, offset, length, data)]: the state after
    the call, the bytes stored at [dest] and the returned count. *)
Definition opus_io_read (fuel : nat) (sf : STREAMFILE) (d : opus_io_data)
    (offset length : Z) : option (opus_io_data * list Z * Z) :=
  match opus_io_read_entry d offset with
  | Ignored => Some (d, [], 0)
  | Proceed d =>
      let '(d, l) := insert_fake_header d (mk_read_locals [] 0 offset length) in
      match read_blocks fuel sf d l with
      | Some (d, l) => Some (d, dest l, total_read l)
      | None => None
      end
  end.

(** ** Logical size *)

(** The [while (physical_offset < max_physical_offset)] loop of
    [opus_io_size]; [None]: still walking after [fuel] packets. *)
Fixpoint size_walk (fuel : nat) (sf : STREAMFILE) (ty : opus_type_t)
    (physical_offset max_physical_offset logical_size packet : Z)
    : option (Z * Z * Z) :=
  if physical_offset <? max_physical_offset then
    match fuel with
    | O => None
    | S fuel' =>
        let '(data_size, skip_size) :=
          packet_framing ty sf physical_offset packet in
        let oggs_size := oggs_size_of data_size in
        size_walk fuel' sf ty
          (to_off_t (to_size_t physical_offset + to_size_t (data_size + skip_size)))
          max_physical_offset
          (to_size_t (logical_size + to_size_t (oggs_size + data_size)))
          (to_int (packet + 1))
    end
  else Some (physical_offset, logical_size, packet).

(** [opus_io_size(streamfile, data)]: the state after the call and the
    returned size. *)
Definition opus_io_size (fuel : nat) (sf : STREAMFILE) (d : opus_io_data)
    : option (opus_io_data * Z) :=
  if negb (logical_size d =? 0) then Some (d, logical_size d)
  else if to_size_t (to_size_t (stream_offset d) + stream_size d)
          >? get_streamfile_size sf
  then Some (d, 0)
  else
    let physical_offset := stream_offset d in
    let max_physical_offset :=
      to_off_t (to_size_t (stream_offset d) + stream_size d) in
    let logical_size := head_size d in
    match size_walk fuel sf (type d) physical_offset max_physical_offset
                    logical_size 0 with
    | None => None
    | Some (physical_offset, logical_size, _) =>
        if to_size_t physical_offset >? get_streamfile_size sf
        then Some (d, 0)
        else Some (set_logical_size logical_size d, logical_size)
    end.

(** The [opus_io_data] that [setup_opus_streamfile] hands to the IO layer;
    [Some None] is its [goto fail]. *)
Definition setup_opus_streamfile (fuel : nat) (sf : STREAMFILE)
    (channels skip sample_rate stream_offset stream_size : Z)
    (ty : opus_type_t) : option (option opus_io_data) :=
  let '(head_buffer, head_size) :=
    make_oggs_first (repeat 0 (Z.to_nat 0x100)) 0x100 channels skip sample_rate in
  if head_size =? 0 then Some None
  else
    let io_data :=
      mk_opus_io_data ty stream_offset stream_size 0 stream_offset 0 0
        (repeat 0 (Z.to_nat sizeof_page_buffer)) 2 0 head_buffer head_size 0 in
    match opus_io_size fuel sf io_data with
    | None => None
    | Some (io_data, logical_size) =>
        Some (Some (set_logical_size logical_size io_data))
    end.

(** ** What the statements below are written with *)

(** Payload sizes met by the walk of [opus_io_size], in order. *)
Fixpoint discovered_packets (fuel : nat) (sf : STREAMFILE) (ty : opus_type_t)
    (physical_offset max_physical_offset packet : Z) : option (list Z) :=
  if physical_offset <? max_physical_offset then
    match fuel with
    | O => None
    | S fuel' =>
        let '(data_size, skip_size) :=
          packet_framing ty sf physical_offset packet in
        option_map (cons data_size)
          (discovered_packets fuel' sf ty
             (to_off_t (to_size_t physical_offset
                        + to_size_t (data_size + skip_size)))
             max_physical_offset (to_int (packet + 1)))
    end
  else Some [].

(** Ceiling of [n / 255]. *)
Definition lacing_ceiling (n : Z) : Z := (n + 254) / 255.

(** The page size as the specification's formula has it. *)
Definition spec_page_size (payload : Z) : Z :=
  27 + lacing_ceiling payload + payload.

(** The page size as [opus_io_size] counts it when nothing wraps. *)
Definition oggs_page_size (payload : Z) : Z :=
  27 + (payload / 255 + 1) + payload.

Definition sum_pages (page : Z -> Z) (payloads : list Z) : Z :=
  fold_right (fun p acc => page p + acc) 0 payloads.

(** Lacing values the segment table loop stores for [remaining] bytes. *)
Definition lacing_count (remaining : Z) : Z :=
  if remaining =? 0 then 0 else remaining / 255 + 1.

(** A call with a non-negative [buf_size] that passes the capacity check. *)
Definition page_fits (buf_size data_size : Z) : Prop :=
  0 <= data_size /\ 0 <= buf_size < 2 ^ 31
  /\ 27 + (data_size / 255 + 1) + data_size <= buf_size.

(** Unsigned decoding of the source bytes at an offset. *)
Definition source_be32 (sf : STREAMFILE) (offset : Z) : Z :=
  2 ^ 24 * source_byte sf offset + 2 ^ 16 * source_byte sf (offset + 1)
  + 2 ^ 8 * source_byte sf (offset + 2) + source_byte sf (offset + 3).

Definition source_le16 (sf : STREAMFILE) (offset : Z) : Z :=
  source_byte sf offset + 2 ^ 8 * source_byte sf (offset + 1).

Definition source_be16 (sf : STREAMFILE) (offset : Z) : Z :=
  2 ^ 8 * source_byte sf offset + source_byte sf (offset + 1).

(** The state a backward seek restarts from. *)
Definition restarted (d : opus_io_data) (offset : Z) : opus_io_data :=
  mk_opus_io_data (type d) (stream_offset d) (stream_size d)
    (if offset <? head_size d then 0 else head_size d)
    (stream_offset d) (block_size d) 0 (page_buffer d) 2 0
    (head_buffer d) (head_size d) (logical_size d).

(** The state [process_new_block] leaves at a page that does not fit. *)
Definition block_refused (d : opus_io_data) (data_size skip_size : Z)
    : opus_io_data :=
  set_page_size 0
    (set_page_size (to_size_t (oggs_size_of data_size + data_size))
       (set_block_size (to_size_t (data_size + skip_size)) d)).

(** Reads issued one after the other on the same reframer, each as
    [(offset, length)]; the bytes they deliver, concatenated. *)
Fixpoint sequential_reads (fuel : nat) (sf : STREAMFILE) (d : opus_io_data)
    (reads : list (Z * Z)) : option (opus_io_data * list Z) :=
  match reads with
  | [] => Some (d, [])
  | (offset, length) :: rest =>
      match opus_io_read fuel sf d offset length with
      | None => None
      | Some (d, bytes, _) =>
          match sequential_reads fuel sf d rest with
          | None => None
          | Some (d, more) => Some (d, bytes ++ more)
          end
      end
  end.

(** Equality of two byte sequences. *)
Definition list_Z_eqb (x y : list Z) : bool :=
  (List.length x =? List.length y)%nat
  && forallb (fun p => fst p =? snd p) (combine x y).

(** Whether the reads of [0, a), [a, b) and [b, size) in sequence deliver
    [whole], the bytes of the one read of [0, size). *)
Definition splice_agrees (fuel : nat) (sf : STREAMFILE) (d : opus_io_data)
    (whole : list Z) (a b : Z) : bool :=
  match sequential_reads fuel sf d
          [(0, a); (a, b - a); (b, logical_size d - b)] with
  | Some (_, pieces) => list_Z_eqb whole pieces
  | None => false
  end.

(** The same for [a = b], at every [lo <= a <= lo + span]: the stream read
    in two pieces, cut at [a]. *)
Definition cuts_agree (fuel : nat) (sf : STREAMFILE) (d : opus_io_data)
    (lo span : nat) : bool :=
  match sequential_reads fuel sf d [(0, logical_size d)] with
  | Some (_, whole) =>
      forallb (fun a => splice_agrees fuel sf d whole (Z.of_nat a) (Z.of_nat a))
              (seq lo (span + 1))
  | None => false
  end.

(** ** Scenarios *)

Module Scenario.

(** Two UE4 packets of two bytes each. *)
Definition ue4_source : STREAMFILE := [0x02; 0x00; 0x04; 0x00; 0x02; 0x00; 0x08; 0x00].

Definition reframer (fuel : nat) (sf : STREAMFILE) (ty : opus_type_t)
    : option opus_io_data :=
  match setup_opus_streamfile fuel sf 2 312 48000 0
          (get_streamfile_size sf) ty with
  | Some (Some d) => Some d
  | _ => None
  end.

(** The state held by an option, for use where the option is known. *)
Definition the (o : option opus_io_data) : opus_io_data :=
  match o with
  | Some d => d
  | None => mk_opus_io_data OPUS_SWITCH 0 0 0 0 0 0 [] 0 0 [] 0 0
  end.

(** The reframer state with the buffers left out. *)
Definition cursors (d : opus_io_data) : list Z :=
  [physical_offset d; logical_offset d; page_size d; sequence d; samples_done d].

(** The two-packet reframer after one read of its whole logical stream. *)
Definition ue4_played : option opus_io_data :=
  match reframer 16 ue4_source OPUS_UE4 with
  | Some d =>
      match opus_io_read 16 ue4_source d 0 (logical_size d) with
      | Some (d, _, _) => Some d
      | None => None
      end
  | None => None
  end.

(** One UE4 packet of 255 bytes. *)
Definition ue4_255_source : STREAMFILE := [0xFF; 0x00] ++ repeat 0 255.

(** One UE4 packet of 0x2000 bytes, too large for the page buffer, after a
    packet of two bytes. *)
Definition ue4_oversized_source : STREAMFILE :=
  [0x02; 0x00; 0x04; 0x00; 0x00; 0x20] ++ repeat 0 0x2000.

(** That reframer after a read of its two header pages, its first audio page
    and one byte more. *)
Definition ue4_oversized_stopped : option opus_io_data :=
  match reframer 16 ue4_oversized_source OPUS_UE4 with
  | Some d =>
      match opus_io_read 16 ue4_oversized_source d 0 (head_size d + 30 + 1) with
      | Some (d, _, _) => Some d
      | None => None
      end
  | None => None
  end.

(** A Switch packet header whose size field reads -8. *)
Definition switch_stuck_source : STREAMFILE :=
  [0xFF; 0xFF; 0xFF; 0xF8; 0x00; 0x00; 0x00; 0x00].

(** An XOPUS file whose packet size table holds only zeros. *)
Definition xopus_zero_source : STREAMFILE := repeat 0 0x30.

(** A Switch packet whose size field reads 0xFF000004, its four state bytes
    and four bytes behind them. *)
Definition switch_wrapped_source : STREAMFILE :=
  [0xFF; 0x00; 0x00; 0x04; 0x00; 0x00; 0x00; 0x00; 0x01; 0x02; 0x03; 0x04].

(** A Switch reframer at that packet, as [setup_opus_streamfile] lays the
    state out: the cursor behind the header, no page held, a logical size
    past the cursor. *)
Definition switch_wrapped_state : opus_io_data :=
  let '(head_buffer, head_size) :=
    make_oggs_first (repeat 0 (Z.to_nat 0x100)) 0x100 2 312 48000 in
  mk_opus_io_data OPUS_SWITCH 0 12 head_size 0 0 0
    (repeat 0 (Z.to_nat sizeof_page_buffer)) 2 0 head_buffer head_size
    (head_size + 32).

End Scenario.

(** ** Sample counting and encoder delay *)

(** The [while (offset < end_offset)] loop of [custom_opus_get_samples];
    [None]: still counting after [fuel] packets.  [uninit packet] is what
    the local [uint8_t buf[4]] holds before the read of that turn, which C
    leaves indeterminate. *)
Fixpoint samples_walk (fuel : nat) (sf : STREAMFILE) (ty : opus_type_t)
    (uninit : Z -> list Z) (offset end_offset num_samples packet : Z)
    : option Z :=
  if offset <? end_offset then
    match fuel with
    | O => None
    | S fuel' =>
        let '(data_size, skip_size) := packet_framing ty sf offset packet in
        let buf :=
          read_streamfile (uninit packet) 0
            (to_off_t (to_size_t offset + skip_size)) 0x04 sf in
        let num_samples :=
          to_size_t (num_samples + opus_get_packet_samples buf 0 0x04) in
        samples_walk fuel' sf ty uninit
          (to_off_t (to_size_t offset + to_size_t (skip_size + data_size)))
          end_offset num_samples (to_int (packet + 1))
    end
  else Some num_samples.

(** [custom_opus_get_samples(offset, data_size, streamFile, type)] *)
Definition custom_opus_get_samples (fuel : nat) (uninit : Z -> list Z)
    (offset data_size : Z) (sf : STREAMFILE) (ty : opus_type_t) : option Z :=
  let end_offset := to_off_t (to_size_t offset + data_size) in
  let end_offset :=
    if to_size_t end_offset >? get_streamfile_size sf
    then to_off_t (get_streamfile_size sf)
    else end_offset in
  samples_walk fuel sf ty uninit offset end_offset 0 0.

Definition switch_opus_get_samples (fuel : nat) (uninit : Z -> list Z)
    (offset data_size : Z) (sf : STREAMFILE) : option Z :=
  custom_opus_get_samples fuel uninit offset data_size sf OPUS_SWITCH.

(** [custom_opus_get_encoder_delay(offset, streamFile, type)]; [uninit] is
    the indeterminate content of its local [buf]. *)
Definition custom_opus_get_encoder_delay (uninit : list Z) (offset : Z)
    (sf : STREAMFILE) (ty : opus_type_t) : Z :=
  let skip_size :=
    match ty with
    | OPUS_SWITCH => 0x08
    | OPUS_UE4 => 0x02
    | OPUS_EA => 0x02
    | OPUS_X => 0x00
    end in
  let buf :=
    read_streamfile uninit 0 (to_off_t (to_size_t offset + skip_size)) 0x04 sf in
  opus_get_packet_samples buf 0 0x04 / 8.

Definition switch_opus_get_encoder_delay (uninit : list Z) (offset : Z)
    (sf : STREAMFILE) : Z :=
  custom_opus_get_encoder_delay uninit offset sf OPUS_SWITCH.

Definition ue4_opus_get_encoder_delay (uninit : list Z) (offset : Z)
    (sf : STREAMFILE) : Z :=
  custom_opus_get_encoder_delay uninit offset sf OPUS_UE4.

Definition ea_opus_get_encoder_delay (uninit : list Z) (offset : Z)
    (sf : STREAMFILE) : Z :=
  custom_opus_get_encoder_delay uninit offset sf OPUS_EA.

(** ** What the further statements are written with *)

(** The bytes [buf[pos .. pos+n)]. *)
Definition bytes_at (buf : list Z) (pos : Z) (n : nat) : list Z :=
  map (fun i => peek buf (pos + Z.of_nat i)) (seq 0 n).

(** A segment table for [n > 0] payload bytes: [n / 255] values of 255 and
    then [n mod 255]. *)
Definition lacing_values (n : Z) : list Z :=
  repeat 255 (Z.to_nat (n / 255)) ++ [n mod 255].

(** The page as a checksum verifier sees it: the checksum field at zero. *)
Definition checksum_cleared (buf : list Z) (pos : Z) : list Z :=
  put_32bitLE buf (pos + 0x16) 0.

(** Whether the page of [size] bytes at [buf+pos] carries the checksum of
    its own bytes. *)
Definition checksum_verifies (buf : list Z) (pos size : Z) : Prop :=
  get_32bitLE buf (pos + 0x16)
  = get_oggs_checksum (checksum_cleared buf pos) pos size.

Definition get_16bitLE (buf : list Z) (pos : Z) : Z :=
  peek buf pos + 2 ^ 8 * peek buf (pos + 1).

Definition get_32bitBE (buf : list Z) (pos : Z) : Z :=
  2 ^ 24 * peek buf pos + 2 ^ 16 * peek buf (pos + 1)
  + 2 ^ 8 * peek buf (pos + 2) + peek buf (pos + 3).

(** The buffer as [make_oggs_page] has it when it reaches its segment table
    loop: the nine header stores done, the checksum field at zero. *)
Definition oggs_header_laid (buf : list Z)
    (pos data_size page_sequence granule : Z) : list Z :=
  let absolute_granule := to_uint64 granule in
  let buf := put_32bitBE buf (pos + 0x00) 0x4F676753 in
  let buf := put_8bit buf (pos + 0x04) 0 in
  let buf := put_8bit buf (pos + 0x05) (if page_sequence =? 0 then 2 else 0) in
  let buf := put_32bitLE buf (pos + 0x06)
               (to_uint32 (Z.land (Z.shiftr absolute_granule 0) 0xFFFFFFFF)) in
  let buf := put_32bitLE buf (pos + 0x0A)
               (to_uint32 (Z.land (Z.shiftr absolute_granule 32) 0xFFFFFFFF)) in
  let buf := put_32bitLE buf (pos + 0x0E) 0x7667 in
  let buf := put_32bitLE buf (pos + 0x12) page_sequence in
  let buf := put_32bitLE buf (pos + 0x16) 0 in
  put_8bit buf (pos + 0x1A) (to_int (to_size_t (data_size / 0xFF + 1))).

(** And when it leaves that loop. *)
Definition oggs_table_laid (buf : list Z)
    (pos data_size page_sequence granule : Z) : list Z :=
  fst (fst (lacing_loop (Z.to_nat (data_size / 0xFF + 1))
              (oggs_header_laid buf pos data_size page_sequence granule)
              pos 0x1B 0 data_size)).

(** The sizes a frame of a 48 kHz Opus packet can have, in samples: 2.5, 5,
    10, 20, 40 and 60 ms. *)
Definition frame_sizes_48k : list Z := [120; 240; 480; 960; 1920; 2880].

(** An Ogg page at [buf+pos], field by field: capture pattern, version 0,
    header type [flag], granule position, the serial this file uses,
    sequence number, the segment table [table], and a checksum that
    verifies over the header, the table and the payload the table
    announces. *)
Definition oggs_page_at (buf : list Z) (pos flag granule sequence : Z)
    (table : list Z) : Prop :=
  get_32bitBE buf pos = 0x4F676753
  /\ peek buf (pos + 0x04) = 0
  /\ peek buf (pos + 0x05) = flag
  /\ get_64bitLE buf (pos + 0x06) = granule
  /\ get_32bitLE buf (pos + 0x0E) = 0x7667
  /\ get_32bitLE buf (pos + 0x12) = sequence
  /\ peek buf (pos + 0x1A) = Z.of_nat (List.length table)
  /\ bytes_at buf (pos + 0x1B) (List.length table) = table
  /\ checksum_verifies buf pos
       (0x1B + Z.of_nat (List.length table) + fold_right Z.add 0 table).

(** The locals of a read of [requested] bytes in step: what was served and
    what is still asked for add up to the request, and [dest] has advanced
    by what was served. *)
Definition accounted (requested : Z) (l : read_locals) : Prop :=
  0 <= total_read l /\ 0 <= length_ l
  /\ total_read l + length_ l = requested
  /\ Z.of_nat (List.length (dest l)) = total_read l.

(** The audio pages a read hands out when it serves [n] packets in full,
    one after the other, from the state [d] at a packet boundary: each is
    what [process_new_block] leaves in the page buffer. *)
Fixpoint served_pages (n : nat) (sf : STREAMFILE) (d : opus_io_data)
    : list Z :=
  match n with
  | O => []
  | S n' =>
      let d := fst (process_new_block sf d) in
      memcpy_from (page_buffer d) 0 (page_size d)
      ++ served_pages n' sf (move_to_next_block d)
  end.

(** The checksum of the Ogg format, bit by bit: a CRC of 32 bits with the
    generator polynomial 0x04c11db7, the most significant bit first, from
    the register 0 and with nothing applied at the end.  [crc_shift] is the
    division step for one bit, [crc_bitwise_step] takes in one byte. *)
Definition crc_shift (crc_reg : Z) : Z :=
  let shifted := to_uint32 (Z.shiftl crc_reg 1) in
  if Z.testbit crc_reg 31 then Z.lxor shifted 0x04c11db7 else shifted.

Definition crc_bitwise_step (crc_reg byte : Z) : Z :=
  Nat.iter 8 crc_shift (Z.lxor crc_reg (Z.shiftl byte 24)).

Definition crc_bitwise (bytes : list Z) : Z :=
  fold_left crc_bitwise_step bytes 0.

(** *** The reframer between reads *)

(** [sizes] are the payload sizes the framing gives, packet after packet,
    from [physical_offset] on. *)
Fixpoint framed (sf : STREAMFILE) (ty : opus_type_t)
    (physical_offset packet : Z) (sizes : list Z) : Prop :=
  match sizes with
  | [] => True
  | data_size :: rest =>
      fst (packet_framing ty sf physical_offset packet) = data_size
      /\ framed sf ty
           (to_off_t
              (to_size_t physical_offset
               + to_size_t (data_size
                            + snd (packet_framing ty sf physical_offset packet))))
           (to_int (packet + 1)) rest
  end.

(** The state stands at the start of a packet with no page built, the
    packets [sizes] are still to come and their pages make up the rest of
    the logical stream. *)
Definition at_boundary (sf : STREAMFILE) (d : opus_io_data) (sizes : list Z)
    : Prop :=
  page_size d = 0
  /\ framed sf (type d) (physical_offset d) (sequence d - 2) sizes
  /\ Forall (page_fits sizeof_page_buffer) sizes
  /\ 2 <= sequence d
  /\ sequence d + Z.of_nat (List.length sizes) < 2 ^ 31
  /\ List.length (page_buffer d) = Z.to_nat sizeof_page_buffer
  /\ 0 <= logical_offset d
  /\ logical_size d = logical_offset d + sum_pages oggs_page_size sizes
  /\ logical_size d < 2 ^ 62.

(** The state holds the page of the first of the packets [sizes], which
    starts at [logical_offset]. *)
Definition at_page (sf : STREAMFILE) (d : opus_io_data) (sizes : list Z)
    : Prop :=
  match sizes with
  | [] => False
  | data_size :: rest =>
      page_size d = oggs_page_size data_size
      /\ page_fits sizeof_page_buffer data_size
      /\ 0 <= logical_offset d
      /\ logical_size d
         = logical_offset d + oggs_page_size data_size
           + sum_pages oggs_page_size rest
      /\ at_boundary sf (move_to_next_block d) rest
  end.

Definition synced (sf : STREAMFILE) (d : opus_io_data) (sizes : list Z)
    : Prop :=
  if page_size d =? 0 then at_boundary sf d sizes else at_page sf d sizes.

(** The logical stream from [logical_offset] on, as the state will serve
    it. *)
Definition remaining (sf : STREAMFILE) (d : opus_io_data) (sizes : list Z)
    : list Z :=
  if page_size d =? 0 then served_pages (List.length sizes) sf d
  else memcpy_from (page_buffer d) 0 (page_size d)
       ++ served_pages (Nat.pred (List.length sizes)) sf
            (move_to_next_block d).

(** What a read leaves alone. *)
Definition same_stream (d d' : opus_io_data) : Prop :=
  type d' = type d /\ stream_offset d' = stream_offset d
  /\ stream_size d' = stream_size d /\ head_buffer d' = head_buffer d
  /\ head_size d' = head_size d /\ logical_size d' = logical_size d.

(** The loop of a read from a state in step with the stream: it ends, what
    it stores is the stretch of the stream asked for, cut at the end of the
    stream, and the state it leaves is in step again, with the rest of the
    stream to serve. *)
Definition serves (sf : STREAMFILE) (d : opus_io_data) (l : read_locals)
    (sizes : list Z) (result : option (opus_io_data * read_locals)) : Prop :=
  let out :=
    firstn (Z.to_nat (length_ l))
      (skipn (Z.to_nat (offset_ l - logical_offset d)) (remaining sf d sizes)) in
  exists d' l' sizes',
    result = Some (d', l')
    /\ dest l' = dest l ++ out
    /\ total_read l' = total_read l + Z.of_nat (List.length out)
    /\ synced sf d' sizes'
    /\ remaining sf d' sizes'
       = skipn (Z.to_nat (logical_offset d' - logical_offset d))
           (remaining sf d sizes)
    /\ logical_offset d <= logical_offset d'
       <= offset_ l + Z.of_nat (List.length out)
    /\ same_stream d d'
    /\ (List.length sizes' <= List.length sizes)%nat.

(** The reframer as constructed for the packets [sizes] of its region:
    what a restart needs to find the stream again. *)
Definition reframes (sf : STREAMFILE) (d : opus_io_data) (sizes : list Z)
    : Prop :=
  framed sf (type d) (stream_offset d) 0 sizes
  /\ Forall (page_fits sizeof_page_buffer) sizes
  /\ 2 + Z.of_nat (List.length sizes) < 2 ^ 31
  /\ 0 <= head_size d
  /\ logical_size d = head_size d + sum_pages oggs_page_size sizes
  /\ logical_size d < 2 ^ 62
  /\ List.length (page_buffer d) = Z.to_nat sizeof_page_buffer.

(** The two-packet UE4 reframer of [Scenario] after a read of its header,
    and the bytes of its whole logical stream. *)
Module Session.

Definition sf : STREAMFILE := Scenario.ue4_source.

Definition fresh : opus_io_data :=
  Scenario.the (Scenario.reframer 16 sf OPUS_UE4).

Definition after_header : opus_io_data :=
  match opus_io_read 16 sf fresh 0 (head_size fresh) with
  | Some (d, _, _) => d
  | None => fresh
  end.


Definition stream : list Z :=
  match opus_io_read 16 sf fresh 0 (logical_size fresh) with
  | Some (_, out, _) => out
  | None => []
  end.

End Session.

(** * Properties *)

(** ** Integer conversions *)

Lemma to_size_t_small z : 0 <= z < 2 ^ 64 -> to_size_t z = z.
Proof. intros H. unfold to_size_t, wrap_unsigned. now apply Z.mod_small. Qed.

Lemma to_size_t_range z : 0 <= to_size_t z < 2 ^ 64.
Proof. unfold to_size_t, wrap_unsigned. apply Z.mod_pos_bound. lia. Qed.

Lemma to_uint32_small z : 0 <= z < 2 ^ 32 -> to_uint32 z = z.
Proof. intros H. unfold to_uint32, wrap_unsigned. now apply Z.mod_small. Qed.

Lemma to_uint8_range z : 0 <= to_uint8 z < 256.
Proof. unfold to_uint8, wrap_unsigned. apply Z.mod_pos_bound. lia. Qed.

Lemma to_int_small z : - 2 ^ 31 <= z < 2 ^ 31 -> to_int z = z.
Proof.
  intros H. unfold to_int, wrap_signed.
  rewrite Z.mod_small; simpl; lia.
Qed.

Lemma to_off_t_small z : - 2 ^ 63 <= z < 2 ^ 63 -> to_off_t z = z.
Proof.
  intros H. unfold to_off_t, wrap_signed.
  rewrite Z.mod_small; simpl; lia.
Qed.

Lemma to_int_range z : - 2 ^ 31 <= to_int z < 2 ^ 31.
Proof.
  unfold to_int, wrap_signed.
  pose proof (Z.mod_pos_bound (z + 2 ^ (32 - 1)) (2 ^ 32) ltac:(lia)).
  simpl in *. lia.
Qed.

Lemma to_uint16_to_int16 z : 0 <= z < 2 ^ 16 -> to_uint16 (to_int16 z) = z.
Proof.
  intros H. unfold to_uint16, to_int16, wrap_unsigned, wrap_signed.
  change (2 ^ (16 - 1)) with 32768. change (2 ^ 16) with 65536 in *.
  destruct (Z_lt_ge_dec z 32768).
  - rewrite (Z.mod_small (z + 32768)) by lia.
    rewrite Z.mod_small; lia.
  - replace (z + 32768) with (z - 32768 + 1 * 65536) by lia.
    rewrite Z.mod_add by lia.
    rewrite (Z.mod_small (z - 32768)) by lia.
    replace (z - 32768 - 32768) with (z + (-1) * 65536) by lia.
    rewrite Z.mod_add by lia. rewrite Z.mod_small; lia.
Qed.

Create HintDb cint discriminated.
#[global] Hint Resolve to_size_t_range to_uint8_range to_int_range : cint.

Lemma land_low_bits z n : 0 <= n -> 0 <= Z.land z (2 ^ n - 1) < 2 ^ n.
Proof.
  intros Hn. replace (2 ^ n - 1) with (Z.ones n) by (rewrite Z.ones_equiv; lia).
  rewrite Z.land_ones by assumption. apply Z.mod_pos_bound. lia.
Qed.

Lemma land_3_cases z :
  Z.land z 3 = 0 \/ Z.land z 3 = 1 \/ Z.land z 3 = 2 \/ Z.land z 3 = 3.
Proof. pose proof (land_low_bits z 2 ltac:(lia)). simpl in H. lia. Qed.

(** ** Byte buffers *)

Lemma poke_length buf n v : List.length (poke buf n v) = List.length buf.
Proof.
  revert n. induction buf as [|h t IH]; intros [|n]; simpl; auto.
Qed.

Lemma nth_poke_same buf n v :
  (n < List.length buf)%nat -> nth n (poke buf n v) 0 = v.
Proof.
  revert n. induction buf as [|h t IH]; intros [|n] H; simpl in *; try lia; auto.
  apply IH. lia.
Qed.

Lemma nth_poke_other buf n m v : n <> m -> nth m (poke buf n v) 0 = nth m buf 0.
Proof.
  revert n m. induction buf as [|h t IH]; intros [|n] [|m] H; simpl;
    try reflexivity; try congruence.
  apply IH. congruence.
Qed.

Lemma put_8bit_length buf pos v :
  List.length (put_8bit buf pos v) = List.length buf.
Proof. unfold put_8bit. destruct (pos <? 0); auto using poke_length. Qed.

Lemma peek_put_8bit_same buf pos v :
  0 <= pos < Z.of_nat (List.length buf) ->
  peek (put_8bit buf pos v) pos = to_uint8 v.
Proof.
  intros H. unfold peek, put_8bit.
  destruct (pos <? 0) eqn:E; [apply Z.ltb_lt in E; lia|].
  apply nth_poke_same. lia.
Qed.

Lemma peek_put_8bit_other buf pos i v :
  i <> pos -> peek (put_8bit buf pos v) i = peek buf i.
Proof.
  intros H. unfold peek, put_8bit.
  destruct (i <? 0) eqn:Ei; auto.
  destruct (pos <? 0) eqn:Ep; auto.
  apply nth_poke_other. apply Z.ltb_ge in Ei, Ep. lia.
Qed.

Lemma put_32bitLE_length buf pos v :
  List.length (put_32bitLE buf pos v) = List.length buf.
Proof. unfold put_32bitLE. now rewrite !put_8bit_length. Qed.

Lemma put_32bitBE_length buf pos v :
  List.length (put_32bitBE buf pos v) = List.length buf.
Proof. unfold put_32bitBE. now rewrite !put_8bit_length. Qed.

Lemma poke_beyond buf n v : (List.length buf <= n)%nat -> poke buf n v = buf.
Proof.
  revert n. induction buf as [|h t IH]; intros [|n] H; simpl in *;
    try reflexivity; try lia.
  f_equal. apply IH. lia.
Qed.

(** What a store leaves at an index depends on what was there and on the
    size of the array only. *)
Lemma peek_put_8bit_ext buf buf' pos v i :
  List.length buf = List.length buf' -> peek buf i = peek buf' i ->
  peek (put_8bit buf pos v) i = peek (put_8bit buf' pos v) i.
Proof.
  intros Hlen Hpk.
  destruct (Z.eq_dec i pos) as [->|Hne].
  2:{ now rewrite !peek_put_8bit_other by assumption. }
  destruct (Z_lt_ge_dec pos 0) as [Hneg|Hpos].
  { unfold put_8bit. apply Z.ltb_lt in Hneg. now rewrite Hneg. }
  destruct (Z_lt_ge_dec pos (Z.of_nat (List.length buf))) as [Hin|Hout].
  - rewrite !peek_put_8bit_same by lia. reflexivity.
  - unfold put_8bit. destruct (pos <? 0); auto.
    rewrite !poke_beyond by lia. assumption.
Qed.

Lemma peek_put_32bitLE_ext buf buf' pos v i :
  List.length buf = List.length buf' -> peek buf i = peek buf' i ->
  peek (put_32bitLE buf pos v) i = peek (put_32bitLE buf' pos v) i.
Proof.
  intros Hlen Hpk. unfold put_32bitLE.
  repeat (apply peek_put_8bit_ext; [now rewrite ?put_8bit_length|]).
  assumption.
Qed.

Lemma peek_put_32bitLE_other buf pos i v :
  i < pos \/ pos + 3 < i -> peek (put_32bitLE buf pos v) i = peek buf i.
Proof.
  intros H. unfold put_32bitLE. rewrite !peek_put_8bit_other; auto; lia.
Qed.

Lemma peek_put_32bitBE_other buf pos i v :
  i < pos \/ pos + 3 < i -> peek (put_32bitBE buf pos v) i = peek buf i.
Proof.
  intros H. unfold put_32bitBE. rewrite !peek_put_8bit_other; auto; lia.
Qed.

Lemma memcpy_from_ext buf buf' pos n :
  (forall i, pos <= i < pos + n -> peek buf i = peek buf' i) ->
  memcpy_from buf pos n = memcpy_from buf' pos n.
Proof.
  intros H. unfold memcpy_from. apply map_ext_in.
  intros i Hi. apply in_seq in Hi. apply H. lia.
Qed.

(** ** Opus packet inspector *)

Lemma audiosize_cases d0 :
  let a := Z.land (Z.shiftr d0 3) 0x3 in a = 0 \/ a = 1 \/ a = 2 \/ a = 3.
Proof. apply land_3_cases. Qed.

Lemma samples_per_frame_bound buf pos :
  0 <= opus_packet_get_samples_per_frame buf pos 48000 <= 2880.
Proof.
  unfold opus_packet_get_samples_per_frame.
  destruct (negb (Z.land (peek buf pos) 128 =? 0)).
  - destruct (audiosize_cases (peek buf pos)) as [E|[E|[E|E]]];
      rewrite E; vm_compute; split; discriminate.
  - destruct (Z.land (peek buf pos) 96 =? 96).
    + destruct (negb (Z.land (peek buf pos) 8 =? 0)); vm_compute; split; discriminate.
    + destruct (audiosize_cases (peek buf pos)) as [E|[E|[E|E]]];
        rewrite E; vm_compute; split; discriminate.
Qed.

Lemma nb_frames_bound buf pos len :
  0 <= opus_packet_get_nb_frames buf pos len <= 63.
Proof.
  unfold opus_packet_get_nb_frames.
  destruct (len <? 1); [lia|].
  destruct (Z.land (peek buf pos) 3 =? 0); [lia|].
  destruct (negb (Z.land (peek buf pos) 3 =? 3)); [lia|].
  destruct (len <? 2); [lia|].
  pose proof (land_low_bits (peek buf (pos + 1)) 6 ltac:(lia)) as H.
  change (2 ^ 6 - 1) with 63 in H. change (2 ^ 6) with 64 in H. lia.
Qed.

(** C5.  For a packet of [len >= 1] bytes at [buf+pos] with first byte [b0]
    and second byte [b1]: the frame count is 1 when [b0 & 3] is 0, 2 when it
    is 1 or 2, and [b1 & 0x3F] when it is 3 (0 when [len < 2]); the samples
    per frame at 48000 Hz are [(Fs << ((b0>>3)&3)) / 400] when [b0 & 0x80],
    else [Fs/50] or [Fs/100] by [b0 & 0x08] when [(b0 & 0x60) = 0x60], else
    [Fs*60/1000] when [(b0>>3)&3] is 3 and [(Fs << ((b0>>3)&3)) / 100]
    otherwise; and the samples of the packet are the product of the two. *)
Theorem opus_packet_inspector_spec (buf : list Z) (pos len : Z) :
  1 <= len ->
  let b0 := peek buf pos in
  let b1 := peek buf (pos + 1) in
  let Fs := 48000 in
  let frames := opus_packet_get_nb_frames buf pos len in
  let per_frame := opus_packet_get_samples_per_frame buf pos Fs in
  (Z.land b0 0x03 = 0 -> frames = 1)
  /\ (Z.land b0 0x03 = 1 \/ Z.land b0 0x03 = 2 -> frames = 2)
  /\ (Z.land b0 0x03 = 3 -> frames = if len <? 2 then 0 else Z.land b1 0x3F)
  /\ (Z.land b0 0x80 <> 0 ->
      per_frame = Z.shiftl Fs (Z.land (Z.shiftr b0 3) 0x3) / 400)
  /\ (Z.land b0 0x80 = 0 -> Z.land b0 0x60 = 0x60 ->
      per_frame = if Z.land b0 0x08 =? 0 then Fs / 100 else Fs / 50)
  /\ (Z.land b0 0x80 = 0 -> Z.land b0 0x60 <> 0x60 ->
      per_frame = if Z.land (Z.shiftr b0 3) 0x3 =? 3 then Fs * 60 / 1000
                  else Z.shiftl Fs (Z.land (Z.shiftr b0 3) 0x3) / 100)
  /\ opus_get_packet_samples buf pos len = frames * per_frame.
Proof.
  intros Hlen b0 b1 Fs frames per_frame.
  assert (Hlen1 : (len <? 1) = false) by (apply Z.ltb_ge; lia).
  repeat split.
  - intros H. subst frames. unfold opus_packet_get_nb_frames.
    fold b0. now rewrite Hlen1, H.
  - intros H. subst frames. unfold opus_packet_get_nb_frames.
    fold b0. rewrite Hlen1. destruct H as [H|H]; now rewrite H.
  - intros H. subst frames. unfold opus_packet_get_nb_frames.
    fold b0 b1. now rewrite Hlen1, H.
  - intros H. subst per_frame. unfold opus_packet_get_samples_per_frame.
    fold b0. apply Z.eqb_neq in H. rewrite H. simpl negb. cbv iota.
    subst Fs.
    destruct (audiosize_cases b0) as [E|[E|[E|E]]]; rewrite E; reflexivity.
  - intros H1 H2. subst per_frame. unfold opus_packet_get_samples_per_frame.
    fold b0. rewrite H1, H2. simpl.
    destruct (Z.land b0 8 =? 0); reflexivity.
  - intros H1 H2. subst per_frame. unfold opus_packet_get_samples_per_frame.
    fold b0. rewrite H1. apply Z.eqb_neq in H2. rewrite H2. simpl negb. cbv iota.
    subst Fs.
    destruct (audiosize_cases b0) as [E|[E|[E|E]]]; rewrite E; reflexivity.
  - unfold opus_get_packet_samples. fold frames. fold Fs. fold per_frame.
    pose proof (nb_frames_bound buf pos len) as Hf. fold frames in Hf.
    pose proof (samples_per_frame_bound buf pos) as Hs. fold Fs per_frame in Hs.
    assert (0 <= frames * per_frame <= 63 * 2880) by nia.
    rewrite to_uint32_small by lia.
    apply to_size_t_small. change (2 ^ 64) with 18446744073709551616. lia.
Qed.

Lemma opus_packet_inspector_spec_witness :
  1 <= 2
  /\ opus_get_packet_samples [0x04; 0x00] 0 2
     = opus_packet_get_nb_frames [0x04; 0x00] 0 2
       * opus_packet_get_samples_per_frame [0x04; 0x00] 0 48000.
Proof.
  split; [lia | apply (opus_packet_inspector_spec [0x04; 0x00] 0 2); lia].
Defined.

(** ** Variant framing reader *)

Lemma source_byte_range sf offset : 0 <= source_byte sf offset < 256.
Proof. unfold source_byte. auto with cint. Qed.

Lemma source_le16_range sf offset : 0 <= source_le16 sf offset < 2 ^ 16.
Proof.
  unfold source_le16.
  pose proof (source_byte_range sf offset).
  pose proof (source_byte_range sf (offset + 1)).
  change (2 ^ 8) with 256. change (2 ^ 16) with 65536. lia.
Qed.

Lemma source_be16_range sf offset : 0 <= source_be16 sf offset < 2 ^ 16.
Proof.
  unfold source_be16.
  pose proof (source_byte_range sf offset).
  pose proof (source_byte_range sf (offset + 1)).
  change (2 ^ 8) with 256. change (2 ^ 16) with 65536. lia.
Qed.

Lemma source_be32_range sf offset : 0 <= source_be32 sf offset < 2 ^ 32.
Proof.
  unfold source_be32.
  pose proof (source_byte_range sf offset).
  pose proof (source_byte_range sf (offset + 1)).
  pose proof (source_byte_range sf (offset + 2)).
  pose proof (source_byte_range sf (offset + 3)).
  change (2 ^ 8) with 256. change (2 ^ 16) with 65536.
  change (2 ^ 24) with 16777216. change (2 ^ 32) with 4294967296. lia.
Qed.

Lemma uint16_as_size_t z : 0 <= z < 2 ^ 16 -> to_size_t (to_uint16 (to_int16 z)) = z.
Proof.
  intros H. rewrite to_uint16_to_int16 by assumption.
  apply to_size_t_small. change (2 ^ 16) with 65536 in H.
  change (2 ^ 64) with 18446744073709551616. lia.
Qed.

Lemma framing_ue4 sf po packet :
  packet_framing OPUS_UE4 sf po packet = (source_le16 sf po, 0x02).
Proof.
  unfold packet_framing, read_16bitLE. fold (source_le16 sf po).
  now rewrite uint16_as_size_t by apply source_le16_range.
Qed.

Lemma framing_ea sf po packet :
  packet_framing OPUS_EA sf po packet = (source_be16 sf po, 0x02).
Proof.
  unfold packet_framing, read_16bitBE. fold (source_be16 sf po).
  now rewrite uint16_as_size_t by apply source_be16_range.
Qed.

Lemma framing_x sf po packet :
  0 <= packet < 2 ^ 30 - 16 ->
  packet_framing OPUS_X sf po packet = (source_le16 sf (0x20 + packet * 2), 0).
Proof.
  intros H. unfold packet_framing, get_xopus_packet_size, read_16bitLE.
  change (2 ^ 30) with 1073741824 in H.
  rewrite (to_int_small (packet * 2)) by lia.
  rewrite to_int_small by lia.
  fold (source_le16 sf (32 + packet * 2)).
  now rewrite uint16_as_size_t by apply source_le16_range.
Qed.

Lemma framing_switch sf po packet :
  packet_framing OPUS_SWITCH sf po packet
  = (to_size_t (to_int (source_be32 sf po)), 0x08).
Proof. reflexivity. Qed.

Lemma int32_as_size_t_small z :
  0 <= z < 2 ^ 31 -> to_size_t (to_int z) = z.
Proof.
  intros H. rewrite to_int_small by lia.
  apply to_size_t_small. change (2 ^ 31) with 2147483648 in H.
  change (2 ^ 64) with 18446744073709551616. lia.
Qed.

Lemma int32_as_size_t_mod z :
  0 <= z < 2 ^ 32 -> to_size_t (to_int z) mod 2 ^ 32 = z.
Proof.
  intros H. change (2 ^ 32) with 4294967296 in *.
  destruct (Z_lt_ge_dec z 2147483648).
  - rewrite int32_as_size_t_small by lia.
    apply Z.mod_small. lia.
  - unfold to_size_t, to_int, wrap_unsigned, wrap_signed.
    change (2 ^ (32 - 1)) with 2147483648. change (2 ^ 32) with 4294967296.
    change (2 ^ 64) with (4294967296 * 4294967296).
    replace (z + 2147483648) with (z - 2147483648 + 1 * 4294967296) by lia.
    rewrite Z.mod_add by lia. rewrite (Z.mod_small (z - 2147483648)) by lia.
    replace (z - 2147483648 - 2147483648)
      with (z + 4294967295 * 4294967296 + (-1) * (4294967296 * 4294967296)) by lia.
    rewrite Z.mod_add by lia.
    rewrite (Z.mod_small (z + 4294967295 * 4294967296)) by lia.
    rewrite Z.mod_add by lia. apply Z.mod_small. lia.
Qed.

(** Where the framing read gives the value of the size field: UE4, the
    little-endian 16-bit value at [physical_offset] with skip 2; EA, the
    big-endian 16-bit value there with skip 2; X, the little-endian 16-bit
    table entry at [0x20 + packet*2] with skip 0; Switch, with skip 8, the
    big-endian 32-bit value there as long as it is below 2^31 (it is the
    [int32_t] the reader returns, turned into a [size_t], and so congruent
    to the value modulo 2^32 always). *)
Theorem packet_framing_by_variant (sf : STREAMFILE) (physical_offset packet : Z) :
  0 <= packet < 2 ^ 30 - 16 ->
  (packet_framing OPUS_SWITCH sf physical_offset packet
   = (to_size_t (to_int (source_be32 sf physical_offset)), 8)
   /\ to_size_t (to_int (source_be32 sf physical_offset)) mod 2 ^ 32
      = source_be32 sf physical_offset
   /\ (source_be32 sf physical_offset < 2 ^ 31 ->
       packet_framing OPUS_SWITCH sf physical_offset packet
       = (source_be32 sf physical_offset, 8)))
  /\ packet_framing OPUS_UE4 sf physical_offset packet
     = (source_le16 sf physical_offset, 2)
  /\ packet_framing OPUS_EA sf physical_offset packet
     = (source_be16 sf physical_offset, 2)
  /\ packet_framing OPUS_X sf physical_offset packet
     = (source_le16 sf (0x20 + packet * 2), 0).
Proof.
  intros Hp. pose proof (source_be32_range sf physical_offset) as Hr.
  repeat split.
  - apply int32_as_size_t_mod, Hr.
  - intros Hs. rewrite framing_switch, int32_as_size_t_small; [reflexivity | lia].
  - apply framing_ue4.
  - apply framing_ea.
  - apply framing_x, Hp.
Qed.

Lemma packet_framing_by_variant_witness :
  0 <= 1 < 2 ^ 30 - 16
  /\ packet_framing OPUS_X (repeat 0 0x22 ++ [0x03; 0x00]) 0x24 1
     = (source_le16 (repeat 0 0x22 ++ [0x03; 0x00]) (0x20 + 1 * 2), 0).
Proof.
  split; [split; [lia | reflexivity] |].
  apply (packet_framing_by_variant (repeat 0 0x22 ++ [0x03; 0x00]) 0x24 1).
  split; [lia | reflexivity].
Defined.

Lemma int32_as_size_t_large z :
  2 ^ 31 <= z < 2 ^ 32 -> to_size_t (to_int z) = z + (2 ^ 64 - 2 ^ 32).
Proof.
  intros H. unfold to_size_t, to_int, wrap_unsigned, wrap_signed.
  change (2 ^ (32 - 1)) with 2147483648. change (2 ^ 31) with 2147483648 in H.
  change (2 ^ 32) with 4294967296 in *.
  change (2 ^ 64) with 18446744073709551616.
  replace (z + 2147483648) with (z - 2147483648 + 1 * 4294967296) by lia.
  rewrite Z.mod_add by lia. rewrite (Z.mod_small (z - 2147483648)) by lia.
  replace (z - 2147483648 - 2147483648)
    with (z + 18446744069414584320 + (-1) * 18446744073709551616) by lia.
  rewrite Z.mod_add by lia. apply Z.mod_small. lia.
Qed.

(** C6 on the code.  For a Switch packet whose size field, read as the
    big-endian 32-bit value it is, is 2^31 or more, the framing read gives
    that value plus [2^64 - 2^32] as payload size, not the value: the
    [int32_t] result of [read_32bitBE] goes into the [size_t] without the
    cast to the unsigned type that the UE4 and EA paths have. *)
Theorem switch_framing_sign_extends (sf : STREAMFILE)
    (physical_offset packet : Z) :
  2 ^ 31 <= source_be32 sf physical_offset ->
  packet_framing OPUS_SWITCH sf physical_offset packet
  = (source_be32 sf physical_offset + (2 ^ 64 - 2 ^ 32), 8)
  /\ fst (packet_framing OPUS_SWITCH sf physical_offset packet)
     <> source_be32 sf physical_offset
  /\ 2 ^ 64 - 2 ^ 31 <= fst (packet_framing OPUS_SWITCH sf physical_offset packet).
Proof.
  intros Hbig. pose proof (source_be32_range sf physical_offset) as Hr.
  rewrite framing_switch, int32_as_size_t_large by lia.
  cbn [fst]. change (2 ^ 64) with 18446744073709551616.
  change (2 ^ 32) with 4294967296. change (2 ^ 31) with 2147483648 in *.
  repeat split; lia.
Qed.

Lemma switch_framing_sign_extends_witness :
  2 ^ 31 <= source_be32 Scenario.switch_stuck_source 0
  /\ source_be32 Scenario.switch_stuck_source 0 = 0xFFFFFFF8
  /\ packet_framing OPUS_SWITCH Scenario.switch_stuck_source 0 0
     = (2 ^ 64 - 8, 8).
Proof.
  assert (Hbig : 2 ^ 31 <= source_be32 Scenario.switch_stuck_source 0)
    by (vm_compute; discriminate).
  split; [exact Hbig | split; [vm_compute; reflexivity |]].
  exact (proj1 (switch_framing_sign_extends Scenario.switch_stuck_source 0 0 Hbig)).
Defined.

(** ** Random-access read: the entry checks *)

Lemma off_t_as_size_t offset :
  is_off_t offset -> 0 <= offset -> to_size_t offset = offset.
Proof.
  intros [_ H] H0. apply to_size_t_small.
  change (2 ^ 63) with 9223372036854775808 in H.
  change (2 ^ 64) with 18446744073709551616. lia.
Qed.

Lemma bad_read_iff d offset :
  is_off_t offset ->
  bad_read d offset = true <-> offset < 0 \/ logical_size d < offset.
Proof.
  intros Ho. unfold bad_read. rewrite orb_true_iff, Z.ltb_lt, Z.gtb_ltb, Z.ltb_lt.
  destruct (Z_lt_ge_dec offset 0) as [Hn|Hn]; [tauto|].
  rewrite off_t_as_size_t by (auto; lia). tauto.
Qed.

(** C8.  A read at a negative logical offset, or at one past [logical_size],
    serves 0 bytes and leaves the whole state as it was. *)
Theorem opus_io_read_ignores_bad_offset (fuel : nat) (sf : STREAMFILE)
    (d : opus_io_data) (offset length : Z) :
  is_off_t offset ->
  offset < 0 \/ logical_size d < offset ->
  opus_io_read fuel sf d offset length = Some (d, [], 0).
Proof.
  intros Ho Hbad. unfold opus_io_read, opus_io_read_entry.
  apply (bad_read_iff d offset Ho) in Hbad. now rewrite Hbad.
Qed.

Lemma restart_if_previous_restarted d offset :
  is_off_t offset -> 0 <= offset -> offset < logical_offset d ->
  0 <= head_size d < 2 ^ 63 ->
  restart_if_previous d offset = restarted d offset.
Proof.
  intros Ho H0 Hlt Hh. unfold restart_if_previous, restarted.
  apply Z.ltb_lt in Hlt. rewrite Hlt.
  rewrite off_t_as_size_t by assumption.
  destruct d as [ty so ss lo po bs ps pb sq sd hb hs ls].
  cbv beta iota zeta delta
    [set_sequence set_samples_done set_page_size set_logical_offset
     set_physical_offset type stream_offset stream_size logical_offset
     physical_offset block_size page_size page_buffer sequence samples_done
     head_buffer head_size logical_size] in *.
  rewrite Z.geb_leb.
  destruct (Z.leb_spec hs offset) as [Hge|Hlt'].
  - destruct (Z.ltb_spec offset hs); [lia|].
    rewrite to_off_t_small by lia. reflexivity.
  - destruct (Z.ltb_spec offset hs); [|lia]. reflexivity.
Qed.

Lemma restarted_is_current d offset :
  0 <= offset -> 0 <= head_size d ->
  restart_if_previous (restarted d offset) offset = restarted d offset.
Proof.
  intros H0 Hh. unfold restart_if_previous.
  replace (offset <? logical_offset (restarted d offset)) with false; auto.
  symmetry. apply Z.ltb_ge. simpl.
  destruct (Z.ltb_spec offset (head_size d)); lia.
Qed.

(** C4.  A read at a logical offset below the logical cursor (a read the
    entry guard lets through: its offset lies inside [0, logical_size]) goes
    on from the restarted state: [physical_offset = stream_offset],
    [page_size = 0], [samples_done = 0], [sequence = 2], and
    [logical_offset] 0, or [head_size] when the offset is at or past it; the
    read then serves exactly what it serves when issued on that state. *)
Theorem backward_seek_restarts (fuel : nat) (sf : STREAMFILE)
    (d : opus_io_data) (offset length : Z) :
  is_off_t offset ->
  0 <= offset <= logical_size d ->
  offset < logical_offset d ->
  0 <= head_size d < 2 ^ 63 ->
  let d' := restarted d offset in
  opus_io_read_entry d offset = Proceed d'
  /\ physical_offset d' = stream_offset d
  /\ logical_offset d' = (if offset <? head_size d then 0 else head_size d)
  /\ page_size d' = 0
  /\ samples_done d' = 0
  /\ sequence d' = 2
  /\ opus_io_read fuel sf d offset length = opus_io_read fuel sf d' offset length.
Proof.
  intros Ho Hin Hlt Hh d'.
  assert (Hok : bad_read d offset = false).
  { destruct (bad_read d offset) eqn:E; auto.
    apply (bad_read_iff d offset Ho) in E. lia. }
  assert (Hentry : opus_io_read_entry d offset = Proceed d').
  { unfold opus_io_read_entry. rewrite Hok.
    now rewrite restart_if_previous_restarted by (auto; lia). }
  repeat split; auto.
  unfold opus_io_read. rewrite Hentry.
  unfold opus_io_read_entry.
  replace (bad_read d' offset) with false by (symmetry; exact Hok).
  subst d'. now rewrite restarted_is_current by lia.
Qed.

Lemma opus_io_read_ignores_bad_offset_witness :
  is_off_t (-1)
  /\ (-1 < 0 \/ logical_size (Scenario.the Scenario.ue4_played) < -1)
  /\ opus_io_read 1 Scenario.ue4_source (Scenario.the Scenario.ue4_played) (-1) 16
     = Some (Scenario.the Scenario.ue4_played, [], 0).
Proof.
  assert (Ho : is_off_t (-1)) by (split; [discriminate | reflexivity]).
  assert (Hb : -1 < 0 \/ logical_size (Scenario.the Scenario.ue4_played) < -1)
    by (left; reflexivity).
  split; [exact Ho | split; [exact Hb |]].
  exact (opus_io_read_ignores_bad_offset 1 Scenario.ue4_source
           (Scenario.the Scenario.ue4_played) (-1) 16 Ho Hb).
Defined.

Lemma backward_seek_restarts_witness :
  is_off_t 100
  /\ 0 <= 100 <= logical_size (Scenario.the Scenario.ue4_played)
  /\ 100 < logical_offset (Scenario.the Scenario.ue4_played)
  /\ opus_io_read_entry (Scenario.the Scenario.ue4_played) 100
     = Proceed (restarted (Scenario.the Scenario.ue4_played) 100).
Proof.
  assert (Ho : is_off_t 100) by (split; [discriminate | reflexivity]).
  assert (Hin : 0 <= 100 <= logical_size (Scenario.the Scenario.ue4_played))
    by (split; vm_compute; discriminate).
  assert (Hlt : 100 < logical_offset (Scenario.the Scenario.ue4_played))
    by (vm_compute; reflexivity).
  assert (Hh : 0 <= head_size (Scenario.the Scenario.ue4_played) < 2 ^ 63)
    by (split; vm_compute; [discriminate | reflexivity]).
  split; [exact Ho | split; [exact Hin | split; [exact Hlt |]]].
  exact (proj1 (backward_seek_restarts 1 Scenario.ue4_source
                  (Scenario.the Scenario.ue4_played) 100 16 Ho Hin Hlt Hh)).
Defined.

(** ** Random-access read: a page too large for the page buffer *)

(** For a payload size that fits 32 bits, the [page_size] that is tested
    against the capacity is the size of the page: header, lacing values and
    payload. *)
Lemma page_size_of_32bit_payload data_size :
  0 <= data_size < 2 ^ 32 ->
  to_size_t (oggs_size_of data_size + data_size) = oggs_page_size data_size.
Proof.
  intros H.
  assert (Hq : 0 <= data_size / 255 <= 16843009).
  { split; [apply Z.div_pos; lia|].
    change 16843009 with (4294967295 / 255). apply Z.div_le_mono; lia. }
  unfold oggs_size_of, oggs_page_size.
  rewrite (to_size_t_small (data_size / 255 + 1)) by lia.
  rewrite (to_int_small (data_size / 255 + 1)) by lia.
  rewrite to_int_small by lia.
  rewrite (to_size_t_small (27 + _)) by lia.
  apply to_size_t_small. lia.
Qed.

Lemma process_new_block_oversized sf d data_size skip_size :
  packet_framing (type d) sf (physical_offset d)
                 (to_int (to_size_t (sequence d - 2))) = (data_size, skip_size) ->
  sizeof_page_buffer < to_size_t (oggs_size_of data_size + data_size) ->
  process_new_block sf d = (block_refused d data_size skip_size, true).
Proof.
  intros Hframe Hbig. unfold process_new_block. rewrite Hframe.
  cbn [page_size set_page_size set_block_size].
  replace (to_size_t (oggs_size_of data_size + data_size) >? sizeof_page_buffer)
    with true by (symmetry; apply Z.gtb_lt; lia).
  reflexivity.
Qed.

Lemma read_blocks_oversized fuel sf d l data_size skip_size :
  0 < length_ l ->
  to_size_t (logical_offset d) < logical_size d ->
  page_size d = 0 ->
  packet_framing (type d) sf (physical_offset d)
                 (to_int (to_size_t (sequence d - 2))) = (data_size, skip_size) ->
  sizeof_page_buffer < to_size_t (oggs_size_of data_size + data_size) ->
  read_blocks (S fuel) sf d l = Some (block_refused d data_size skip_size, l).
Proof.
  intros Hlen Heof Hpage Hframe Hbig. cbn [read_blocks].
  replace (length_ l >? 0) with true by (symmetry; apply Z.gtb_lt; lia).
  unfold read_block_turn.
  replace (to_size_t (logical_offset d) >=? logical_size d) with false
    by (symmetry; rewrite Z.geb_leb; apply Z.leb_gt; lia).
  rewrite Hpage. change (0 =? 0) with true. cbv iota.
  now rewrite (process_new_block_oversized sf d data_size skip_size).
Qed.

(** Where the capacity check fires.  When the loop, with bytes still wanted
    and no page cached, meets a packet for which the [page_size] the code
    computes is above the capacity of [page_buffer], the read ends at once
    with the bytes served so far; [physical_offset], [logical_offset],
    [sequence] and [samples_done] are those at the start of that page, no
    page is cached, and a later read at an earlier offset inside the stream
    restarts from the beginning. *)
Theorem oversized_page_ends_read (fuel : nat) (sf : STREAMFILE)
    (d : opus_io_data) (l : read_locals) (data_size skip_size : Z) :
  0 < length_ l ->
  to_size_t (logical_offset d) < logical_size d ->
  page_size d = 0 ->
  packet_framing (type d) sf (physical_offset d)
                 (to_int (to_size_t (sequence d - 2))) = (data_size, skip_size) ->
  sizeof_page_buffer < to_size_t (oggs_size_of data_size + data_size) ->
  exists d',
    read_blocks (S fuel) sf d l = Some (d', l)
    /\ physical_offset d' = physical_offset d
    /\ logical_offset d' = logical_offset d
    /\ sequence d' = sequence d
    /\ samples_done d' = samples_done d
    /\ page_size d' = 0
    /\ page_buffer d' = page_buffer d
    /\ (forall offset,
          is_off_t offset -> 0 <= offset <= logical_size d' ->
          offset < logical_offset d' -> 0 <= head_size d' < 2 ^ 63 ->
          opus_io_read_entry d' offset = Proceed (restarted d' offset)).
Proof.
  intros Hlen Heof Hpage Hframe Hbig.
  exists (block_refused d data_size skip_size).
  split; [now apply read_blocks_oversized|].
  repeat split; try reflexivity.
  intros offset Ho Hin Hlt Hh.
  unfold opus_io_read_entry.
  replace (bad_read _ offset) with false.
  - now rewrite restart_if_previous_restarted by (auto; lia).
  - symmetry. match goal with |- ?b = false => destruct b eqn:E end; auto.
    apply bad_read_iff in E; auto. lia.
Qed.

(** Seen from the caller: a read that starts at the cursor, at such a page,
    serves nothing and leaves the cursors where they are. *)
Lemma opus_io_read_at_oversized_page fuel sf d offset length data_size skip_size :
  0 <= head_size d <= offset -> offset < logical_size d ->
  logical_size d < 2 ^ 63 -> 0 < length ->
  logical_offset d = offset -> page_size d = 0 ->
  packet_framing (type d) sf (physical_offset d)
                 (to_int (to_size_t (sequence d - 2))) = (data_size, skip_size) ->
  sizeof_page_buffer < to_size_t (oggs_size_of data_size + data_size) ->
  opus_io_read (S fuel) sf d offset length
  = Some (block_refused d data_size skip_size, [], 0).
Proof.
  intros Hh Hls Hmax Hlen Hcur Hpage Hframe Hbig.
  assert (Hoff : is_off_t offset) by (split; lia).
  unfold opus_io_read, opus_io_read_entry.
  replace (bad_read d offset) with false.
  2:{ symmetry. destruct (bad_read d offset) eqn:E; auto.
      apply bad_read_iff in E; auto. lia. }
  unfold restart_if_previous.
  replace (offset <? logical_offset d) with false
    by (symmetry; apply Z.ltb_ge; lia).
  unfold insert_fake_header. cbn [offset_ length_ dest total_read].
  rewrite (off_t_as_size_t offset) by (auto; lia).
  replace (offset <? head_size d) with false by (symmetry; apply Z.ltb_ge; lia).
  rewrite (read_blocks_oversized fuel sf d _ data_size skip_size); auto.
  rewrite Hcur, off_t_as_size_t by (auto; lia). assumption.
Qed.

Lemma oversized_page_ends_read_witness :
  let sf := Scenario.ue4_oversized_source in
  let d := Scenario.the Scenario.ue4_oversized_stopped in
  let l := mk_read_locals [] 0 158 10 in
  (0 < length_ l /\ page_size d = 0 /\ Scenario.cursors d = [4; 158; 0; 3; 480])
  /\ exists d',
       read_blocks 1 sf d l = Some (d', l)
       /\ physical_offset d' = physical_offset d
       /\ logical_offset d' = logical_offset d
       /\ sequence d' = sequence d
       /\ samples_done d' = samples_done d
       /\ page_size d' = 0.
Proof.
  intros sf d l.
  split; [repeat split; vm_compute; reflexivity |].
  destruct (oversized_page_ends_read 0 sf d l 0x2000 2)
    as [d' (H1 & H2 & H3 & H4 & H5 & H6 & _)];
    try (vm_compute; reflexivity).
  exists d'. repeat split; assumption.
Defined.

(** ** A page size that wraps around past the capacity check *)

Lemma wrapped_payload_page_size :
  oggs_size_of (2 ^ 64 - 16777212) = 16777244
  /\ to_size_t (oggs_size_of (2 ^ 64 - 16777212) + (2 ^ 64 - 16777212)) = 32.
Proof. split; vm_compute; reflexivity. Qed.

Lemma packet_samples_of_negative_length buf pos len :
  len <= 0 -> opus_get_packet_samples buf pos len = 0.
Proof.
  intros H. unfold opus_get_packet_samples, opus_packet_get_nb_frames.
  replace (len <? 1) with true by (symmetry; apply Z.ltb_lt; lia).
  reflexivity.
Qed.

Lemma process_new_block_wrapped sf d :
  type d = OPUS_SWITCH ->
  read_32bitBE (physical_offset d) sf = -16777212 ->
  0 <= sequence d < 2 ^ 64 - 1 ->
  exists buffer samples,
    process_new_block sf d
    = (mk_opus_io_data (type d) (stream_offset d) (stream_size d)
         (logical_offset d) (physical_offset d) (2 ^ 64 - 16777204) 32
         buffer (sequence d + 1) samples
         (head_buffer d) (head_size d) (logical_size d), false)
    /\ samples = to_size_t (samples_done d).
Proof.
  intros Hty Hfield Hseq.
  destruct d as [ty so ss lo po bs ps pb sq sd hb hs ls].
  cbn [type physical_offset sequence stream_offset stream_size logical_offset
       samples_done head_buffer head_size logical_size] in *.
  subst ty. unfold process_new_block.
  cbn [type physical_offset sequence].
  cbv beta iota delta [packet_framing]. rewrite Hfield.
  change (to_size_t (-16777212)) with (2 ^ 64 - 16777212).
  cbv beta iota zeta.
  destruct wrapped_payload_page_size as [Hoggs Hpage].
  rewrite Hoggs in *.
  cbv beta iota zeta delta
    [set_block_size set_page_size set_page_buffer set_samples_done set_sequence
     type stream_offset stream_size logical_offset physical_offset block_size
     page_size page_buffer sequence samples_done head_buffer head_size
     logical_size].
  rewrite Hpage.
  change (32 >? sizeof_page_buffer) with false. cbv iota.
  change (to_size_t (2 ^ 64 - 16777212 + 8)) with (2 ^ 64 - 16777204).
  rewrite (to_size_t_small (sq + 1))
    by (change (2 ^ 64) with 18446744073709551616 in *; lia).
  eexists. eexists. split; [reflexivity |].
  change (to_int (2 ^ 64 - 16777212)) with (-16777212).
  rewrite packet_samples_of_negative_length by lia.
  now rewrite Z.add_0_r.
Qed.

(** C9 on the code.  A Switch packet whose size field reads 0xFF000004 has a
    payload size of [2^64 - 16777212] in [size_t]; its page is far larger
    than [page_buffer], but the [page_size] the code computes for the
    capacity check wraps around to 32.  The check does not fire: the read
    does not end there, it hands out bytes of [page_buffer] as a page of 32
    bytes, and [sequence] has gone up by one. *)
Theorem wrapped_page_size_is_served (sf : STREAMFILE) (d : opus_io_data)
    (l : read_locals) :
  type d = OPUS_SWITCH ->
  read_32bitBE (physical_offset d) sf = -16777212 ->
  page_size d = 0 -> 0 <= sequence d < 2 ^ 64 - 1 ->
  0 <= logical_offset d < logical_size d -> logical_offset d < 2 ^ 63 - 32 ->
  offset_ l = logical_offset d -> 0 < length_ l ->
  let data_size := 2 ^ 64 - 16777212 in
  packet_framing (type d) sf (physical_offset d)
                 (to_int (to_size_t (sequence d - 2))) = (data_size, 8)
  /\ sizeof_page_buffer < oggs_page_size data_size
  /\ to_size_t (oggs_size_of data_size + data_size) = 32
  /\ snd (process_new_block sf d) = false
  /\ exists d' l',
       read_block_turn sf d l = Again d' l'
       /\ sequence d' = sequence d + 1
       /\ page_size d' = 32
       /\ block_size d' = 2 ^ 64 - 16777204
       /\ samples_done d' = to_size_t (samples_done d)
       /\ physical_offset d' = physical_offset d
       /\ logical_offset d' = logical_offset d
       /\ total_read l' = to_size_t (total_read l + Z.min 32 (length_ l))
       /\ length_ l' = to_size_t (length_ l - Z.min 32 (length_ l)).
Proof.
  intros Hty Hfield Hpage Hseq Hlo Hmax Hoff Hlen data_size.
  split.
  { rewrite Hty. cbv beta iota delta [packet_framing]. rewrite Hfield.
    reflexivity. }
  split; [vm_compute; reflexivity |].
  split; [apply wrapped_payload_page_size |].
  destruct (process_new_block_wrapped sf d Hty Hfield Hseq)
    as (buffer & samples & Hblock & Hsamples).
  split; [now rewrite Hblock |].
  unfold read_block_turn.
  change (2 ^ 63) with 9223372036854775808 in Hmax.
  rewrite (to_size_t_small (logical_offset d))
    by (change (2 ^ 64) with 18446744073709551616; lia).
  replace (logical_offset d >=? logical_size d) with false
    by (symmetry; rewrite Z.geb_leb; apply Z.leb_gt; lia).
  rewrite Hpage. change (0 =? 0) with true. cbv iota.
  rewrite Hblock. cbv beta iota.
  cbn [page_size logical_offset page_buffer].
  rewrite Hoff.
  rewrite (to_size_t_small (logical_offset d))
    by (change (2 ^ 64) with 18446744073709551616; lia).
  rewrite (to_size_t_small (logical_offset d + 32))
    by (change (2 ^ 64) with 18446744073709551616; lia).
  replace (logical_offset d >=? logical_offset d + 32) with false
    by (symmetry; rewrite Z.geb_leb; apply Z.leb_gt; lia).
  rewrite Z.sub_diag.
  change (to_size_t (to_off_t 0)) with 0. change (to_size_t (32 - 0)) with 32.
  assert (Hmin : (if 32 >? length_ l then length_ l else 32) = Z.min 32 (length_ l)).
  { rewrite Z.gtb_ltb. destruct (Z.ltb_spec (length_ l) 32); lia. }
  rewrite Hmin.
  replace (Z.min 32 (length_ l) =? 0) with false
    by (symmetry; apply Z.eqb_neq; lia).
  eexists. eexists. split; [reflexivity |].
  cbn [sequence page_size block_size samples_done physical_offset
       logical_offset total_read length_].
  repeat split; try reflexivity. exact Hsamples.
Qed.

Lemma wrapped_page_size_is_served_witness :
  let sf := Scenario.switch_wrapped_source in
  let d := Scenario.switch_wrapped_state in
  let l := mk_read_locals [] 0 128 16 in
  (type d = OPUS_SWITCH /\ read_32bitBE (physical_offset d) sf = -16777212
   /\ Scenario.cursors d = [0; 128; 0; 2; 0])
  /\ exists d' l',
       read_block_turn sf d l = Again d' l'
       /\ sequence d' = 3 /\ page_size d' = 32 /\ total_read l' = 16.
Proof.
  intros sf d l.
  assert (Hty : type d = OPUS_SWITCH) by (vm_compute; reflexivity).
  assert (Hfield : read_32bitBE (physical_offset d) sf = -16777212)
    by (vm_compute; reflexivity).
  assert (Hpage : page_size d = 0) by (vm_compute; reflexivity).
  assert (Hseq : 0 <= sequence d < 2 ^ 64 - 1)
    by (split; vm_compute; [discriminate | reflexivity]).
  assert (Hlo : 0 <= logical_offset d < logical_size d)
    by (split; vm_compute; [discriminate | reflexivity]).
  assert (Hmax : logical_offset d < 2 ^ 63 - 32) by (vm_compute; reflexivity).
  assert (Hoff : offset_ l = logical_offset d) by (vm_compute; reflexivity).
  assert (Hlen : 0 < length_ l) by (vm_compute; reflexivity).
  split; [split; [exact Hty | split; [exact Hfield | vm_compute; reflexivity]] |].
  destruct (wrapped_page_size_is_served sf d l Hty Hfield Hpage Hseq Hlo Hmax
              Hoff Hlen)
    as (_ & _ & _ & _ & d' & l' & Hturn & Hs & Hp & _ & _ & _ & _ & Ht & _).
  exists d', l'.
  split; [exact Hturn |].
  split; [rewrite Hs; vm_compute; reflexivity |].
  split; [exact Hp |].
  rewrite Ht. vm_compute. reflexivity.
Defined.

(** ** Ogg page builder *)

Lemma lacing_loop_peek_below fuel : forall buf pos page_done lacing_done data_size i,
  0 <= page_done -> page_done + 2 * Z.of_nat fuel < 2 ^ 64 ->
  i < pos + page_done ->
  peek (fst (fst (lacing_loop fuel buf pos page_done lacing_done data_size))) i
  = peek buf i.
Proof.
  induction fuel as [|fuel IH]; intros buf pos pd ld ds i Hpd Hfuel Hi;
    cbn [lacing_loop]; destruct (ld <? ds); try reflexivity.
  assert (E1 : to_size_t (pd + 1) = pd + 1) by (apply to_size_t_small; lia).
  assert (E2 : to_size_t (pd + 1 + 1) = pd + 2)
    by (rewrite to_size_t_small; lia).
  cbv zeta. rewrite E1, E2.
  match goal with |- context [if ?c then _ else _] => destruct c end.
  - rewrite IH by lia. rewrite !peek_put_8bit_other by lia. reflexivity.
  - rewrite IH by lia. rewrite !peek_put_8bit_other by lia. reflexivity.
Qed.

Lemma lacing_loop_length fuel : forall buf pos page_done lacing_done data_size,
  List.length (fst (fst (lacing_loop fuel buf pos page_done lacing_done data_size)))
  = List.length buf.
Proof.
  induction fuel as [|fuel IH]; intros buf pos pd ld ds;
    cbn [lacing_loop]; destruct (ld <? ds); try reflexivity.
  cbv zeta.
  match goal with |- context [if ?c then _ else _] => destruct c end;
    rewrite IH, ?put_8bit_length; reflexivity.
Qed.

(** The loop runs to its end within the turns [make_oggs_page] allows, and
    stores [lacing_count] values. *)
Lemma lacing_loop_complete fuel : forall buf pos page_done lacing_done data_size,
  0 <= page_done -> page_done + 2 * Z.of_nat fuel < 2 ^ 64 ->
  0 <= lacing_done <= data_size -> data_size < 2 ^ 31 ->
  (data_size - lacing_done + 254) / 255 <= Z.of_nat fuel ->
  snd (fst (lacing_loop fuel buf pos page_done lacing_done data_size))
  = page_done + lacing_count (data_size - lacing_done)
  /\ snd (lacing_loop fuel buf pos page_done lacing_done data_size) = data_size.
Proof.
  induction fuel as [|fuel IH]; intros buf pos pd ld ds Hpd Hfuel Hld Hds Hturns.
  - cbn [lacing_loop]. unfold lacing_count.
    destruct (Z.ltb_spec ld ds) as [Hlt|Hge].
    + assert (1 <= (ds - ld + 254) / 255).
      { replace (ds - ld + 254) with (ds - ld - 1 + 1 * 255) by lia.
        rewrite Z.div_add by lia.
        assert (0 <= (ds - ld - 1) / 255) by (apply Z.div_pos; lia). lia. }
      simpl in Hturns. lia.
    + replace (ds - ld) with 0 by lia. simpl. split; lia.
  - cbn [lacing_loop]. unfold lacing_count.
    destruct (Z.ltb_spec ld ds) as [Hlt|Hge].
    2:{ replace (ds - ld) with 0 by lia. simpl. split; lia. }
    destruct (Z.eqb_spec (ds - ld) 0) as [E0|_]; [lia|].
    change (2 ^ 31) with 2147483648 in Hds.
    assert (Eb : to_int (to_size_t (ds - ld)) = ds - ld).
    { rewrite to_size_t_small
        by lia.
      apply to_int_small. change (2 ^ 31) with 2147483648. lia. }
    assert (E1 : to_size_t (pd + 1) = pd + 1) by (apply to_size_t_small; lia).
    assert (E2 : to_size_t (pd + 1 + 1) = pd + 2)
      by (rewrite to_size_t_small; lia).
    assert (Hnil : (ds - ds + 254) / 255 <= Z.of_nat fuel).
    { rewrite Z.sub_diag. change ((0 + 254) / 255) with 0. lia. }
    cbv zeta. rewrite Eb, E1, E2.
    destruct (Z.gtb_spec (ds - ld) 255) as [Hbig|Hsmall].
    + (* a full segment, more to come *)
      assert (El : to_size_t (ld + 255) = ld + 255)
        by (apply to_size_t_small; change (2 ^ 64) with 18446744073709551616; lia).
      rewrite El.
      destruct (Z.eqb_spec (ld + 255) ds) as [E|_]; [lia|].
      simpl andb. cbv iota.
      assert (Hq : (ds - ld) / 255 = (ds - (ld + 255)) / 255 + 1).
      { replace (ds - ld) with (ds - (ld + 255) + 1 * 255) by lia.
        rewrite Z.div_add by lia. reflexivity. }
      assert (Hq' : (ds - ld + 254) / 255 = (ds - (ld + 255) + 254) / 255 + 1).
      { replace (ds - ld + 254) with (ds - (ld + 255) + 254 + 1 * 255) by lia.
        rewrite Z.div_add by lia. reflexivity. }
      destruct (IH (put_8bit buf (pos + pd) 255) pos (pd + 1) (ld + 255) ds)
        as [Hp Hl]; try lia.
      rewrite Hp, Hl. unfold lacing_count.
      destruct (Z.eqb_spec (ds - (ld + 255)) 0); [lia|]. split; lia.
    + assert (El : to_size_t (ld + (ds - ld)) = ds)
        by (replace (ld + (ds - ld)) with ds by lia; apply to_size_t_small;
            change (2 ^ 64) with 18446744073709551616; lia).
      rewrite El, Z.eqb_refl. simpl andb.
      destruct (Z.eqb_spec (ds - ld) 255) as [E255|N255].
      * (* the last segment is full: a closing 0 follows *)
        destruct (IH (put_8bit (put_8bit buf (pos + pd) (ds - ld)) (pos + (pd + 1)) 0)
                     pos (pd + 2) ds ds) as [Hp Hl]; try lia.
        rewrite Hp, Hl. rewrite Z.sub_diag. unfold lacing_count. simpl (0 =? 0).
        rewrite E255. change (255 / 255) with 1. split; lia.
      * destruct (IH (put_8bit buf (pos + pd) (ds - ld)) pos (pd + 1) ds ds)
          as [Hp Hl]; try lia.
        rewrite Hp, Hl. rewrite Z.sub_diag. unfold lacing_count. simpl (0 =? 0).
        rewrite (Z.div_small (ds - ld) 255) by lia. split; lia.
Qed.

Lemma le32_recompose v :
  to_uint8 v + 2 ^ 8 * to_uint8 (Z.shiftr v 8)
  + 2 ^ 16 * to_uint8 (Z.shiftr v 16) + 2 ^ 24 * to_uint8 (Z.shiftr v 24)
  = to_uint32 v.
Proof.
  unfold to_uint8, to_uint32, wrap_unsigned.
  rewrite !Z.shiftr_div_pow2 by lia.
  change (2 ^ 8) with 256. change (2 ^ 16) with (256 * 256).
  change (2 ^ 24) with (256 * 256 * 256).
  change (2 ^ 32) with (256 * 256 * 256 * 256).
  rewrite <- !Z.div_div by lia.
  set (q1 := v / 256). set (q2 := q1 / 256). set (q3 := q2 / 256).
  pose proof (Z.div_mod v 256 ltac:(lia)) as H0. fold q1 in H0.
  pose proof (Z.div_mod q1 256 ltac:(lia)) as H1. fold q2 in H1.
  pose proof (Z.div_mod q2 256 ltac:(lia)) as H2. fold q3 in H2.
  pose proof (Z.div_mod q3 256 ltac:(lia)) as H3.
  pose proof (Z.mod_pos_bound v 256 ltac:(lia)).
  pose proof (Z.mod_pos_bound q1 256 ltac:(lia)).
  pose proof (Z.mod_pos_bound q2 256 ltac:(lia)).
  pose proof (Z.mod_pos_bound q3 256 ltac:(lia)).
  apply Z.mod_unique_pos with (q := q3 / 256); lia.
Qed.

Lemma get_32bitLE_put_32bitLE buf pos v :
  0 <= pos -> pos + 3 < Z.of_nat (List.length buf) ->
  get_32bitLE (put_32bitLE buf pos v) pos = to_uint32 v.
Proof.
  intros H0 H3. rewrite <- le32_recompose. unfold get_32bitLE, put_32bitLE.
  rewrite (peek_put_8bit_other _ (pos + 3) pos) by lia.
  rewrite (peek_put_8bit_other _ (pos + 2) pos) by lia.
  rewrite (peek_put_8bit_other _ (pos + 1) pos) by lia.
  rewrite (peek_put_8bit_same _ pos) by lia.
  rewrite (peek_put_8bit_other _ (pos + 3) (pos + 1)) by lia.
  rewrite (peek_put_8bit_other _ (pos + 2) (pos + 1)) by lia.
  rewrite (peek_put_8bit_same _ (pos + 1)) by (rewrite ?put_8bit_length; lia).
  rewrite (peek_put_8bit_other _ (pos + 3) (pos + 2)) by lia.
  rewrite (peek_put_8bit_same _ (pos + 2)) by (rewrite ?put_8bit_length; lia).
  rewrite (peek_put_8bit_same _ (pos + 3)) by (rewrite ?put_8bit_length; lia).
  reflexivity.
Qed.

Lemma get_32bitLE_ext buf buf' pos :
  (forall i, pos <= i <= pos + 3 -> peek buf i = peek buf' i) ->
  get_32bitLE buf pos = get_32bitLE buf' pos.
Proof.
  intros H. unfold get_32bitLE. rewrite !H by lia. reflexivity.
Qed.

Lemma page_fits_check buf_size data_size :
  page_fits buf_size data_size ->
  (to_size_t (0x1b + (data_size / 0xFF + 1) + data_size) >? to_size_t buf_size)
  = false.
Proof.
  intros (Hd & Hb & Hfit). change (2 ^ 31) with 2147483648 in Hb.
  assert (0 <= data_size / 255) by (apply Z.div_pos; lia).
  rewrite !to_size_t_small
    by lia.
  rewrite Z.gtb_ltb. apply Z.ltb_ge. lia.
Qed.

Lemma page_fits_turns buf_size data_size :
  page_fits buf_size data_size ->
  (data_size - 0 + 254) / 255 <= Z.of_nat (Z.to_nat (data_size / 255 + 1))
  /\ 27 + 2 * Z.of_nat (Z.to_nat (data_size / 255 + 1)) < 2 ^ 64
  /\ data_size < 2 ^ 31.
Proof.
  intros (Hd & Hb & Hfit). change (2 ^ 31) with 2147483648 in *.
  assert (0 <= data_size / 255) by (apply Z.div_pos; lia).
  rewrite Z2Nat.id by lia.
  assert ((data_size - 0 + 254) / 255 <= data_size / 255 + 1).
  { replace (data_size / 255 + 1) with ((data_size + 1 * 255) / 255)
      by (rewrite Z.div_add by lia; reflexivity).
    apply Z.div_le_mono; lia. }
  change (2 ^ 64) with 18446744073709551616. lia.
Qed.

(** The size [make_oggs_page] returns: the header, the lacing values its
    loop stores and the payload. *)
Lemma make_oggs_page_returns buf pos buf_size data_size page_sequence granule :
  page_fits buf_size data_size ->
  snd (make_oggs_page buf pos buf_size data_size page_sequence granule)
  = 27 + lacing_count data_size + data_size.
Proof.
  intros Hfit. unfold make_oggs_page.
  rewrite (page_fits_check _ _ Hfit). cbv zeta.
  destruct (page_fits_turns _ _ Hfit) as (Hturns & Hroom & Hds).
  match goal with |- context [lacing_loop ?f ?b ?p ?pd ?ld ?ds] =>
    destruct (lacing_loop_complete f b p pd ld ds) as [Hp _]; try lia;
    [destruct Hfit; lia|];
    destruct (lacing_loop f b p pd ld ds) as [[b' pd'] ld'] eqn:EL
  end.
  simpl in Hp. simpl snd. subst pd'. rewrite Z.sub_0_r.
  destruct Hfit as (Hd & Hb & Hfit).
  assert (0 <= lacing_count data_size <= data_size / 255 + 1).
  { unfold lacing_count. assert (0 <= data_size / 255) by (apply Z.div_pos; lia).
    destruct (data_size =? 0); lia. }
  apply to_size_t_small. change (2 ^ 31) with 2147483648 in *.
  change (2 ^ 64) with 18446744073709551616. lia.
Qed.

(** The bytes of the finished page below the segment count are those of the
    header fields; the checksum field apart, which is stored last. *)
Lemma make_oggs_page_peek_granule buf buf_size data_size page_sequence granule i :
  page_fits buf_size data_size -> 0x06 <= i < 0x0E ->
  peek (fst (make_oggs_page buf 0 buf_size data_size page_sequence granule)) i
  = peek (put_32bitLE (put_32bitLE buf 0x06
            (to_uint32 (Z.land (Z.shiftr (to_uint64 granule) 0) 0xFFFFFFFF)))
            0x0A
            (to_uint32 (Z.land (Z.shiftr (to_uint64 granule) 32) 0xFFFFFFFF))) i.
Proof.
  intros Hfit Hi. unfold make_oggs_page.
  rewrite (page_fits_check _ _ Hfit). cbv zeta.
  destruct (page_fits_turns _ _ Hfit) as (Hturns & Hroom & Hds).
  match goal with |- context [lacing_loop ?f ?b ?p ?pd ?ld ?ds] =>
    pose proof (lacing_loop_peek_below f b p pd ld ds i) as Hpk;
    destruct (lacing_loop f b p pd ld ds) as [[b' pd'] ld'] eqn:EL
  end.
  simpl fst in *. simpl Z.add in *.
  rewrite peek_put_32bitLE_other by lia.
  rewrite Hpk by lia.
  rewrite peek_put_8bit_other by lia.
  rewrite !(peek_put_32bitLE_other _ 22) by lia.
  rewrite !(peek_put_32bitLE_other _ 18) by lia.
  rewrite !(peek_put_32bitLE_other _ 14) by lia.
  repeat (apply peek_put_32bitLE_ext;
          [now rewrite ?put_32bitLE_length, ?put_8bit_length, ?put_32bitBE_length|]).
  rewrite !peek_put_8bit_other by lia.
  apply peek_put_32bitBE_other. lia.
Qed.

(** ** Granule position *)

Lemma to_uint64_range z : 0 <= to_uint64 z < 2 ^ 64.
Proof. unfold to_uint64, wrap_unsigned. apply Z.mod_pos_bound. lia. Qed.

Lemma land_ffffffff z : Z.land z 0xFFFFFFFF = z mod 2 ^ 32.
Proof. change 0xFFFFFFFF with (Z.ones 32). apply Z.land_ones. lia. Qed.

Lemma granule_halves ag :
  0 <= ag < 2 ^ 64 ->
  to_uint32 (to_uint32 (Z.land (Z.shiftr ag 0) 0xFFFFFFFF))
  + 2 ^ 32 * to_uint32 (to_uint32 (Z.land (Z.shiftr ag 32) 0xFFFFFFFF))
  = ag
  /\ to_uint32 (to_uint32 (Z.land (Z.shiftr ag 32) 0xFFFFFFFF)) = ag / 2 ^ 32.
Proof.
  intros H. rewrite !land_ffffffff, Z.shiftr_0_r, Z.shiftr_div_pow2 by lia.
  unfold to_uint32, wrap_unsigned. rewrite !Z.mod_mod by lia.
  assert (Hq : 0 <= ag / 2 ^ 32 < 2 ^ 32).
  { split; [apply Z.div_pos; lia|].
    apply Z.div_lt_upper_bound; [lia|].
    change (2 ^ 32 * 2 ^ 32) with (2 ^ 64). lia. }
  rewrite (Z.mod_small (ag / 2 ^ 32)) by assumption.
  split; [|reflexivity].
  pose proof (Z.div_mod ag (2 ^ 32) ltac:(lia)). lia.
Qed.

Lemma make_oggs_page_granule buf buf_size data_size page_sequence granule :
  page_fits buf_size data_size -> (14 <= List.length buf)%nat ->
  let page :=
    fst (make_oggs_page buf 0 buf_size data_size page_sequence granule) in
  get_64bitLE page 0x06 = to_uint64 granule
  /\ get_32bitLE page 0x0A = to_uint64 granule / 2 ^ 32.
Proof.
  intros Hfit Hlen page.
  set (lo := to_uint32 (Z.land (Z.shiftr (to_uint64 granule) 0) 0xFFFFFFFF)).
  set (hi := to_uint32 (Z.land (Z.shiftr (to_uint64 granule) 32) 0xFFFFFFFF)).
  assert (Hlo : get_32bitLE page 0x06 = to_uint32 lo).
  { rewrite (get_32bitLE_ext page (put_32bitLE (put_32bitLE buf 0x06 lo) 0x0A hi)).
    - rewrite (get_32bitLE_ext _ (put_32bitLE buf 0x06 lo)).
      + apply get_32bitLE_put_32bitLE; lia.
      + intros i Hi. apply peek_put_32bitLE_other. lia.
    - intros i Hi. apply make_oggs_page_peek_granule; [assumption | lia]. }
  assert (Hhi : get_32bitLE page 0x0A = to_uint32 hi).
  { rewrite (get_32bitLE_ext page (put_32bitLE (put_32bitLE buf 0x06 lo) 0x0A hi)).
    - apply get_32bitLE_put_32bitLE; rewrite ?put_32bitLE_length; lia.
    - intros i Hi. apply make_oggs_page_peek_granule; [assumption | lia]. }
  destruct (granule_halves (to_uint64 granule) (to_uint64_range granule))
    as [Hsum Hupper].
  fold lo hi in Hsum, Hupper.
  split.
  - unfold get_64bitLE. change (0x06 + 4) with 0x0A. rewrite Hlo, Hhi. exact Hsum.
  - rewrite Hhi. exact Hupper.
Qed.

(** What a [size_t] sample total becomes on its way through the [int]
    parameter into the 64-bit granule field. *)
Lemma int_converted_granule samples :
  0 <= samples < 2 ^ 64 ->
  (samples < 2 ^ 31 ->
   to_uint64 (to_int samples) = samples
   /\ to_uint64 (to_int samples) / 2 ^ 32 = 0)
  /\ (2 ^ 31 <= samples < 2 ^ 64 - 2 ^ 31 ->
      to_uint64 (to_int samples) <> samples).
Proof.
  intros Hs. split.
  - intros Hsmall. rewrite to_int_small by lia.
    unfold to_uint64, wrap_unsigned. rewrite Z.mod_small by lia.
    split; [reflexivity|]. apply Z.div_small. lia.
  - intros Hbig Heq.
    pose proof (to_int_range samples) as Hr.
    unfold to_uint64, wrap_unsigned in Heq.
    destruct (Z_lt_ge_dec (to_int samples) 0) as [Hneg|Hpos].
    + replace (to_int samples) with (to_int samples + 2 ^ 64 + (-1) * 2 ^ 64)
        in Heq at 1 by lia.
      rewrite Z.mod_add in Heq by lia.
      rewrite Z.mod_small in Heq by lia. lia.
    + rewrite Z.mod_small in Heq by lia. lia.
Qed.

Lemma memcpy_to_length src : forall buf pos,
  List.length (memcpy_to buf pos src) = List.length buf.
Proof.
  induction src as [|b rest IH]; intros buf pos; simpl; auto.
  now rewrite IH, put_8bit_length.
Qed.

Lemma oggs_size_of_fits buf_size data_size :
  page_fits buf_size data_size ->
  oggs_size_of data_size = 27 + (data_size / 255 + 1).
Proof.
  intros (Hd & Hb & Hfit). unfold oggs_size_of.
  change (2 ^ 31) with 2147483648 in Hb.
  assert (0 <= data_size / 255) by (apply Z.div_pos; lia).
  rewrite (to_size_t_small (data_size / 255 + 1))
    by lia.
  rewrite (to_int_small (data_size / 255 + 1))
    by lia.
  rewrite to_int_small by lia.
  apply to_size_t_small. change (2 ^ 64) with 18446744073709551616. lia.
Qed.

(** C10.  When [opus_io_read] builds the page of a packet that fits the page
    buffer, the 64-bit granule field of that page holds [samples_done] after
    its conversion to the [int] parameter of [make_oggs_page] and back to
    [uint64_t]: [samples_done] itself, with the upper 32 bits zero, while
    [samples_done < 2^31]; from 2^31 on the truncated and sign-extended
    value, which is not the sample total. *)
Theorem audio_page_granule (sf : STREAMFILE) (d : opus_io_data)
    (data_size skip_size : Z) :
  packet_framing (type d) sf (physical_offset d)
                 (to_int (to_size_t (sequence d - 2))) = (data_size, skip_size) ->
  page_fits sizeof_page_buffer data_size ->
  List.length (page_buffer d) = Z.to_nat sizeof_page_buffer ->
  let d' := fst (process_new_block sf d) in
  let granule := get_64bitLE (page_buffer d') 0x06 in
  snd (process_new_block sf d) = false
  /\ granule = to_uint64 (to_int (samples_done d'))
  /\ (samples_done d' < 2 ^ 31 ->
      granule = samples_done d' /\ get_32bitLE (page_buffer d') 0x0A = 0)
  /\ (2 ^ 31 <= samples_done d' < 2 ^ 64 - 2 ^ 31 -> granule <> samples_done d').
Proof.
  intros Hframe Hfit Hlen.
  pose proof (oggs_size_of_fits _ _ Hfit) as Hoggs.
  assert (Hcheck : (to_size_t (oggs_size_of data_size + data_size)
                    >? sizeof_page_buffer) = false).
  { destruct Hfit as (Hd & Hb & Hf). rewrite Hoggs.
    assert (0 <= data_size / 255) by (apply Z.div_pos; lia).
    unfold sizeof_page_buffer in *.
    rewrite to_size_t_small
      by lia.
    rewrite Z.gtb_ltb. apply Z.ltb_ge. lia. }
  unfold process_new_block. rewrite Hframe.
  cbn [page_size set_page_size set_block_size]. rewrite Hcheck.
  cbn [fst snd page_buffer samples_done sequence set_sequence set_page_buffer
       set_samples_done set_page_size set_block_size].
  set (filled := read_streamfile (page_buffer d) (oggs_size_of data_size) _ _ sf).
  set (total := to_size_t (samples_done d + _)).
  assert (Hfilled : (14 <= List.length filled)%nat).
  { subst filled. unfold read_streamfile. rewrite memcpy_to_length, Hlen.
    unfold sizeof_page_buffer. apply Nat2Z.inj_le. rewrite Z2Nat.id; lia. }
  destruct (make_oggs_page_granule filled sizeof_page_buffer data_size
              (to_int (sequence d)) (to_int total) Hfit Hfilled) as [Hg Hupper].
  destruct (int_converted_granule total (to_size_t_range _)) as [Hsmall Hbig].
  split; [reflexivity|].
  split; [exact Hg|]. split.
  - intros Hlt. destruct (Hsmall Hlt) as [E1 E2].
    rewrite Hg, Hupper, E2. split; [exact E1 | reflexivity].
  - intros Hge. rewrite Hg. apply Hbig, Hge.
Qed.

Lemma audio_page_granule_witness :
  let sf := Scenario.ue4_source in
  let d := set_samples_done (2 ^ 31 - 1)
             (Scenario.the (Scenario.reframer 16 sf OPUS_UE4)) in
  let d' := fst (process_new_block sf d) in
  page_fits sizeof_page_buffer 2
  /\ samples_done d' = 2 ^ 31 + 479
  /\ get_64bitLE (page_buffer d') 0x06 = 2 ^ 64 - 2 ^ 31 + 479
  /\ get_64bitLE (page_buffer d') 0x06 = to_uint64 (to_int (samples_done d')).
Proof.
  intros sf d d'.
  assert (Hfit : page_fits sizeof_page_buffer 2)
    by (repeat split; vm_compute; discriminate).
  split; [exact Hfit|].
  split; [vm_compute; reflexivity|].
  split; [vm_compute; reflexivity|].
  apply (audio_page_granule sf d 2 2); [vm_compute; reflexivity | exact Hfit
                                        | vm_compute; reflexivity].
Defined.


(** ** Ogg checksum and the empty payload *)

Lemma lxor_below_pow2 a b n :
  0 < n -> 0 <= a < 2 ^ n -> 0 <= b < 2 ^ n -> 0 <= Z.lxor a b < 2 ^ n.
Proof.
  intros Hn Ha Hb.
  assert (H0 : 0 <= Z.lxor a b) by (apply Z.lxor_nonneg; lia).
  split; [assumption|].
  destruct (Z.eq_dec (Z.lxor a b) 0) as [E|E]; [rewrite E; lia|].
  apply Z.log2_lt_pow2; [lia|].
  pose proof (Z.log2_lxor a b ltac:(lia) ltac:(lia)) as Hl.
  assert (Z.log2 a < n).
  { destruct (Z.eq_dec a 0) as [ -> | ]; [simpl; lia|]. apply Z.log2_lt_pow2; lia. }
  assert (Z.log2 b < n).
  { destruct (Z.eq_dec b 0) as [ -> | ]; [simpl; lia|]. apply Z.log2_lt_pow2; lia. }
  lia.
Qed.

Lemma crc_lookup_range i : 0 <= peek crc_lookup i < 2 ^ 32.
Proof.
  assert (Hall : forall x, In x crc_lookup -> 0 <= x < 2 ^ 32).
  { assert (Hb : forallb (fun x => (0 <=? x) && (x <? 2 ^ 32)) crc_lookup = true)
      by (vm_compute; reflexivity).
    intros x Hx. rewrite forallb_forall in Hb. specialize (Hb x Hx).
    apply andb_true_iff in Hb. destruct Hb as [H1 H2].
    apply Z.leb_le in H1. apply Z.ltb_lt in H2. lia. }
  unfold peek. destruct (i <? 0); [lia|].
  destruct (nth_in_or_default (Z.to_nat i) crc_lookup 0) as [Hin|Hd].
  - apply Hall, Hin.
  - rewrite Hd. lia.
Qed.

Lemma crc_step_range crc_reg byte : 0 <= crc_step crc_reg byte < 2 ^ 32.
Proof.
  unfold crc_step. apply lxor_below_pow2; [lia | | apply crc_lookup_range].
  unfold to_uint32, wrap_unsigned. apply Z.mod_pos_bound. lia.
Qed.

Lemma crc_fold_range l : forall crc_reg,
  0 <= crc_reg < 2 ^ 32 -> 0 <= fold_left crc_step l crc_reg < 2 ^ 32.
Proof.
  induction l as [|b l IH]; intros acc Hacc; simpl; auto.
  apply IH, crc_step_range.
Qed.

Lemma get_oggs_checksum_range data pos bytes :
  0 <= get_oggs_checksum data pos bytes < 2 ^ 32.
Proof. unfold get_oggs_checksum. apply crc_fold_range. lia. Qed.

Lemma to_uint32_to_int z : 0 <= z < 2 ^ 32 -> to_uint32 (to_int z) = z.
Proof.
  intros H. unfold to_uint32, to_int, wrap_unsigned, wrap_signed.
  change (2 ^ (32 - 1)) with 2147483648. change (2 ^ 32) with 4294967296 in *.
  destruct (Z_lt_ge_dec z 2147483648).
  - rewrite (Z.mod_small (z + 2147483648)) by lia.
    rewrite Z.mod_small; lia.
  - replace (z + 2147483648) with (z - 2147483648 + 1 * 4294967296) by lia.
    rewrite Z.mod_add by lia.
    rewrite (Z.mod_small (z - 2147483648)) by lia.
    replace (z - 2147483648 - 2147483648) with (z + (-1) * 4294967296) by lia.
    rewrite Z.mod_add by lia. rewrite Z.mod_small; lia.
Qed.

Lemma peek_put_32bitLE_zero buf pos i :
  0 <= pos -> pos + 3 < Z.of_nat (List.length buf) -> pos <= i <= pos + 3 ->
  peek (put_32bitLE buf pos 0) i = 0.
Proof.
  intros H0 Hlen Hi. unfold put_32bitLE.
  assert (Hc : i = pos \/ i = pos + 1 \/ i = pos + 2 \/ i = pos + 3) by lia.
  destruct Hc as [ -> | [ -> | [ -> | -> ] ] ].
  - rewrite !(peek_put_8bit_other _ _ pos) by lia.
    rewrite peek_put_8bit_same by lia. reflexivity.
  - rewrite !(peek_put_8bit_other _ _ (pos + 1)) by lia.
    rewrite peek_put_8bit_same by (rewrite ?put_8bit_length; lia). reflexivity.
  - rewrite !(peek_put_8bit_other _ _ (pos + 2)) by lia.
    rewrite peek_put_8bit_same by (rewrite ?put_8bit_length; lia). reflexivity.
  - rewrite peek_put_8bit_same by (rewrite ?put_8bit_length; lia). reflexivity.
Qed.

(** C3 on the code.  For an empty payload [make_oggs_page] stores a segment
    count of 1, but its segment table loop does not run: the byte at 0x1B
    keeps what it held, the returned size is 27, and the checksum stored at
    0x16 is that of the first 27 bytes (taken with the checksum field at
    zero).  [opus_io_read] counts the same page as 28 bytes. *)
Theorem make_oggs_page_empty_payload (buf : list Z)
    (buf_size page_sequence granule : Z) :
  28 <= buf_size < 2 ^ 31 -> (28 <= List.length buf)%nat ->
  let page := fst (make_oggs_page buf 0 buf_size 0 page_sequence granule) in
  snd (make_oggs_page buf 0 buf_size 0 page_sequence granule) = 27
  /\ peek page 0x1A = 1
  /\ peek page 0x1B = peek buf 0x1B
  /\ get_32bitLE page 0x16 = get_oggs_checksum (put_32bitLE page 0x16 0) 0 27
  /\ oggs_size_of 0 + 0 = 28.
Proof.
  intros Hb Hlen page.
  assert (Hfit : page_fits buf_size 0)
    by (repeat split; try lia; change (0 / 255) with 0; lia).
  split; [apply (make_oggs_page_returns buf 0 buf_size 0 _ _ Hfit)|].
  subst page. unfold make_oggs_page.
  rewrite (page_fits_check _ _ Hfit). cbv zeta.
  change (Z.to_nat (0 / 255 + 1)) with 1%nat.
  cbn [lacing_loop]. change (0 <? 0) with false. cbv iota. cbn [fst snd].
  change (to_size_t (27 + 0)) with 27. change (to_int 27) with 27.
  change (to_int (to_size_t (0 / 255 + 1))) with 1.
  simpl Z.add.
  match goal with |- context [put_32bitLE ?B 22 (to_int ?c)] =>
    set (laid := B); set (crc := c)
  end.
  assert (Hlaid : List.length laid = List.length buf).
  { subst laid. now rewrite put_8bit_length, !put_32bitLE_length,
      !put_8bit_length, put_32bitBE_length. }
  split; [|split; [|split]].
  - rewrite peek_put_32bitLE_other by lia. subst laid.
    rewrite peek_put_8bit_same; [reflexivity|].
    rewrite !put_32bitLE_length, !put_8bit_length, put_32bitBE_length. lia.
  - rewrite peek_put_32bitLE_other by lia. subst laid.
    rewrite peek_put_8bit_other by lia.
    rewrite !peek_put_32bitLE_other by lia.
    rewrite !peek_put_8bit_other by lia.
    apply peek_put_32bitBE_other. lia.
  - rewrite get_32bitLE_put_32bitLE by lia.
    rewrite to_uint32_to_int by apply get_oggs_checksum_range.
    subst crc. unfold get_oggs_checksum. f_equal.
    apply memcpy_from_ext. intros i Hi.
    destruct (Z_lt_ge_dec i 22) as [Hlo|Hge];
      [now rewrite !peek_put_32bitLE_other by lia|].
    destruct (Z_lt_ge_dec 25 i) as [Hhi|Hle];
      [now rewrite !peek_put_32bitLE_other by lia|].
    rewrite peek_put_32bitLE_zero by (rewrite ?put_32bitLE_length; lia).
    subst laid. rewrite peek_put_8bit_other by lia.
    apply peek_put_32bitLE_zero;
      rewrite ?put_32bitLE_length, ?put_8bit_length, ?put_32bitBE_length; lia.
  - reflexivity.
Qed.

Lemma make_oggs_page_empty_payload_witness :
  let buf := repeat 0xAA 0x20 in
  (28 <= 0x20 < 2 ^ 31 /\ (28 <= List.length buf)%nat)
  /\ snd (make_oggs_page buf 0 0x20 0 2 0) = 27
  /\ peek (fst (make_oggs_page buf 0 0x20 0 2 0)) 0x1A = 1
  /\ peek (fst (make_oggs_page buf 0 0x20 0 2 0)) 0x1B = peek buf 0x1B.
Proof.
  intros buf.
  assert (Hb : 28 <= 0x20 < 2 ^ 31) by (split; [discriminate | reflexivity]).
  assert (Hl : (28 <= List.length buf)%nat) by (vm_compute; repeat constructor).
  split; [split; assumption|].
  destruct (make_oggs_page_empty_payload buf 0x20 2 0 Hb Hl)
    as (H1 & H2 & H3 & _).
  repeat split; assumption.
Defined.

(** ** Logical size: the walk *)

Lemma make_oggs_first_size channels skip sample_rate :
  snd (make_oggs_first (repeat 0 (Z.to_nat 0x100)) 0x100 channels skip sample_rate)
  = 128.
Proof. lazy. reflexivity. Qed.

(** Opens [setup_opus_streamfile] up to its call of [opus_io_size], with
    the header built and its size known. *)
Ltac open_setup :=
  unfold setup_opus_streamfile;
  match goal with
  | |- context [make_oggs_first ?b ?n ?c ?s ?r] =>
      let Hsize := fresh "Hsize" in
      let hb := fresh "hb" in
      let hs := fresh "hs" in
      pose proof (make_oggs_first_size c s r) as Hsize;
      destruct (make_oggs_first b n c s r) as [hb hs];
      cbn [snd] in Hsize; subst hs;
      change (128 =? 0) with false; cbv iota
  end.

Lemma off_t_round_trip po : 0 <= po < 2 ^ 63 -> to_off_t (to_size_t po + 0) = po.
Proof.
  intros H. rewrite Z.add_0_r, to_size_t_small by lia.
  apply to_off_t_small. lia.
Qed.

Lemma to_size_t_add_l a b : to_size_t (to_size_t a + b) = to_size_t (a + b).
Proof. unfold to_size_t, wrap_unsigned. apply Z.add_mod_idemp_l. lia. Qed.

Lemma to_size_t_add_r a b : to_size_t (a + to_size_t b) = to_size_t (a + b).
Proof. unfold to_size_t, wrap_unsigned. apply Z.add_mod_idemp_r. lia. Qed.

Lemma oggs_size_of_int32 data_size :
  0 <= data_size < 2 ^ 31 -> oggs_size_of data_size = 27 + (data_size / 255 + 1).
Proof.
  intros H.
  assert (0 <= data_size / 255 <= 8421504).
  { split; [apply Z.div_pos; lia|].
    change 8421504 with (2147483648 / 255). apply Z.div_le_mono; lia. }
  unfold oggs_size_of.
  rewrite (to_size_t_small (data_size / 255 + 1)) by lia.
  rewrite (to_int_small (data_size / 255 + 1)) by lia.
  rewrite to_int_small by lia.
  apply to_size_t_small. lia.
Qed.

Lemma packet_framing_size_range ty sf po packet :
  0 <= fst (packet_framing ty sf po packet) < 2 ^ 64.
Proof.
  destruct ty; cbn [packet_framing fst]; unfold get_xopus_packet_size;
    auto with cint.
Qed.

Lemma packet_framing_16bit ty sf po packet :
  ty <> OPUS_SWITCH -> fst (packet_framing ty sf po packet) < 2 ^ 16.
Proof.
  intros Hty. destruct ty; [congruence | | |].
  - rewrite framing_ue4. apply source_le16_range.
  - rewrite framing_ea. apply source_be16_range.
  - cbn [packet_framing fst]. unfold get_xopus_packet_size, read_16bitLE.
    match goal with |- context [to_int16 ?v] =>
      change v with (source_le16 sf (to_int (32 + to_int (packet * 2)))) end.
    rewrite uint16_as_size_t by apply source_le16_range.
    apply source_le16_range.
Qed.

Section Walk.

Variables (sf : STREAMFILE) (ty : opus_type_t) (max_physical_offset : Z).

(** A packet whose framing advances the walk by 0 bytes holds it forever. *)
Lemma size_walk_stuck po :
  0 <= po < 2 ^ 63 -> po < max_physical_offset ->
  (forall packet,
     to_size_t (fst (packet_framing ty sf po packet)
                + snd (packet_framing ty sf po packet)) = 0) ->
  forall fuel logical_size packet,
    size_walk fuel sf ty po max_physical_offset logical_size packet = None.
Proof.
  intros Hpo Hmax Hzero.
  induction fuel as [|fuel IH]; intros ls pk; cbn [size_walk];
    replace (po <? max_physical_offset) with true
      by (symmetry; apply Z.ltb_lt; lia);
    [reflexivity|].
  specialize (Hzero pk).
  destruct (packet_framing ty sf po pk) as [ds sk]. cbn [fst snd] in Hzero.
  rewrite Hzero, off_t_round_trip by assumption. apply IH.
Qed.

(** Once the walk has ended, more fuel changes nothing. *)
Lemma size_walk_more_fuel fuel : forall more po ls pk r,
  size_walk fuel sf ty po max_physical_offset ls pk = Some r ->
  size_walk (fuel + more) sf ty po max_physical_offset ls pk = Some r.
Proof.
  induction fuel as [|fuel IH]; intros more po ls pk r;
    cbn [size_walk Nat.add]; destruct (po <? max_physical_offset) eqn:E;
    try discriminate.
  - intros H. destruct more; cbn [size_walk]; rewrite E; exact H.
  - destruct (packet_framing ty sf po pk) as [ds sk]. apply IH.
  - auto.
Qed.

(** The 16-bit framings always advance, by 2 bytes at least: the walk over
    a region of [n] bytes ends within [n] packets. *)
Lemma size_walk_16bit_ends fuel : forall po ls pk,
  ty = OPUS_UE4 \/ ty = OPUS_EA ->
  0 <= po -> max_physical_offset < 2 ^ 62 ->
  max_physical_offset - po <= Z.of_nat fuel ->
  exists r, size_walk fuel sf ty po max_physical_offset ls pk = Some r.
Proof.
  induction fuel as [|fuel IH]; intros po ls pk Hty Hpo Hmax Hfuel;
    cbn [size_walk]; destruct (Z.ltb_spec po max_physical_offset) as [Hlt|Hge];
    try (eexists; reflexivity); [simpl in Hfuel; lia|].
  assert (Hframe : exists ds, packet_framing ty sf po pk = (ds, 2)
                              /\ 0 <= ds < 2 ^ 16).
  { destruct Hty as [-> | ->].
    - exists (source_le16 sf po). split;
        [apply framing_ue4 | apply source_le16_range].
    - exists (source_be16 sf po). split;
        [apply framing_ea | apply source_be16_range]. }
  destruct Hframe as (ds & -> & Hds).
  rewrite (to_size_t_small po), (to_size_t_small (ds + 2)) by lia.
  rewrite to_off_t_small by lia.
  apply IH; auto; lia.
Qed.

(** The walk of [opus_io_size] adds one page per discovered packet. *)
Lemma size_walk_sum fuel : forall po ls pk po' ls' pk',
  0 <= ls < 2 ^ 64 ->
  size_walk fuel sf ty po max_physical_offset ls pk = Some (po', ls', pk') ->
  exists sizes,
    discovered_packets fuel sf ty po max_physical_offset pk = Some sizes
    /\ (Forall (fun p => p < 2 ^ 31) sizes ->
        ls' = to_size_t (ls + sum_pages oggs_page_size sizes)).
Proof.
  induction fuel as [|fuel IH]; intros po ls pk po' ls' pk' Hls;
    cbn [size_walk discovered_packets];
    destruct (po <? max_physical_offset); try discriminate.
  - intros H. injection H as _ <- _. exists []. split; [reflexivity|].
    intros _. cbn [sum_pages fold_right]. rewrite Z.add_0_r.
    symmetry. now apply to_size_t_small.
  - pose proof (packet_framing_size_range ty sf po pk) as Hr.
    destruct (packet_framing ty sf po pk) as [ds sk]. cbn [fst] in Hr.
    intros H. apply IH in H; [|apply to_size_t_range].
    destruct H as (sizes & Hd & Hsum).
    rewrite Hd. exists (ds :: sizes). split; [reflexivity|].
    intros Hall. inversion Hall as [|p ps Hp Hps]; subst.
    rewrite (Hsum Hps). cbn [sum_pages fold_right].
    fold (sum_pages oggs_page_size sizes).
    rewrite to_size_t_add_l, <- Z.add_assoc, (Z.add_comm (to_size_t _)).
    rewrite Z.add_assoc, to_size_t_add_r.
    rewrite oggs_size_of_int32 by lia. unfold oggs_page_size.
    f_equal. lia.
  - intros H. injection H as _ <- _. exists []. split; [reflexivity|].
    intros _. cbn [sum_pages fold_right]. rewrite Z.add_0_r.
    symmetry. now apply to_size_t_small.
Qed.

(** Only the Switch framing can yield a payload size of 2^31 or more. *)
Lemma discovered_packets_16bit fuel : forall po pk sizes,
  ty <> OPUS_SWITCH ->
  discovered_packets fuel sf ty po max_physical_offset pk = Some sizes ->
  Forall (fun p => p < 2 ^ 31) sizes.
Proof.
  induction fuel as [|fuel IH]; intros po pk sizes Hty;
    cbn [discovered_packets];
    destruct (po <? max_physical_offset); try discriminate;
    try (intros H; injection H as <-; constructor).
  pose proof (packet_framing_16bit ty sf po pk Hty) as Hr.
  destruct (packet_framing ty sf po pk) as [ds sk]. cbn [fst] in Hr.
  destruct (discovered_packets fuel sf ty _ _ _) as [rest|] eqn:Hrest;
    [|discriminate].
  intros H. injection H as <-. constructor; [lia|].
  eapply IH; eauto.
Qed.

End Walk.

Lemma opus_io_size_stuck fuel sf d :
  logical_size d = 0 ->
  0 <= stream_offset d -> 0 < stream_size d ->
  stream_offset d + stream_size d <= get_streamfile_size sf ->
  get_streamfile_size sf < 2 ^ 63 ->
  (forall packet,
     to_size_t (fst (packet_framing (type d) sf (stream_offset d) packet)
                + snd (packet_framing (type d) sf (stream_offset d) packet)) = 0) ->
  opus_io_size fuel sf d = None.
Proof.
  intros Hls Hso Hss Hin Hsz Hzero. unfold opus_io_size.
  rewrite Hls. simpl negb. cbv iota.
  rewrite (to_size_t_small (stream_offset d)) by lia.
  rewrite (to_size_t_small (stream_offset d + stream_size d)) by lia.
  replace (stream_offset d + stream_size d >? get_streamfile_size sf) with false
    by (symmetry; rewrite Z.gtb_ltb; apply Z.ltb_ge; lia).
  rewrite to_off_t_small by lia.
  rewrite size_walk_stuck; auto; lia.
Qed.

(** On a Switch stream whose first size field holds 0xFFFFFFF8 the packet
    advances the walk by [-8 + 8 = 0] bytes. *)
Lemma switch_walk_never_ends :
  forall fuel,
    setup_opus_streamfile fuel Scenario.switch_stuck_source 2 312 48000 0 8
                          OPUS_SWITCH = None.
Proof.
  intros fuel. open_setup.
  rewrite opus_io_size_stuck; [reflexivity | reflexivity | | | | | ];
    cbn [logical_size stream_offset stream_size type].
  - lia.
  - lia.
  - vm_compute. discriminate.
  - vm_compute. reflexivity.
  - intros packet. vm_compute. reflexivity.
Qed.

(** On an XOPUS stream whose size table holds zeros: the packets have no
    framing bytes, so an empty packet does not advance the walk. *)
Lemma xopus_walk_never_ends :
  forall fuel,
    setup_opus_streamfile fuel Scenario.xopus_zero_source 2 312 48000 0x22 2
                          OPUS_X = None.
Proof.
  intros fuel. open_setup.
  rewrite opus_io_size_stuck; [reflexivity | reflexivity | | | | | ];
    cbn [logical_size stream_offset stream_size type];
    [lia | lia | vm_compute; discriminate | vm_compute; reflexivity |].
  intros packet. cbn [type packet_framing fst snd].
  unfold get_xopus_packet_size, read_16bitLE.
  assert (Hz : forall offset, source_byte Scenario.xopus_zero_source offset = 0).
  { intros offset. unfold source_byte, peek, Scenario.xopus_zero_source.
    destruct (offset <? 0); [reflexivity|].
    destruct (nth_in_or_default (Z.to_nat offset) (repeat 0 48%nat) 0)
      as [Hin|Hd].
    - apply repeat_spec in Hin. now rewrite Hin.
    - now rewrite Hd. }
  rewrite !Hz. reflexivity.
Qed.

(** C7 on the code.  [opus_io_size], and with it [setup_opus_streamfile],
    is still walking after any number of packets on a Switch stream whose
    first size field holds 0xFFFFFFF8 (stream_offset 0, stream_size 8), and
    on an XOPUS stream whose size table holds zeros (stream_offset 0x22,
    stream_size 2): in both the packet advances the walk by 0 bytes. *)
Theorem opus_io_size_walk_never_ends :
  (forall fuel,
     setup_opus_streamfile fuel Scenario.switch_stuck_source 2 312 48000 0 8
                           OPUS_SWITCH = None)
  /\ (forall fuel,
        setup_opus_streamfile fuel Scenario.xopus_zero_source 2 312 48000
                              0x22 2 OPUS_X = None).
Proof. split; [exact switch_walk_never_ends | exact xopus_walk_never_ends]. Qed.

(** The second half of C7: a region that reaches past the end of the byte
    source makes [opus_io_size] return 0, whatever the packets are. *)
Lemma opus_io_size_region_past_source fuel sf d :
  logical_size d = 0 ->
  0 <= stream_offset d -> 0 <= stream_size d ->
  stream_offset d + stream_size d < 2 ^ 64 ->
  get_streamfile_size sf < stream_offset d + stream_size d ->
  opus_io_size fuel sf d = Some (d, 0).
Proof.
  intros Hls Hso Hss Hwrap Hpast. unfold opus_io_size.
  rewrite Hls. simpl negb. cbv iota.
  rewrite (to_size_t_small (stream_offset d)) by lia.
  rewrite (to_size_t_small (stream_offset d + stream_size d)) by lia.
  replace (stream_offset d + stream_size d >? get_streamfile_size sf) with true
    by (symmetry; apply Z.gtb_lt; lia).
  reflexivity.
Qed.

(** With a 16-bit framing the construction always comes back, the region
    size being fuel enough. *)
Lemma setup_opus_streamfile_16bit_returns fuel sf channels skip sample_rate
    region_offset region_size ty :
  ty = OPUS_UE4 \/ ty = OPUS_EA ->
  0 <= region_offset -> 0 <= region_size ->
  region_offset + region_size < 2 ^ 62 ->
  region_size <= Z.of_nat fuel ->
  exists d,
    setup_opus_streamfile fuel sf channels skip sample_rate
                          region_offset region_size ty = Some (Some d).
Proof.
  intros Hty Ho Hs Hmax Hfuel. open_setup.
  unfold opus_io_size.
  cbn [logical_size stream_offset stream_size type head_size].
  change (negb (0 =? 0)) with false. cbv iota.
  destruct (_ >? get_streamfile_size sf); [eexists; reflexivity|].
  rewrite (to_size_t_small region_offset), to_off_t_small by lia.
  destruct (size_walk_16bit_ends sf ty (region_offset + region_size) fuel
              region_offset 128 0 Hty Ho Hmax ltac:(lia)) as [[[po' ls'] pk'] ->].
  destruct (_ >? get_streamfile_size sf); eexists; reflexivity.
Qed.

(** ** Logical size: the sum *)

(** The specification's page size and the code's differ exactly on the
    payloads that are multiples of 255, the empty one included. *)
Lemma spec_page_size_agrees payload :
  0 <= payload ->
  (spec_page_size payload = oggs_page_size payload <-> payload mod 255 <> 0).
Proof.
  intros Hp. unfold spec_page_size, oggs_page_size, lacing_ceiling.
  pose proof (Z.div_mod payload 255 ltac:(lia)) as Hdm.
  pose proof (Z.mod_pos_bound payload 255 ltac:(lia)) as Hr.
  set (q := payload / 255) in *. set (r := payload mod 255) in *.
  assert (Hc : (payload + 254) / 255 = q + (if r =? 0 then 0 else 1)).
  { destruct (Z.eqb_spec r 0) as [E|E].
    - symmetry. apply Z.div_unique with (r := 254); lia.
    - symmetry. apply Z.div_unique with (r := r - 1); lia. }
  rewrite Hc. destruct (Z.eqb_spec r 0); split; intros; lia.
Qed.

(** C2, as the code has it.  For a constructed reframer whose size walk
    succeeded, [logical_size] is [head_size] plus, for every discovered
    packet of payload size [p], a page of [27 + (p / 255 + 1) + p] bytes
    (in [size_t] arithmetic, for payload sizes below 2^31, which those of
    every framing but Switch are); the page overhead is [27 + p / 255 + 1],
    one byte more than [27 + ceil(p / 255)] when [p] is a multiple of 255. *)
Theorem logical_size_is_sum_of_pages (fuel : nat) (sf : STREAMFILE)
    (channels skip sample_rate region_offset region_size : Z)
    (ty : opus_type_t) (d : opus_io_data) :
  setup_opus_streamfile fuel sf channels skip sample_rate
                        region_offset region_size ty = Some (Some d) ->
  logical_size d <> 0 ->
  exists sizes,
    discovered_packets fuel sf ty region_offset
      (to_off_t (to_size_t region_offset + region_size)) 0 = Some sizes
    /\ (Forall (fun p => p < 2 ^ 31) sizes \/ ty <> OPUS_SWITCH ->
        logical_size d
        = to_size_t (head_size d + sum_pages oggs_page_size sizes)).
Proof.
  open_setup.
  unfold opus_io_size.
  cbn [logical_size stream_offset stream_size type head_size].
  change (negb (0 =? 0)) with false. cbv iota.
  destruct (_ >? get_streamfile_size sf).
  { intros H Hnz. injection H as <-. cbn [logical_size set_logical_size] in Hnz.
    congruence. }
  destruct (size_walk _ _ _ _ _ _ _) as [[[po' ls'] pk']|] eqn:Hwalk;
    [|discriminate].
  destruct (_ >? get_streamfile_size sf).
  { intros H Hnz. injection H as <-. cbn [logical_size set_logical_size] in Hnz.
    congruence. }
  intros H _. injection H as <-. cbn [logical_size head_size set_logical_size].
  apply size_walk_sum in Hwalk; [|lia].
  destruct Hwalk as (sizes & Hd & Hsum). exists sizes. split; [exact Hd|].
  intros [Hall|Hty]; [exact (Hsum Hall)|].
  apply Hsum. eapply discovered_packets_16bit; eauto.
Qed.

Lemma logical_size_is_sum_of_pages_witness :
  let sf := Scenario.ue4_source in
  let d := Scenario.the (Scenario.reframer 16 sf OPUS_UE4) in
  (setup_opus_streamfile 16 sf 2 312 48000 0 8 OPUS_UE4 = Some (Some d)
   /\ logical_size d = 188)
  /\ exists sizes,
       discovered_packets 16 sf OPUS_UE4 0 (to_off_t (to_size_t 0 + 8)) 0
       = Some sizes
       /\ (Forall (fun p => p < 2 ^ 31) sizes \/ OPUS_UE4 <> OPUS_SWITCH ->
           logical_size d
           = to_size_t (head_size d + sum_pages oggs_page_size sizes)).
Proof.
  intros sf d.
  assert (Hs : setup_opus_streamfile 16 sf 2 312 48000 0 8 OPUS_UE4
               = Some (Some d)) by (vm_compute; reflexivity).
  assert (Hl : logical_size d = 188) by (vm_compute; reflexivity).
  split; [split; assumption|].
  apply (logical_size_is_sum_of_pages 16 sf 2 312 48000 0 8 OPUS_UE4 d Hs).
  rewrite Hl. discriminate.
Defined.

(** C2, as stated, fails: one UE4 packet of 255 bytes gives a logical size
    of [head_size + 284], one more than [head_size + 27 + ceil(255/255) + 255]. *)
Lemma logical_size_of_255_byte_packet :
  exists d,
    Scenario.reframer 16 Scenario.ue4_255_source OPUS_UE4 = Some d
    /\ discovered_packets 16 Scenario.ue4_255_source OPUS_UE4 0 257 0
       = Some [255]
    /\ logical_size d = head_size d + 284
    /\ head_size d + sum_pages spec_page_size [255] = head_size d + 283
    /\ logical_size d <> head_size d + sum_pages spec_page_size [255].
Proof.
  eexists. split; [vm_compute; reflexivity|].
  repeat split; try (vm_compute; reflexivity).
  vm_compute. discriminate.
Qed.

(** ** Random-access read: splitting a read inside the header *)

(** A read that starts at the logical cursor while the cursor is inside the
    header is served from the start of [head_buffer], not from the offset
    asked for: [bytes_consumed] is taken relative to the cursor. *)
Lemma header_read_at_cursor fuel sf d offset length :
  0 < offset < head_size d -> head_size d <= logical_size d ->
  head_size d < 2 ^ 62 -> logical_size d < 2 ^ 64 ->
  logical_offset d = offset ->
  0 < length <= head_size d ->
  opus_io_read fuel sf d offset length
  = Some (set_logical_offset (offset + length) d,
          memcpy_from (head_buffer d) 0 length, length).
Proof.
  intros Ho Hls Hh Hl Hcur Hlen.
  change (2 ^ 62) with 4611686018427387904 in Hh.
  change (2 ^ 64) with 18446744073709551616 in Hl.
  assert (Hoff : is_off_t offset)
    by (split; change (2 ^ 63) with 9223372036854775808; lia).
  unfold opus_io_read, opus_io_read_entry.
  replace (bad_read d offset) with false.
  2:{ symmetry. destruct (bad_read d offset) eqn:E; auto.
      apply bad_read_iff in E; auto. lia. }
  unfold restart_if_previous.
  replace (offset <? logical_offset d) with false
    by (symmetry; apply Z.ltb_ge; lia).
  unfold insert_fake_header. cbn [offset_ length_ dest total_read].
  rewrite Hcur, Z.sub_diag.
  rewrite !(off_t_as_size_t offset) by (auto; lia).
  replace (offset <? head_size d) with true by (symmetry; apply Z.ltb_lt; lia).
  change (to_size_t (to_off_t 0)) with 0. rewrite Z.sub_0_r.
  rewrite (to_size_t_small (head_size d))
    by lia.
  replace (head_size d >? length) with (negb (head_size d <=? length))
    by (rewrite Z.gtb_ltb, Z.leb_antisym, negb_involutive; reflexivity).
  assert (Hmin : (if negb (head_size d <=? length) then length else head_size d)
                 = length).
  { destruct (Z.leb_spec (head_size d) length); simpl; lia. }
  rewrite Hmin.
  rewrite (to_size_t_small (0 + length))
    by lia.
  rewrite !to_off_t_small by lia.
  rewrite Z.sub_diag. change (to_size_t 0) with 0.
  destruct fuel; cbn [read_blocks length_ dest total_read];
    change (0 >? 0) with false; cbv iota; reflexivity.
Qed.

(** C1 on the code.  On the two-packet UE4 stream (logical size 188, header
    128), reading [0, 10), [10, 20) and [20, 188) in sequence does not give
    the bytes of one read of [0, 188): the second read starts at the cursor
    and is served the first ten header bytes again. *)
Theorem split_read_inside_header_differs :
  let sf := Scenario.ue4_source in
  exists d whole pieces,
    Scenario.reframer 16 sf OPUS_UE4 = Some d
    /\ logical_size d = 188
    /\ option_map snd (sequential_reads 16 sf d [(0, 188)]) = Some whole
    /\ option_map snd (sequential_reads 16 sf d [(0, 10); (10, 10); (20, 168)])
       = Some pieces
    /\ pieces <> whole
    /\ firstn 10 (skipn 10 whole) = [0; 0; 0; 0; 103; 118; 0; 0; 0; 0]
    /\ firstn 10 (skipn 10 pieces) = [79; 103; 103; 83; 0; 2; 0; 0; 0; 0].
Proof.
  intros sf. eexists. eexists. eexists.
  split; [vm_compute; reflexivity|].
  split; [vm_compute; reflexivity|].
  split; [vm_compute; reflexivity|].
  split; [vm_compute; reflexivity|].
  split; [vm_compute; discriminate|].
  split; vm_compute; reflexivity.
Qed.

(** One read is enough: a read that starts inside the header and runs past
    its end leaves the cursor short of [head_size], and the audio pages are
    then served from the wrong offset. *)
Lemma read_from_inside_header_differs :
  let sf := Scenario.ue4_source in
  exists d whole part,
    Scenario.reframer 16 sf OPUS_UE4 = Some d
    /\ option_map snd (sequential_reads 16 sf d [(0, 188)]) = Some whole
    /\ option_map snd (sequential_reads 16 sf d [(28, 160)]) = Some part
    /\ firstn 100 part = firstn 100 (skipn 28 whole)
    /\ firstn 4 (skipn 128 whole) = [79; 103; 103; 83]
    /\ firstn 4 (skipn 100 part) = [4; 0; 79; 103].
Proof.
  intros sf. eexists. eexists. eexists.
  split; [vm_compute; reflexivity|].
  split; [vm_compute; reflexivity|].
  split; [vm_compute; reflexivity|].
  repeat split; vm_compute; reflexivity.
Qed.

(** Past the header the slip does not show: the same stream cut at any
    [head_size <= a <= logical_size] gives the bytes of the one read; cut
    inside the header, at any [0 < a < head_size], it does not. *)
Lemma cuts_past_header_agree :
  option_map (fun d => (head_size d, logical_size d,
                        cuts_agree 16 Scenario.ue4_source d 128 60,
                        existsb (fun a =>
                                   cuts_agree 16 Scenario.ue4_source d a 0)
                                (seq 1 127)))
             (Scenario.reframer 16 Scenario.ue4_source OPUS_UE4)
  = Some (128, 188, true, false).
Proof. vm_compute. reflexivity. Qed.

(** * Further properties *)

(** ** Opus packet inspector: values and bounds *)

Lemma samples_per_frame_in_frame_sizes buf pos :
  In (opus_packet_get_samples_per_frame buf pos 48000) frame_sizes_48k.
Proof.
  unfold opus_packet_get_samples_per_frame, frame_sizes_48k.
  destruct (negb (Z.land (peek buf pos) 128 =? 0)).
  - destruct (audiosize_cases (peek buf pos)) as [E|[E|[E|E]]]; rewrite E;
      vm_compute; tauto.
  - destruct (Z.land (peek buf pos) 96 =? 96).
    + destruct (negb (Z.land (peek buf pos) 8 =? 0)); vm_compute; tauto.
    + destruct (audiosize_cases (peek buf pos)) as [E|[E|[E|E]]]; rewrite E;
        vm_compute; tauto.
Qed.

Lemma packet_samples_product buf pos len :
  opus_get_packet_samples buf pos len
  = opus_packet_get_nb_frames buf pos len
    * opus_packet_get_samples_per_frame buf pos 48000.
Proof.
  unfold opus_get_packet_samples.
  pose proof (nb_frames_bound buf pos len) as Hf.
  pose proof (samples_per_frame_bound buf pos) as Hs.
  assert (0 <= opus_packet_get_nb_frames buf pos len
               * opus_packet_get_samples_per_frame buf pos 48000
          <= 63 * 2880) by nia.
  rewrite to_uint32_small by lia. apply to_size_t_small. lia.
Qed.

Lemma packet_samples_range buf pos len :
  0 <= opus_get_packet_samples buf pos len <= 181440
  /\ opus_get_packet_samples buf pos len mod 120 = 0.
Proof.
  rewrite packet_samples_product.
  pose proof (nb_frames_bound buf pos len) as Hf.
  pose proof (samples_per_frame_bound buf pos) as Hs.
  split; [nia|].
  pose proof (samples_per_frame_in_frame_sizes buf pos) as Hin.
  unfold frame_sizes_48k in Hin. simpl in Hin.
  set (frames := opus_packet_get_nb_frames buf pos len) in *.
  destruct Hin as [E|[E|[E|[E|[E|[E|[]]]]]]]; rewrite <- E.
  - replace (frames * 120) with (frames * 1 * 120) by lia. apply Z.mod_mul. lia.
  - replace (frames * 240) with (frames * 2 * 120) by lia. apply Z.mod_mul. lia.
  - replace (frames * 480) with (frames * 4 * 120) by lia. apply Z.mod_mul. lia.
  - replace (frames * 960) with (frames * 8 * 120) by lia. apply Z.mod_mul. lia.
  - replace (frames * 1920) with (frames * 16 * 120) by lia. apply Z.mod_mul. lia.
  - replace (frames * 2880) with (frames * 24 * 120) by lia. apply Z.mod_mul. lia.
Qed.

(** X1.  The samples counted for a packet are the frame count times a frame size:
    a multiple of 120, at most 63 * 2880 = 181440 (the inspector does not cap
    a packet at 120 ms), and 0 when the packet has no bytes. *)
Theorem packet_samples_bounds (buf : list Z) (pos len : Z) :
  0 <= opus_get_packet_samples buf pos len <= 181440
  /\ opus_get_packet_samples buf pos len mod 120 = 0
  /\ (len <= 0 -> opus_get_packet_samples buf pos len = 0).
Proof.
  destruct (packet_samples_range buf pos len) as [Hrange Hmultiple].
  split; [exact Hrange|]. split; [exact Hmultiple|].
  intros Hlen. rewrite packet_samples_product.
  unfold opus_packet_get_nb_frames.
  replace (len <? 1) with true by (symmetry; apply Z.ltb_lt; lia).
  reflexivity.
Qed.

Lemma nb_frames_two_bytes buf pos len len' :
  2 <= len -> 2 <= len' ->
  opus_packet_get_nb_frames buf pos len = opus_packet_get_nb_frames buf pos len'.
Proof.
  intros H H'. unfold opus_packet_get_nb_frames.
  replace (len <? 1) with false by (symmetry; apply Z.ltb_ge; lia).
  replace (len' <? 1) with false by (symmetry; apply Z.ltb_ge; lia).
  replace (len <? 2) with false by (symmetry; apply Z.ltb_ge; lia).
  replace (len' <? 2) with false by (symmetry; apply Z.ltb_ge; lia).
  reflexivity.
Qed.

(** X2.  Only the first two bytes of a packet count: with two bytes or more the
    length that is passed makes no difference, so the fixed length 4 that
    [custom_opus_get_samples] passes gives what the reader gets with the
    packet's own size. *)
Theorem packet_samples_need_two_bytes (buf : list Z) (pos len : Z) :
  2 <= len ->
  opus_get_packet_samples buf pos len = opus_get_packet_samples buf pos 0x04.
Proof.
  intros H. rewrite !packet_samples_product.
  now rewrite (nb_frames_two_bytes buf pos len 4) by lia.
Qed.

Lemma packet_samples_need_two_bytes_witness :
  2 <= 2
  /\ opus_get_packet_samples [0x0B; 0x05] 0 2
     = opus_get_packet_samples [0x0B; 0x05] 0 0x04.
Proof.
  split; [lia | apply (packet_samples_need_two_bytes [0x0B; 0x05] 0 2); lia].
Defined.

(** ** Copies into a buffer *)

Lemma memcpy_to_peek_out src : forall buf pos i,
  i < pos \/ pos + Z.of_nat (List.length src) <= i ->
  peek (memcpy_to buf pos src) i = peek buf i.
Proof.
  induction src as [|b rest IH]; intros buf pos i Hi; cbn [memcpy_to]; auto.
  cbn [List.length] in Hi. rewrite IH by lia.
  apply peek_put_8bit_other. lia.
Qed.

Lemma memcpy_to_peek_in src : forall buf pos k,
  0 <= pos -> (k < List.length src)%nat ->
  pos + Z.of_nat k < Z.of_nat (List.length buf) ->
  peek (memcpy_to buf pos src) (pos + Z.of_nat k) = to_uint8 (nth k src 0).
Proof.
  induction src as [|b rest IH]; intros buf pos k Hpos Hk Hlen;
    cbn [List.length] in Hk; [lia|].
  cbn [memcpy_to]. destruct k as [|k].
  - rewrite memcpy_to_peek_out by lia.
    rewrite Z.add_0_r. cbn [nth]. apply peek_put_8bit_same. lia.
  - replace (pos + Z.of_nat (S k)) with (pos + 1 + Z.of_nat k) by lia.
    cbn [nth]. apply IH; rewrite ?put_8bit_length; lia.
Qed.

Lemma source_range_length sf offset length :
  0 <= offset -> 0 <= length ->
  Z.of_nat (List.length (source_range sf offset length))
  = Z.max 0 (Z.min length (get_streamfile_size sf - offset)).
Proof.
  intros Ho Hl. unfold source_range, get_streamfile_size.
  replace (offset <? 0) with false by (symmetry; apply Z.ltb_ge; lia).
  cbn [orb]. destruct (Z.leb_spec (Z.of_nat (List.length sf)) offset).
  - cbn [List.length]. lia.
  - rewrite length_map, length_firstn, length_skipn. lia.
Qed.

Lemma to_uint8_idem z : to_uint8 (to_uint8 z) = to_uint8 z.
Proof. unfold to_uint8, wrap_unsigned. apply Z.mod_mod. lia. Qed.

Lemma source_range_nth sf offset length k :
  0 <= offset ->
  (k < List.length (source_range sf offset length))%nat ->
  to_uint8 (nth k (source_range sf offset length) 0)
  = source_byte sf (offset + Z.of_nat k).
Proof.
  intros Ho Hk. unfold source_range in *.
  destruct ((offset <? 0) || (get_streamfile_size sf <=? offset));
    [cbn [List.length] in Hk; lia|].
  rewrite length_map, length_firstn in Hk.
  set (l := firstn (Z.to_nat length) (skipn (Z.to_nat offset) sf)).
  replace (nth k (map to_uint8 l) 0) with (to_uint8 (nth k l 0))
    by (symmetry; apply (map_nth to_uint8 l 0 k)).
  rewrite to_uint8_idem. subst l.
  unfold source_byte, peek.
  replace (offset + Z.of_nat k <? 0) with false by (symmetry; apply Z.ltb_ge; lia).
  rewrite nth_firstn.
  replace (k <? Z.to_nat length)%nat with true
    by (symmetry; apply Nat.ltb_lt; lia).
  rewrite nth_skipn. f_equal. f_equal. lia.
Qed.

(** What [read_streamfile] stores where the source has the byte. *)
Lemma read_streamfile_peek buf pos offset length sf k :
  0 <= pos -> 0 <= offset -> 0 <= k < length ->
  offset + k < get_streamfile_size sf ->
  pos + k < Z.of_nat (List.length buf) ->
  peek (read_streamfile buf pos offset length sf) (pos + k)
  = source_byte sf (offset + k).
Proof.
  intros Hpos Ho Hk Hin Hbuf. unfold read_streamfile.
  pose proof (source_range_length sf offset length Ho ltac:(lia)) as Hlen.
  assert (Hk' : (Z.to_nat k < List.length (source_range sf offset length))%nat) by lia.
  replace k with (Z.of_nat (Z.to_nat k)) at 1 2 by lia.
  rewrite memcpy_to_peek_in by lia.
  now rewrite source_range_nth by (auto; lia).
Qed.

(** ** Ogg page builder: the finished page *)

Lemma to_uint32_range z : 0 <= to_uint32 z < 2 ^ 32.
Proof. unfold to_uint32, wrap_unsigned. apply Z.mod_pos_bound. lia. Qed.

Lemma be32_recompose v :
  2 ^ 24 * to_uint8 (Z.shiftr v 24) + 2 ^ 16 * to_uint8 (Z.shiftr v 16)
  + 2 ^ 8 * to_uint8 (Z.shiftr v 8) + to_uint8 v
  = to_uint32 v.
Proof. rewrite <- le32_recompose. lia. Qed.

Lemma get_32bitBE_put_32bitBE buf pos v :
  0 <= pos -> pos + 3 < Z.of_nat (List.length buf) ->
  get_32bitBE (put_32bitBE buf pos v) pos = to_uint32 v.
Proof.
  intros H0 H3. rewrite <- be32_recompose. unfold get_32bitBE, put_32bitBE.
  rewrite (peek_put_8bit_other _ (pos + 3) pos) by lia.
  rewrite (peek_put_8bit_other _ (pos + 2) pos) by lia.
  rewrite (peek_put_8bit_other _ (pos + 1) pos) by lia.
  rewrite (peek_put_8bit_same _ pos) by lia.
  rewrite (peek_put_8bit_other _ (pos + 3) (pos + 1)) by lia.
  rewrite (peek_put_8bit_other _ (pos + 2) (pos + 1)) by lia.
  rewrite (peek_put_8bit_same _ (pos + 1)) by (rewrite ?put_8bit_length; lia).
  rewrite (peek_put_8bit_other _ (pos + 3) (pos + 2)) by lia.
  rewrite (peek_put_8bit_same _ (pos + 2)) by (rewrite ?put_8bit_length; lia).
  rewrite (peek_put_8bit_same _ (pos + 3)) by (rewrite ?put_8bit_length; lia).
  reflexivity.
Qed.

Lemma get_32bitBE_ext buf buf' pos :
  (forall i, pos <= i <= pos + 3 -> peek buf i = peek buf' i) ->
  get_32bitBE buf pos = get_32bitBE buf' pos.
Proof.
  intros H. unfold get_32bitBE. rewrite !H by lia. reflexivity.
Qed.

Lemma oggs_header_laid_length buf pos data_size page_sequence granule :
  List.length (oggs_header_laid buf pos data_size page_sequence granule)
  = List.length buf.
Proof.
  unfold oggs_header_laid. cbv zeta.
  now rewrite !put_8bit_length, !put_32bitLE_length, !put_8bit_length,
    put_32bitBE_length.
Qed.

Lemma oggs_header_laid_outside buf pos data_size page_sequence granule i :
  i < pos \/ pos + 27 <= i ->
  peek (oggs_header_laid buf pos data_size page_sequence granule) i = peek buf i.
Proof.
  intros Hi. unfold oggs_header_laid. cbv zeta.
  rewrite peek_put_8bit_other by lia.
  rewrite !peek_put_32bitLE_other by lia.
  rewrite !peek_put_8bit_other by lia.
  apply peek_put_32bitBE_other. lia.
Qed.

Lemma lacing_loop_page_done_mono fuel : forall buf pos page_done lacing_done data_size,
  0 <= page_done -> page_done + 2 * Z.of_nat fuel < 2 ^ 64 ->
  page_done
  <= snd (fst (lacing_loop fuel buf pos page_done lacing_done data_size))
  <= page_done + 2 * Z.of_nat fuel.
Proof.
  induction fuel as [|fuel IH]; intros buf pos pd ld ds Hpd Hfuel;
    cbn [lacing_loop]; destruct (ld <? ds); cbn [fst snd]; try lia.
  assert (E1 : to_size_t (pd + 1) = pd + 1) by (apply to_size_t_small; lia).
  assert (E2 : to_size_t (pd + 1 + 1) = pd + 2)
    by (rewrite to_size_t_small; lia).
  cbv zeta. rewrite E1, E2.
  match goal with |- context [if ?c then _ else _] => destruct c end.
  - match goal with |- context [lacing_loop fuel ?b pos (pd + 2) ?l ds] =>
      pose proof (IH b pos (pd + 2) l ds ltac:(lia) ltac:(lia)) end. lia.
  - match goal with |- context [lacing_loop fuel ?b pos (pd + 1) ?l ds] =>
      pose proof (IH b pos (pd + 1) l ds ltac:(lia) ltac:(lia)) end. lia.
Qed.

(** The segment table loop stores nothing at or past the point it ends at. *)
Lemma lacing_loop_peek_above fuel : forall buf pos page_done lacing_done data_size i,
  0 <= page_done -> page_done + 2 * Z.of_nat fuel < 2 ^ 64 ->
  pos + snd (fst (lacing_loop fuel buf pos page_done lacing_done data_size)) <= i ->
  peek (fst (fst (lacing_loop fuel buf pos page_done lacing_done data_size))) i
  = peek buf i.
Proof.
  induction fuel as [|fuel IH]; intros buf pos pd ld ds i Hpd Hfuel;
    cbn [lacing_loop]; destruct (ld <? ds); cbn [fst snd]; try reflexivity.
  assert (E1 : to_size_t (pd + 1) = pd + 1) by (apply to_size_t_small; lia).
  assert (E2 : to_size_t (pd + 1 + 1) = pd + 2)
    by (rewrite to_size_t_small; lia).
  cbv zeta. rewrite E1, E2.
  match goal with |- context [if ?c then _ else _] => destruct c end.
  - match goal with |- context [lacing_loop fuel ?b pos (pd + 2) ?l ds] =>
      pose proof (lacing_loop_page_done_mono fuel b pos (pd + 2) l ds
                    ltac:(lia) ltac:(lia)) end.
    intros Hi. rewrite IH by lia. rewrite !peek_put_8bit_other by lia.
    reflexivity.
  - match goal with |- context [lacing_loop fuel ?b pos (pd + 1) ?l ds] =>
      pose proof (lacing_loop_page_done_mono fuel b pos (pd + 1) l ds
                    ltac:(lia) ltac:(lia)) end.
    intros Hi. rewrite IH by lia. rewrite !peek_put_8bit_other by lia.
    reflexivity.
Qed.

Lemma to_uint8_small_value z : 0 <= z < 256 -> to_uint8 z = z.
Proof. intros H. unfold to_uint8, wrap_unsigned. apply Z.mod_small. lia. Qed.

(** The values the segment table loop stores: 255 for every full segment,
    then the rest, which is 0 when the payload is a multiple of 255. *)
Lemma lacing_loop_values fuel : forall buf pos page_done lacing_done data_size,
  0 <= pos -> 0 <= page_done -> page_done + 2 * Z.of_nat fuel < 2 ^ 64 ->
  0 <= lacing_done < data_size -> data_size < 2 ^ 31 ->
  (data_size - lacing_done + 254) / 255 <= Z.of_nat fuel ->
  pos + page_done + (data_size - lacing_done) / 255 < Z.of_nat (List.length buf) ->
  let table := fst (fst (lacing_loop fuel buf pos page_done lacing_done data_size)) in
  (forall k, 0 <= k < (data_size - lacing_done) / 255 ->
             peek table (pos + page_done + k) = 255)
  /\ peek table (pos + page_done + (data_size - lacing_done) / 255)
     = (data_size - lacing_done) mod 255.
Proof.
  induction fuel as [|fuel IH];
    intros buf pos pd ld ds Hpos Hpd Hfuel Hld Hds Hturns Hlen.
  - exfalso.
    assert (1 <= (ds - ld + 254) / 255).
    { replace (ds - ld + 254) with (ds - ld - 1 + 1 * 255) by lia.
      rewrite Z.div_add by lia.
      assert (0 <= (ds - ld - 1) / 255) by (apply Z.div_pos; lia). lia. }
    simpl in Hturns. lia.
  - cbn [lacing_loop].
    replace (ld <? ds) with true by (symmetry; apply Z.ltb_lt; lia).
    assert (Eb : to_int (to_size_t (ds - ld)) = ds - ld).
    { rewrite to_size_t_small by lia. apply to_int_small. lia. }
    assert (E1 : to_size_t (pd + 1) = pd + 1) by (apply to_size_t_small; lia).
    assert (E2 : to_size_t (pd + 1 + 1) = pd + 2)
      by (rewrite to_size_t_small; lia).
    cbv zeta. rewrite Eb, E1, E2.
    destruct (Z.gtb_spec (ds - ld) 255) as [Hbig|Hsmall].
    + (* a full segment, more to come *)
      rewrite (to_size_t_small (ld + 255)) by lia.
      destruct (Z.eqb_spec (ld + 255) ds) as [E|_]; [lia|].
      cbn [andb].
      assert (Hq : (ds - ld) / 255 = (ds - (ld + 255)) / 255 + 1).
      { replace (ds - ld) with (ds - (ld + 255) + 1 * 255) by lia.
        rewrite Z.div_add by lia. reflexivity. }
      assert (Hq' : (ds - ld + 254) / 255 = (ds - (ld + 255) + 254) / 255 + 1).
      { replace (ds - ld + 254) with (ds - (ld + 255) + 254 + 1 * 255) by lia.
        rewrite Z.div_add by lia. reflexivity. }
      assert (Hm : (ds - ld) mod 255 = (ds - (ld + 255)) mod 255).
      { replace (ds - ld) with (ds - (ld + 255) + 1 * 255) by lia.
        apply Z.mod_add. lia. }
      assert (0 <= (ds - (ld + 255)) / 255) by (apply Z.div_pos; lia).
      destruct (IH (put_8bit buf (pos + pd) 255) pos (pd + 1) (ld + 255) ds)
        as [Hfull Hlast]; try lia.
      { rewrite put_8bit_length. lia. }
      split.
      * intros k Hk. destruct (Z.eq_dec k 0) as [->|Hk0].
        -- rewrite Z.add_0_r, lacing_loop_peek_below by lia.
           rewrite peek_put_8bit_same by lia. reflexivity.
        -- replace (pos + pd + k) with (pos + (pd + 1) + (k - 1)) by lia.
           apply Hfull. lia.
      * rewrite Hq, Hm.
        replace (pos + pd + ((ds - (ld + 255)) / 255 + 1))
          with (pos + (pd + 1) + (ds - (ld + 255)) / 255) by lia.
        exact Hlast.
    + replace (ld + (ds - ld)) with ds by lia.
      rewrite (to_size_t_small ds) by lia. rewrite Z.eqb_refl. cbn [andb].
      destruct (Z.eqb_spec (ds - ld) 255) as [E255|N255].
      * (* the last segment is full: a closing 0 follows *)
        rewrite E255 in *. change (255 / 255) with 1 in *.
        change (255 mod 255) with 0.
        split.
        -- intros k Hk. assert (k = 0) by lia. subst k.
           rewrite Z.add_0_r, lacing_loop_peek_below by lia.
           rewrite peek_put_8bit_other by lia.
           rewrite peek_put_8bit_same by lia. reflexivity.
        -- rewrite lacing_loop_peek_below by lia.
           replace (pos + (pd + 1)) with (pos + pd + 1) by lia.
           rewrite peek_put_8bit_same by (rewrite put_8bit_length; lia).
           reflexivity.
      * rewrite (Z.div_small (ds - ld) 255) in * by lia.
        rewrite (Z.mod_small (ds - ld) 255) by lia.
        split; [intros k Hk; lia|].
        rewrite Z.add_0_r, lacing_loop_peek_below by lia.
        rewrite peek_put_8bit_same by lia.
        apply to_uint8_small_value. lia.
Qed.

(** A page that fits, as the stores that build it. *)
Lemma make_oggs_page_built buf pos buf_size data_size page_sequence granule :
  page_fits buf_size data_size ->
  let table := oggs_table_laid buf pos data_size page_sequence granule in
  let size := 27 + lacing_count data_size + data_size in
  make_oggs_page buf pos buf_size data_size page_sequence granule
  = (put_32bitLE table (pos + 0x16) (to_int (get_oggs_checksum table pos size)),
     size).
Proof.
  intros Hfit table size. subst table size.
  unfold make_oggs_page, oggs_table_laid, oggs_header_laid.
  rewrite (page_fits_check _ _ Hfit). cbv zeta.
  destruct (page_fits_turns _ _ Hfit) as (Hturns & Hroom & Hds).
  match goal with |- context [lacing_loop ?f ?b ?p ?pd ?ld ?ds] =>
    destruct (lacing_loop_complete f b p pd ld ds) as [Hp _]; try lia;
    [destruct Hfit; lia|];
    destruct (lacing_loop f b p pd ld ds) as [[b' pd'] ld'] eqn:EL
  end.
  cbn [fst snd] in *. subst pd'. rewrite Z.sub_0_r.
  destruct Hfit as (Hd & Hb & Hfit).
  assert (0 <= lacing_count data_size <= data_size / 255 + 1).
  { unfold lacing_count. assert (0 <= data_size / 255) by (apply Z.div_pos; lia).
    destruct (data_size =? 0); lia. }
  rewrite (to_size_t_small (27 + lacing_count data_size + data_size)) by lia.
  rewrite (to_int_small (27 + lacing_count data_size + data_size)) by lia.
  reflexivity.
Qed.

Lemma oggs_table_laid_length buf pos data_size page_sequence granule :
  List.length (oggs_table_laid buf pos data_size page_sequence granule)
  = List.length buf.
Proof.
  unfold oggs_table_laid. now rewrite lacing_loop_length, oggs_header_laid_length.
Qed.

Lemma oggs_table_laid_end buf pos buf_size data_size page_sequence granule :
  page_fits buf_size data_size ->
  snd (fst (lacing_loop (Z.to_nat (data_size / 0xFF + 1))
              (oggs_header_laid buf pos data_size page_sequence granule)
              pos 0x1B 0 data_size))
  = 27 + lacing_count data_size.
Proof.
  intros Hfit. destruct (page_fits_turns _ _ Hfit) as (Hturns & Hroom & Hds).
  match goal with |- context [lacing_loop ?f ?b ?p ?pd ?ld ?ds] =>
    destruct (lacing_loop_complete f b p pd ld ds) as [Hp _]; try lia;
    [destruct Hfit; lia|] end.
  rewrite Hp, Z.sub_0_r. reflexivity.
Qed.

(** Below the segment table the finished table state is the header. *)
Lemma oggs_table_laid_header buf pos buf_size data_size page_sequence granule i :
  page_fits buf_size data_size -> i < pos + 27 ->
  peek (oggs_table_laid buf pos data_size page_sequence granule) i
  = peek (oggs_header_laid buf pos data_size page_sequence granule) i.
Proof.
  intros Hfit Hi. destruct (page_fits_turns _ _ Hfit) as (Hturns & Hroom & Hds).
  unfold oggs_table_laid. apply lacing_loop_peek_below; lia.
Qed.

(** At and past the end of the segment table it is the caller's buffer. *)
Lemma oggs_table_laid_payload buf pos buf_size data_size page_sequence granule i :
  page_fits buf_size data_size -> pos + 27 + lacing_count data_size <= i ->
  peek (oggs_table_laid buf pos data_size page_sequence granule) i = peek buf i.
Proof.
  intros Hfit Hi. destruct (page_fits_turns _ _ Hfit) as (Hturns & Hroom & Hds).
  unfold oggs_table_laid.
  rewrite lacing_loop_peek_above;
    try rewrite (oggs_table_laid_end buf pos buf_size) by assumption; try lia.
  apply oggs_header_laid_outside.
  assert (0 <= lacing_count data_size).
  { unfold lacing_count. destruct Hfit as (Hd & _).
    assert (0 <= data_size / 255) by (apply Z.div_pos; lia).
    destruct (data_size =? 0); lia. }
  lia.
Qed.

Lemma get_32bitLE_put_8bit_other buf q v pos :
  q < pos \/ pos + 3 < q ->
  get_32bitLE (put_8bit buf q v) pos = get_32bitLE buf pos.
Proof.
  intros H. apply get_32bitLE_ext. intros i Hi.
  apply peek_put_8bit_other. lia.
Qed.

Lemma get_32bitLE_put_32bitLE_other buf q v pos :
  q + 3 < pos \/ pos + 3 < q ->
  get_32bitLE (put_32bitLE buf q v) pos = get_32bitLE buf pos.
Proof.
  intros H. apply get_32bitLE_ext. intros i Hi.
  apply peek_put_32bitLE_other. lia.
Qed.

Lemma get_32bitBE_put_8bit_other buf q v pos :
  q < pos \/ pos + 3 < q ->
  get_32bitBE (put_8bit buf q v) pos = get_32bitBE buf pos.
Proof.
  intros H. apply get_32bitBE_ext. intros i Hi.
  apply peek_put_8bit_other. lia.
Qed.

Lemma get_32bitBE_put_32bitLE_other buf q v pos :
  q + 3 < pos \/ pos + 3 < q ->
  get_32bitBE (put_32bitLE buf q v) pos = get_32bitBE buf pos.
Proof.
  intros H. apply get_32bitBE_ext. intros i Hi.
  apply peek_put_32bitLE_other. lia.
Qed.

(** Skips the stores that do not reach the bytes looked at. *)
Ltac skip_stores :=
  repeat first
    [ rewrite peek_put_8bit_other by lia
    | rewrite peek_put_32bitLE_other by lia
    | rewrite peek_put_32bitBE_other by lia
    | rewrite get_32bitLE_put_8bit_other by lia
    | rewrite get_32bitLE_put_32bitLE_other by lia
    | rewrite get_32bitBE_put_8bit_other by lia
    | rewrite get_32bitBE_put_32bitLE_other by lia ].

Ltac store_lengths :=
  repeat first
    [ rewrite put_8bit_length
    | rewrite put_32bitLE_length
    | rewrite put_32bitBE_length ].

(** The finished page below its segment table, the checksum field apart. *)
Lemma make_oggs_page_peek_header buf pos buf_size data_size page_sequence granule i :
  page_fits buf_size data_size ->
  i < pos + 22 \/ pos + 26 <= i < pos + 27 ->
  peek (fst (make_oggs_page buf pos buf_size data_size page_sequence granule)) i
  = peek (oggs_header_laid buf pos data_size page_sequence granule) i.
Proof.
  intros Hfit Hi. rewrite (make_oggs_page_built _ _ _ _ _ _ Hfit). cbn [fst].
  rewrite peek_put_32bitLE_other by lia.
  apply (oggs_table_laid_header buf pos buf_size); [assumption | lia].
Qed.

Lemma make_oggs_page_length buf pos buf_size data_size page_sequence granule :
  List.length (fst (make_oggs_page buf pos buf_size data_size page_sequence granule))
  = List.length buf.
Proof.
  unfold make_oggs_page. cbv zeta.
  destruct (_ >? _); [reflexivity|].
  match goal with |- context [lacing_loop ?f ?b ?p ?pd ?ld ?ds] =>
    pose proof (lacing_loop_length f b p pd ld ds) as Hl;
    destruct (lacing_loop f b p pd ld ds) as [[b' pd'] ld'] end.
  cbn [fst] in *. rewrite put_32bitLE_length, Hl.
  store_lengths. reflexivity.
Qed.

(** X3.  [make_oggs_page] either refuses, returning 0 with the buffer as it
    was, or builds a page of 27 bytes, the lacing values and the payload;
    which one is decided by the capacity [buf_size] alone.  For a payload
    that is not empty the size is the [0x1b + (data_size / 0xFF + 1) +
    data_size] that the callers reserve. *)
Theorem make_oggs_page_builds_or_refuses (buf : list Z)
    (pos buf_size data_size page_sequence granule : Z) :
  0 <= data_size < 2 ^ 62 -> 0 <= buf_size < 2 ^ 31 ->
  let needed := 27 + (data_size / 255 + 1) + data_size in
  let result := make_oggs_page buf pos buf_size data_size page_sequence granule in
  (buf_size < needed -> result = (buf, 0))
  /\ (needed <= buf_size ->
      snd result = 27 + lacing_count data_size + data_size
      /\ 27 <= snd result <= needed
      /\ (0 < data_size -> snd result = needed)
      /\ List.length (fst result) = List.length buf).
Proof.
  intros Hd Hb needed result. subst needed result.
  assert (Hq : 0 <= data_size / 255 <= data_size).
  { split; [apply Z.div_pos; lia|]. apply Z.div_le_upper_bound; lia. }
  split.
  - intros Hsmall. unfold make_oggs_page. cbv zeta.
    rewrite !to_size_t_small by lia.
    replace (27 + (data_size / 255 + 1) + data_size >? buf_size) with true
      by (symmetry; apply Z.gtb_lt; lia).
    reflexivity.
  - intros Hroom.
    assert (Hfit : page_fits buf_size data_size) by (repeat split; lia).
    rewrite (make_oggs_page_returns _ _ _ _ _ _ Hfit).
    rewrite make_oggs_page_length.
    unfold lacing_count.
    destruct (Z.eqb_spec data_size 0) as [->|Hne]; repeat split; lia.
Qed.

Lemma make_oggs_page_builds_or_refuses_witness :
  (0 <= 255 < 2 ^ 62 /\ 0 <= 284 < 2 ^ 31)
  /\ snd (make_oggs_page (repeat 0 300) 0 284 255 2 0) = 284
  /\ make_oggs_page (repeat 0 300) 0 283 255 2 0 = (repeat 0 300, 0).
Proof.
  assert (Hd : 0 <= 255 < 2 ^ 62) by lia.
  assert (Hb : 0 <= 284 < 2 ^ 31) by lia.
  assert (Hb' : 0 <= 283 < 2 ^ 31) by lia.
  split; [split; assumption|]. split.
  - destruct (make_oggs_page_builds_or_refuses (repeat 0 300) 0 284 255 2 0 Hd Hb)
      as [_ Hbuilt].
    destruct (Hbuilt ltac:(vm_compute; discriminate)) as (_ & _ & Hsize & _).
    rewrite Hsize by lia. reflexivity.
  - destruct (make_oggs_page_builds_or_refuses (repeat 0 300) 0 283 255 2 0 Hd Hb')
      as [Hrefused _].
    apply Hrefused. vm_compute. reflexivity.
Defined.

Lemma make_oggs_page_get_32bitLE_header buf pos buf_size data_size page_sequence granule q :
  page_fits buf_size data_size ->
  q + 3 < pos + 22 ->
  get_32bitLE (fst (make_oggs_page buf pos buf_size data_size page_sequence granule)) q
  = get_32bitLE (oggs_header_laid buf pos data_size page_sequence granule) q.
Proof.
  intros Hfit Hq. apply get_32bitLE_ext. intros i Hi.
  apply (make_oggs_page_peek_header _ _ _ _ _ _ _ Hfit). lia.
Qed.

(** The fields of the header that [make_oggs_page] lays before its segment
    table. *)
Lemma oggs_header_laid_fields buf pos data_size page_sequence granule :
  0 <= pos -> pos + 27 <= Z.of_nat (List.length buf) ->
  0 <= data_size / 255 < 2 ^ 31 - 1 ->
  let laid := oggs_header_laid buf pos data_size page_sequence granule in
  get_32bitBE laid pos = 0x4F676753
  /\ peek laid (pos + 4) = 0
  /\ peek laid (pos + 5) = (if page_sequence =? 0 then 2 else 0)
  /\ get_64bitLE laid (pos + 6) = to_uint64 granule
  /\ get_32bitLE laid (pos + 14) = 0x7667
  /\ get_32bitLE laid (pos + 18) = to_uint32 page_sequence
  /\ peek laid (pos + 26) = to_uint8 (data_size / 255 + 1).
Proof.
  intros Hpos Hlen Hq laid. subst laid.
  assert (Hlow : get_32bitLE (oggs_header_laid buf pos data_size page_sequence granule)
                   (pos + 6)
                 = to_uint32 (to_uint32 (Z.land (Z.shiftr (to_uint64 granule) 0)
                                                0xFFFFFFFF))).
  { unfold oggs_header_laid. cbv zeta. skip_stores.
    apply get_32bitLE_put_32bitLE; store_lengths; lia. }
  assert (Hhigh : get_32bitLE (oggs_header_laid buf pos data_size page_sequence granule)
                    (pos + 10)
                  = to_uint32 (to_uint32 (Z.land (Z.shiftr (to_uint64 granule) 32)
                                                 0xFFFFFFFF))).
  { unfold oggs_header_laid. cbv zeta. skip_stores.
    apply get_32bitLE_put_32bitLE; store_lengths; lia. }
  repeat split.
  - unfold oggs_header_laid. cbv zeta. skip_stores.
    replace (pos + 0) with pos by lia.
    rewrite get_32bitBE_put_32bitBE by lia. reflexivity.
  - unfold oggs_header_laid. cbv zeta. skip_stores.
    rewrite peek_put_8bit_same by (store_lengths; lia). reflexivity.
  - unfold oggs_header_laid. cbv zeta. skip_stores.
    rewrite peek_put_8bit_same by (store_lengths; lia).
    destruct (page_sequence =? 0); reflexivity.
  - unfold get_64bitLE. replace (pos + 6 + 4) with (pos + 10) by lia.
    rewrite Hlow, Hhigh. apply granule_halves. apply to_uint64_range.
  - unfold oggs_header_laid. cbv zeta. skip_stores.
    rewrite get_32bitLE_put_32bitLE by (store_lengths; lia). reflexivity.
  - unfold oggs_header_laid. cbv zeta. skip_stores.
    rewrite get_32bitLE_put_32bitLE by (store_lengths; lia). reflexivity.
  - unfold oggs_header_laid. cbv zeta.
    rewrite peek_put_8bit_same by (store_lengths; lia).
    rewrite to_size_t_small by lia. rewrite to_int_small by lia. reflexivity.
Qed.

Lemma page_fits_lacing_small buf_size data_size :
  page_fits buf_size data_size -> 0 <= data_size / 255 < 2 ^ 31 - 1.
Proof.
  intros (Hd & Hb & Hroom).
  assert (0 <= data_size / 255) by (apply Z.div_pos; lia). lia.
Qed.

(** X4.  The header of every page [make_oggs_page] builds: the capture
    pattern, version 0, the first-page flag on sequence 0 only, the granule
    as a 64-bit little-endian value, the serial 0x7667, the sequence number
    and the segment count, each at its offset of the Ogg page layout. *)
Theorem make_oggs_page_header_fields (buf : list Z)
    (pos buf_size data_size page_sequence granule : Z) :
  page_fits buf_size data_size ->
  0 <= pos -> pos + 27 <= Z.of_nat (List.length buf) ->
  let page :=
    fst (make_oggs_page buf pos buf_size data_size page_sequence granule) in
  get_32bitBE page pos = 0x4F676753
  /\ peek page (pos + 4) = 0
  /\ peek page (pos + 5) = (if page_sequence =? 0 then 2 else 0)
  /\ get_64bitLE page (pos + 6) = to_uint64 granule
  /\ get_32bitLE page (pos + 14) = 0x7667
  /\ get_32bitLE page (pos + 18) = to_uint32 page_sequence
  /\ peek page (pos + 26) = to_uint8 (data_size / 255 + 1).
Proof.
  intros Hfit Hpos Hlen page. subst page.
  destruct (oggs_header_laid_fields buf pos data_size page_sequence granule
              Hpos Hlen (page_fits_lacing_small _ _ Hfit))
    as (Hcapture & Hversion & Hflag & Hgranule & Hserial & Hsequence & Hcount).
  unfold get_64bitLE in *.
  rewrite (get_32bitBE_ext _ (oggs_header_laid buf pos data_size page_sequence granule))
    by (intros i Hi; apply (make_oggs_page_peek_header _ _ _ _ _ _ _ Hfit); lia).
  rewrite !(make_oggs_page_get_32bitLE_header _ _ _ _ _ _ _ Hfit) by lia.
  rewrite !(make_oggs_page_peek_header _ _ _ _ _ _ _ Hfit) by lia.
  repeat split; assumption.
Qed.

Lemma make_oggs_page_header_fields_witness :
  page_fits 284 255
  /\ get_32bitLE (fst (make_oggs_page (repeat 0 300) 4 284 255 7 960)) 22 = 7.
Proof.
  assert (Hfit : page_fits 284 255) by (unfold page_fits; repeat split; vm_compute; congruence).
  split; [exact Hfit|].
  destruct (make_oggs_page_header_fields (repeat 0 300) 4 284 255 7 960 Hfit
              ltac:(lia) ltac:(vm_compute; discriminate))
    as (_ & _ & _ & _ & _ & Hseq & _).
  exact Hseq.
Defined.

Lemma bytes_at_ext buf buf' pos n :
  (forall i, pos <= i < pos + Z.of_nat n -> peek buf i = peek buf' i) ->
  bytes_at buf pos n = bytes_at buf' pos n.
Proof.
  intros H. unfold bytes_at. apply map_ext_in. intros k Hk.
  apply in_seq in Hk. apply H. lia.
Qed.

Lemma map_seq_constant (f : nat -> Z) (v : Z) (n : nat) : forall s,
  (forall i, (s <= i < s + n)%nat -> f i = v) ->
  map f (seq s n) = repeat v n.
Proof.
  induction n as [|n IH]; intros s Hf; [reflexivity|].
  cbn [seq map repeat]. rewrite (Hf s) by lia. f_equal.
  apply IH. intros i Hi. apply Hf. lia.
Qed.

Lemma sum_repeat_255 (q : nat) (r : Z) :
  fold_right Z.add r (repeat 255 q) = 255 * Z.of_nat q + r.
Proof.
  induction q as [|q IH]; [cbn; lia|].
  cbn [repeat fold_right]. rewrite IH. lia.
Qed.

Lemma sum_lacing_values n :
  0 <= n -> fold_right Z.add 0 (lacing_values n) = n.
Proof.
  intros Hn. unfold lacing_values. rewrite fold_right_app. cbn [fold_right].
  rewrite sum_repeat_255.
  rewrite Z2Nat.id by (apply Z.div_pos; lia).
  pose proof (Z.div_mod n 255 ltac:(lia)). lia.
Qed.

(** The segment table as the loop of [make_oggs_page] leaves it. *)
Lemma oggs_table_laid_values buf pos buf_size data_size page_sequence granule :
  page_fits buf_size data_size -> 0 < data_size ->
  0 <= pos -> pos + 27 + data_size / 255 < Z.of_nat (List.length buf) ->
  bytes_at (oggs_table_laid buf pos data_size page_sequence granule) (pos + 27)
           (Z.to_nat (data_size / 255 + 1))
  = lacing_values data_size.
Proof.
  intros Hfit Hds Hpos Hlen.
  destruct (page_fits_turns _ _ Hfit) as (Hturns & Hroom & Hsmall).
  assert (Hq : 0 <= data_size / 255) by (apply Z.div_pos; lia).
  pose proof (lacing_loop_values (Z.to_nat (data_size / 255 + 1))
                (oggs_header_laid buf pos data_size page_sequence granule)
                pos 27 0 data_size Hpos ltac:(lia) Hroom ltac:(lia) Hsmall
                Hturns) as Hvalues.
  rewrite oggs_header_laid_length in Hvalues.
  replace (data_size - 0) with data_size in Hvalues by lia.
  specialize (Hvalues Hlen). cbv zeta in Hvalues.
  destruct Hvalues as [Hfull Hlast].
  fold (oggs_table_laid buf pos data_size page_sequence granule) in Hfull, Hlast.
  unfold bytes_at, lacing_values.
  replace (Z.to_nat (data_size / 255 + 1)) with (Z.to_nat (data_size / 255) + 1)%nat
    by lia.
  rewrite seq_app, map_app. cbn [seq map Nat.add]. f_equal.
  - apply map_seq_constant. intros i Hi. apply Hfull. lia.
  - f_equal. rewrite Z2Nat.id by lia. exact Hlast.
Qed.

(** X5.  The segment table of a page with a payload of [data_size > 0]
    bytes: [data_size / 255] lacing values of 255 and then the remainder
    [data_size mod 255] (0 for a multiple of 255), [data_size / 255 + 1]
    values in all, which add up to the payload size. *)
Theorem make_oggs_page_segment_table (buf : list Z)
    (pos buf_size data_size page_sequence granule : Z) :
  page_fits buf_size data_size -> 0 < data_size ->
  0 <= pos -> pos + 27 + data_size / 255 < Z.of_nat (List.length buf) ->
  let page :=
    fst (make_oggs_page buf pos buf_size data_size page_sequence granule) in
  let table := bytes_at page (pos + 27) (Z.to_nat (data_size / 255 + 1)) in
  table = lacing_values data_size
  /\ fold_right Z.add 0 table = data_size.
Proof.
  intros Hfit Hds Hpos Hlen page table.
  assert (Htable : table = lacing_values data_size).
  { subst table page.
    rewrite <- (oggs_table_laid_values buf pos buf_size data_size page_sequence
                  granule Hfit Hds Hpos Hlen).
    apply bytes_at_ext. intros i Hi.
    rewrite (make_oggs_page_built _ _ _ _ _ _ Hfit). cbn [fst].
    apply peek_put_32bitLE_other. lia. }
  split; [exact Htable|].
  rewrite Htable. apply sum_lacing_values. lia.
Qed.

Lemma make_oggs_page_segment_table_witness :
  page_fits 540 510
  /\ bytes_at (fst (make_oggs_page (repeat 0 600) 0 540 510 2 0)) 27 3 = [255; 255; 0].
Proof.
  assert (Hfit : page_fits 540 510) by (unfold page_fits; repeat split; vm_compute; congruence).
  split; [exact Hfit|].
  destruct (make_oggs_page_segment_table (repeat 0 600) 0 540 510 2 0 Hfit
              ltac:(lia) ltac:(lia) ltac:(vm_compute; reflexivity))
    as [Htable _].
  exact Htable.
Defined.

Lemma make_oggs_page_outside buf pos buf_size data_size page_sequence granule i :
  page_fits buf_size data_size ->
  i < pos \/ pos + 27 + lacing_count data_size <= i ->
  peek (fst (make_oggs_page buf pos buf_size data_size page_sequence granule)) i
  = peek buf i.
Proof.
  intros Hfit Hi.
  assert (Hcount : 0 <= lacing_count data_size).
  { destruct Hfit as (Hd & _).
    assert (0 <= data_size / 255) by (apply Z.div_pos; lia).
    unfold lacing_count. destruct (data_size =? 0); lia. }
  rewrite (make_oggs_page_built _ _ _ _ _ _ Hfit). cbn [fst].
  rewrite peek_put_32bitLE_other by lia.
  destruct Hi as [Hi|Hi].
  - rewrite (oggs_table_laid_header _ _ _ _ _ _ _ Hfit) by lia.
    apply oggs_header_laid_outside. lia.
  - apply (oggs_table_laid_payload _ _ _ _ _ _ _ Hfit). lia.
Qed.

(** X6.  [make_oggs_page] writes its header and segment table and nothing
    else: every byte before [pos] and every byte from the end of the segment
    table on, the payload the caller has put there among them, is left as it
    was, whether the page is built or refused. *)
Theorem make_oggs_page_keeps_payload (buf : list Z)
    (pos buf_size data_size page_sequence granule i : Z) :
  0 <= data_size < 2 ^ 62 -> 0 <= buf_size < 2 ^ 31 ->
  i < pos \/ pos + 27 + lacing_count data_size <= i ->
  peek (fst (make_oggs_page buf pos buf_size data_size page_sequence granule)) i
  = peek buf i.
Proof.
  intros Hd Hb Hi.
  assert (Hq : 0 <= data_size / 255 <= data_size).
  { split; [apply Z.div_pos; lia|]. apply Z.div_le_upper_bound; lia. }
  destruct (Z_le_gt_dec (27 + (data_size / 255 + 1) + data_size) buf_size)
    as [Hroom|Hsmall].
  - apply make_oggs_page_outside; [repeat split; lia | exact Hi].
  - unfold make_oggs_page. cbv zeta.
    rewrite !to_size_t_small by lia.
    replace (27 + (data_size / 255 + 1) + data_size >? buf_size) with true
      by (symmetry; apply Z.gtb_lt; lia).
    reflexivity.
Qed.

Lemma make_oggs_page_keeps_payload_witness :
  (0 <= 255 < 2 ^ 62 /\ 0 <= 284 < 2 ^ 31)
  /\ peek (fst (make_oggs_page (repeat 9 300) 0 284 255 2 0)) 29 = 9.
Proof.
  assert (Hd : 0 <= 255 < 2 ^ 62) by lia.
  assert (Hb : 0 <= 284 < 2 ^ 31) by lia.
  split; [split; assumption|].
  rewrite (make_oggs_page_keeps_payload (repeat 9 300) 0 284 255 2 0 29 Hd Hb).
  - reflexivity.
  - right. vm_compute. discriminate.
Defined.

(** A page whose checksum field holds the checksum taken with the field
    at zero verifies. *)
Lemma checksum_stored_verifies table pos size :
  0 <= pos -> pos + 26 <= Z.of_nat (List.length table) ->
  (forall i, pos + 22 <= i <= pos + 25 -> peek table i = 0) ->
  checksum_verifies
    (put_32bitLE table (pos + 0x16) (to_int (get_oggs_checksum table pos size)))
    pos size.
Proof.
  intros Hpos Hlen Hzero. unfold checksum_verifies, checksum_cleared.
  rewrite get_32bitLE_put_32bitLE by lia.
  rewrite to_uint32_to_int by apply get_oggs_checksum_range.
  unfold get_oggs_checksum. f_equal. apply memcpy_from_ext. intros i Hi.
  destruct (Z_lt_dec i (pos + 22)) as [Hlow|Hge];
    [|destruct (Z_lt_dec (pos + 25) i) as [Hhigh|Hin]].
  - now rewrite !peek_put_32bitLE_other by lia.
  - now rewrite !peek_put_32bitLE_other by lia.
  - rewrite peek_put_32bitLE_zero by (rewrite ?put_32bitLE_length; lia).
    apply Hzero. lia.
Qed.

(** Whether a page verifies depends on its own bytes only. *)
Lemma checksum_verifies_ext buf buf' pos size :
  List.length buf = List.length buf' -> 26 <= size ->
  (forall i, pos <= i < pos + size -> peek buf i = peek buf' i) ->
  checksum_verifies buf pos size -> checksum_verifies buf' pos size.
Proof.
  intros Hlen Hsize Hsame. unfold checksum_verifies, checksum_cleared.
  intros Hverifies.
  rewrite <- (get_32bitLE_ext buf buf') by (intros i Hi; apply Hsame; lia).
  rewrite Hverifies. unfold get_oggs_checksum. f_equal.
  apply memcpy_from_ext. intros i Hi.
  apply peek_put_32bitLE_ext; [exact Hlen | now apply Hsame].
Qed.

Lemma make_oggs_page_checksum_field_cleared
    buf pos buf_size data_size page_sequence granule i :
  page_fits buf_size data_size ->
  0 <= pos -> pos + 26 <= Z.of_nat (List.length buf) ->
  pos + 22 <= i <= pos + 25 ->
  peek (oggs_table_laid buf pos data_size page_sequence granule) i = 0.
Proof.
  intros Hfit Hpos Hlen Hi.
  rewrite (oggs_table_laid_header _ _ _ _ _ _ _ Hfit) by lia.
  unfold oggs_header_laid. cbv zeta.
  rewrite peek_put_8bit_other by lia.
  apply peek_put_32bitLE_zero; [lia| store_lengths; lia | lia].
Qed.

(** X7.  Every page [make_oggs_page] builds verifies: the value in its
    checksum field is the Ogg checksum of the page, header, segment table
    and payload, taken with that field at zero. *)
Theorem make_oggs_page_checksum_verifies (buf : list Z)
    (pos buf_size data_size page_sequence granule : Z) :
  page_fits buf_size data_size ->
  0 <= pos -> pos + 26 <= Z.of_nat (List.length buf) ->
  let result := make_oggs_page buf pos buf_size data_size page_sequence granule in
  checksum_verifies (fst result) pos (snd result).
Proof.
  intros Hfit Hpos Hlen result. subst result.
  rewrite (make_oggs_page_built _ _ _ _ _ _ Hfit). cbn [fst snd].
  apply checksum_stored_verifies.
  - exact Hpos.
  - now rewrite oggs_table_laid_length.
  - intros i Hi.
    now apply (make_oggs_page_checksum_field_cleared buf pos buf_size).
Qed.

Lemma make_oggs_page_checksum_verifies_witness :
  page_fits 284 255
  /\ checksum_verifies (fst (make_oggs_page (repeat 7 300) 0 284 255 2 960)) 0 284.
Proof.
  assert (Hfit : page_fits 284 255) by (unfold page_fits; repeat split; vm_compute; congruence).
  split; [exact Hfit|].
  apply (make_oggs_page_checksum_verifies (repeat 7 300) 0 284 255 2 960 Hfit).
  - lia.
  - vm_compute. discriminate.
Defined.

(** ** The header pages *)

Lemma put_16bitLE_length buf pos v :
  List.length (put_16bitLE buf pos v) = List.length buf.
Proof. unfold put_16bitLE. now rewrite !put_8bit_length. Qed.

Lemma peek_put_16bitLE_other buf pos i v :
  i < pos \/ pos + 1 < i -> peek (put_16bitLE buf pos v) i = peek buf i.
Proof.
  intros H. unfold put_16bitLE. now rewrite !peek_put_8bit_other by lia.
Qed.

Lemma to_uint16_range z : 0 <= to_uint16 z < 2 ^ 16.
Proof. unfold to_uint16, wrap_unsigned. apply Z.mod_pos_bound. lia. Qed.

Lemma le16_recompose v :
  to_uint8 v + 2 ^ 8 * to_uint8 (Z.shiftr v 8) = to_uint16 v.
Proof.
  unfold to_uint8, to_uint16, wrap_unsigned. rewrite Z.shiftr_div_pow2 by lia.
  change (2 ^ 16) with (2 ^ 8 * 2 ^ 8).
  rewrite (Z.rem_mul_r v (2 ^ 8) (2 ^ 8)) by lia. reflexivity.
Qed.

Lemma get_16bitLE_put_16bitLE buf pos v :
  0 <= pos -> pos + 1 < Z.of_nat (List.length buf) ->
  get_16bitLE (put_16bitLE buf pos v) pos = to_uint16 v.
Proof.
  intros Hpos Hlen. unfold get_16bitLE, put_16bitLE.
  rewrite (peek_put_8bit_other _ (pos + 1) pos) by lia.
  rewrite !peek_put_8bit_same by (rewrite ?put_8bit_length; lia).
  apply le16_recompose.
Qed.

Lemma get_16bitLE_ext buf buf' pos :
  (forall i, pos <= i <= pos + 1 -> peek buf i = peek buf' i) ->
  get_16bitLE buf pos = get_16bitLE buf' pos.
Proof. intros H. unfold get_16bitLE. now rewrite !H by lia. Qed.

Ltac written_lengths :=
  repeat first
    [ rewrite put_8bit_length
    | rewrite put_16bitLE_length
    | rewrite put_32bitLE_length
    | rewrite put_32bitBE_length
    | rewrite memcpy_to_length ].

Lemma peek_put_8bit_at buf pos i v :
  i = pos -> 0 <= pos < Z.of_nat (List.length buf) ->
  peek (put_8bit buf pos v) i = to_uint8 v.
Proof. intros ->. apply peek_put_8bit_same. Qed.

(** The byte a chain of stores leaves at one place. *)
Ltac stored_byte :=
  unfold put_32bitBE, put_32bitLE, put_16bitLE;
  repeat (rewrite peek_put_8bit_other by lia);
  rewrite peek_put_8bit_at by (repeat rewrite put_8bit_length; lia).

Lemma bytes_at_length buf pos n : List.length (bytes_at buf pos n) = n.
Proof. unfold bytes_at. now rewrite length_map, length_seq. Qed.

Lemma bytes_at_nth buf pos n k :
  (k < n)%nat -> nth k (bytes_at buf pos n) 0 = peek buf (pos + Z.of_nat k).
Proof.
  intros Hk. unfold bytes_at.
  rewrite (nth_indep _ 0 ((fun i => peek buf (pos + Z.of_nat i)) 0%nat))
    by (now rewrite length_map, length_seq).
  rewrite (map_nth (fun i => peek buf (pos + Z.of_nat i))).
  now rewrite seq_nth.
Qed.

Lemma bytes_at_memcpy_to src buf pos :
  0 <= pos -> pos + Z.of_nat (List.length src) <= Z.of_nat (List.length buf) ->
  bytes_at (memcpy_to buf pos src) pos (List.length src) = map to_uint8 src.
Proof.
  intros Hpos Hlen. apply (nth_ext _ _ 0 (to_uint8 0)).
  - now rewrite bytes_at_length, length_map.
  - intros k Hk. rewrite bytes_at_length in Hk.
    rewrite bytes_at_nth by assumption.
    rewrite (map_nth to_uint8).
    apply memcpy_to_peek_in; [assumption | assumption | lia].
Qed.

Lemma make_opus_header_laid buf pos buf_size channels skip sample_rate :
  0x13 <= buf_size < 2 ^ 31 ->
  make_opus_header buf pos buf_size channels skip sample_rate
  = (put_8bit (put_16bitLE (put_32bitLE (put_16bitLE (put_8bit (put_8bit
       (put_32bitBE (put_32bitBE buf (pos + 0x00) 0x4F707573)
          (pos + 0x04) 0x48656164)
       (pos + 0x08) 1) (pos + 0x09) channels) (pos + 0x0A) skip)
       (pos + 0x0c) sample_rate) (pos + 0x10) 0) (pos + 0x12) 0,
     0x13).
Proof.
  intros Hb. unfold make_opus_header. cbv zeta.
  rewrite to_size_t_small by lia.
  replace (19 >? buf_size) with false
    by (symmetry; rewrite Z.gtb_ltb; apply Z.ltb_ge; lia).
  reflexivity.
Qed.

Lemma make_opus_header_frame buf pos buf_size channels skip sample_rate :
  0x13 <= buf_size < 2 ^ 31 ->
  List.length (fst (make_opus_header buf pos buf_size channels skip sample_rate))
  = List.length buf
  /\ forall i, i < pos \/ pos + 0x13 <= i ->
       peek (fst (make_opus_header buf pos buf_size channels skip sample_rate)) i
       = peek buf i.
Proof.
  intros Hb. rewrite (make_opus_header_laid _ _ _ _ _ _ Hb). cbn [fst]. split.
  - now written_lengths.
  - intros i Hi.
    repeat first
      [ rewrite peek_put_8bit_other by lia
      | rewrite peek_put_16bitLE_other by lia
      | rewrite peek_put_32bitLE_other by lia
      | rewrite peek_put_32bitBE_other by lia ].
    reflexivity.
Qed.

(** The 19 bytes of the identification header, as stored. *)
Lemma make_opus_header_bytes buf pos buf_size channels skip sample_rate :
  0x13 <= buf_size < 2 ^ 31 ->
  0 <= pos -> pos + 0x13 <= Z.of_nat (List.length buf) ->
  bytes_at (fst (make_opus_header buf pos buf_size channels skip sample_rate))
           pos 19
  = bytes_of_string "OpusHead"
    ++ [1; to_uint8 channels;
        to_uint8 skip; to_uint8 (Z.shiftr skip 8);
        to_uint8 sample_rate; to_uint8 (Z.shiftr sample_rate 8);
        to_uint8 (Z.shiftr sample_rate 16); to_uint8 (Z.shiftr sample_rate 24);
        0; 0; 0].
Proof.
  intros Hb Hpos Hlen. rewrite (make_opus_header_laid _ _ _ _ _ _ Hb). cbn [fst].
  unfold bytes_at.
  change (bytes_of_string "OpusHead") with [79; 112; 117; 115; 72; 101; 97; 100].
  cbn [seq map app].
  repeat (apply f_equal2; [stored_byte; reflexivity|]).
  reflexivity.
Qed.

Lemma bytes_at_peek buf pos n l k :
  bytes_at buf pos n = l -> (k < n)%nat ->
  peek buf (pos + Z.of_nat k) = nth k l 0.
Proof. intros <- Hk. symmetry. now apply bytes_at_nth. Qed.

Lemma bytes_at_firstn buf pos m n :
  (m <= n)%nat -> bytes_at buf pos m = firstn m (bytes_at buf pos n).
Proof.
  intros Hmn. apply (nth_ext _ _ 0 0).
  - rewrite length_firstn, !bytes_at_length. lia.
  - intros k Hk. rewrite bytes_at_length in Hk.
    rewrite nth_firstn. destruct (Nat.ltb_spec k m) as [_|Hge]; [|lia].
    now rewrite !bytes_at_nth by lia.
Qed.

Lemma make_opus_comment_laid buf pos buf_size :
  0x35 <= buf_size < 2 ^ 31 ->
  make_opus_comment buf pos buf_size
  = (memcpy_to (put_32bitLE (put_32bitLE (memcpy_to (put_32bitLE
       (put_32bitBE (put_32bitBE buf (pos + 0x00) 0x4F707573)
          (pos + 0x04) 0x54616773)
       (pos + 0x08) 9) (pos + 0x0c) vendor_string)
       (pos + 0x0c + 9 + 0x00) 1) (pos + 0x0c + 9 + 0x04) 24)
       (pos + 0x0c + 9 + 0x08) user_comment_0_string,
     0x35).
Proof.
  intros Hb. unfold make_opus_comment. cbv zeta.
  change (Z.of_nat (List.length vendor_string)) with 9.
  change (Z.of_nat (List.length user_comment_0_string)) with 24.
  change (0x14 + 9 + 24) with 53.
  rewrite to_size_t_small by lia.
  replace (53 >? buf_size) with false
    by (symmetry; rewrite Z.gtb_ltb; apply Z.ltb_ge; lia).
  reflexivity.
Qed.

(** Skips the stores of [make_opus_comment] that do not reach the byte
    looked at. *)
Ltac skip_comment_stores :=
  repeat first
    [ rewrite memcpy_to_peek_out
        by (change (Z.of_nat (List.length user_comment_0_string)) with 24;
            change (Z.of_nat (List.length vendor_string)) with 9; lia)
    | rewrite peek_put_32bitLE_other by lia
    | rewrite peek_put_32bitBE_other by lia ].

Lemma make_opus_comment_frame buf pos buf_size :
  0x35 <= buf_size < 2 ^ 31 ->
  List.length (fst (make_opus_comment buf pos buf_size)) = List.length buf
  /\ forall i, i < pos \/ pos + 0x35 <= i ->
       peek (fst (make_opus_comment buf pos buf_size)) i = peek buf i.
Proof.
  intros Hb. rewrite (make_opus_comment_laid _ _ _ Hb). cbn [fst]. split.
  - now written_lengths.
  - intros i Hi. skip_comment_stores. reflexivity.
Qed.

(** The comment header, field by field, as stored. *)
Lemma make_opus_comment_fields buf pos buf_size :
  0x35 <= buf_size < 2 ^ 31 ->
  0 <= pos -> pos + 0x35 <= Z.of_nat (List.length buf) ->
  let tags := fst (make_opus_comment buf pos buf_size) in
  bytes_at tags pos 8 = bytes_of_string "OpusTags"
  /\ get_32bitLE tags (pos + 8) = 9
  /\ bytes_at tags (pos + 12) 9 = vendor_string
  /\ get_32bitLE tags (pos + 21) = 1
  /\ get_32bitLE tags (pos + 25) = 24
  /\ bytes_at tags (pos + 29) 24 = user_comment_0_string.
Proof.
  intros Hb Hpos Hlen tags. subst tags.
  rewrite (make_opus_comment_laid _ _ _ Hb). cbn [fst].
  replace (pos + 12 + 9 + 0) with (pos + 21) by lia.
  replace (pos + 12 + 9 + 4) with (pos + 25) by lia.
  replace (pos + 12 + 9 + 8) with (pos + 29) by lia.
  repeat split.
  - unfold bytes_at.
    change (bytes_of_string "OpusTags") with [79; 112; 117; 115; 84; 97; 103; 115].
    cbn [seq map].
    repeat (apply f_equal2;
            [skip_comment_stores; stored_byte; reflexivity|]).
    reflexivity.
  - erewrite get_32bitLE_ext by (intros i Hi; skip_comment_stores; reflexivity).
    rewrite get_32bitLE_put_32bitLE by (written_lengths; lia). reflexivity.
  - erewrite bytes_at_ext
      by (intros i Hi; rewrite memcpy_to_peek_out
            by (change (Z.of_nat (List.length user_comment_0_string)) with 24; lia);
          rewrite !peek_put_32bitLE_other by lia; reflexivity).
    etransitivity;
      [apply (bytes_at_memcpy_to vendor_string);
       [lia | written_lengths;
              change (Z.of_nat (List.length vendor_string)) with 9; lia]|].
    reflexivity.
  - erewrite get_32bitLE_ext
      by (intros i Hi; rewrite memcpy_to_peek_out
            by (change (Z.of_nat (List.length user_comment_0_string)) with 24; lia);
          rewrite peek_put_32bitLE_other by lia; reflexivity).
    rewrite get_32bitLE_put_32bitLE by (written_lengths; lia). reflexivity.
  - erewrite get_32bitLE_ext
      by (intros i Hi; rewrite memcpy_to_peek_out
            by (change (Z.of_nat (List.length user_comment_0_string)) with 24; lia);
          reflexivity).
    rewrite get_32bitLE_put_32bitLE by (written_lengths; lia). reflexivity.
  - etransitivity;
      [apply (bytes_at_memcpy_to user_comment_0_string);
       [lia | written_lengths;
              change (Z.of_nat (List.length user_comment_0_string)) with 24; lia]|].
    reflexivity.
Qed.

(** [make_oggs_first] with room: the header payload stored at 0x1c, its
    page built around it, the comment payload stored behind that page and
    its page built around it. *)
Lemma make_oggs_first_built buf buf_size channels skip sample_rate :
  0x100 <= buf_size < 2 ^ 31 ->
  make_oggs_first buf buf_size channels skip sample_rate
  = (fst (make_oggs_page
            (fst (make_opus_comment
                    (fst (make_oggs_page
                            (fst (make_opus_header buf 28 buf_size
                                    channels skip sample_rate))
                            0 buf_size 19 0 0))
                    75 buf_size))
            47 buf_size 53 1 0),
     128).
Proof.
  intros Hb. unfold make_oggs_first. cbv zeta.
  replace (buf_size <? 256) with false by (symmetry; apply Z.ltb_ge; lia).
  change (0 + 28) with 28. change (0 + 0) with 0.
  rewrite (make_opus_header_laid buf 28 buf_size channels skip sample_rate)
    by lia.
  cbn [fst].
  change (to_int (to_size_t (28 + 19))) with 47.
  change (47 + 28) with 75. change (47 + 0) with 47.
  rewrite make_opus_comment_laid by lia.
  cbn [fst].
  change (to_size_t (to_int (to_size_t (75 + 53)))) with 128.
  reflexivity.
Qed.

Lemma header_pages_fit buf_size :
  0x100 <= buf_size < 2 ^ 31 ->
  page_fits buf_size 19 /\ page_fits buf_size 53.
Proof.
  intros Hb. unfold page_fits.
  change (19 / 255) with 0. change (53 / 255) with 0. lia.
Qed.

(** Where the bytes of the finished prelude come from: the comment page is
    built last and leaves the header page alone, and each page builder
    leaves its payload alone. *)
Lemma make_oggs_first_trace buf buf_size channels skip sample_rate :
  0x100 <= buf_size < 2 ^ 31 ->
  let opus_head := fst (make_opus_header buf 28 buf_size channels skip sample_rate) in
  let page0 := fst (make_oggs_page opus_head 0 buf_size 19 0 0) in
  let opus_tags := fst (make_opus_comment page0 75 buf_size) in
  let head := fst (make_oggs_first buf buf_size channels skip sample_rate) in
  List.length head = List.length buf
  /\ List.length page0 = List.length buf
  /\ List.length opus_tags = List.length buf
  /\ (forall i, i < 47 -> peek head i = peek page0 i)
  /\ (forall i, 28 <= i < 47 -> peek head i = peek opus_head i)
  /\ (forall i, 75 <= i -> peek head i = peek opus_tags i)
  /\ (forall i, 128 <= i -> peek head i = peek buf i).
Proof.
  intros Hb opus_head page0 opus_tags head.
  destruct (header_pages_fit _ Hb) as [Hfit0 Hfit1].
  destruct (make_opus_header_frame buf 28 buf_size channels skip sample_rate
              ltac:(lia)) as [Hlen_head Hout_head].
  destruct (make_opus_comment_frame page0 75 buf_size ltac:(lia))
    as [Hlen_tags Hout_tags].
  fold opus_head in Hlen_head, Hout_head. fold opus_tags in Hlen_tags, Hout_tags.
  assert (Hhead : head = fst (make_oggs_page opus_tags 47 buf_size 53 1 0)).
  { subst head. now rewrite make_oggs_first_built by assumption. }
  assert (Hlen0 : List.length page0 = List.length buf).
  { subst page0. now rewrite make_oggs_page_length. }
  assert (Hlow : forall i, i < 47 -> peek head i = peek page0 i).
  { intros i Hi. rewrite Hhead.
    rewrite (make_oggs_page_outside _ _ _ _ _ _ _ Hfit1) by lia.
    apply Hout_tags. lia. }
  assert (Hhigh : forall i, 75 <= i -> peek head i = peek opus_tags i).
  { intros i Hi. rewrite Hhead.
    apply (make_oggs_page_outside _ _ _ _ _ _ _ Hfit1).
    change (lacing_count 53) with 1. lia. }
  repeat split.
  - rewrite Hhead, make_oggs_page_length. congruence.
  - exact Hlen0.
  - congruence.
  - exact Hlow.
  - intros i Hi. rewrite Hlow by lia. subst page0.
    apply (make_oggs_page_outside _ _ _ _ _ _ _ Hfit0).
    change (lacing_count 19) with 1. lia.
  - exact Hhigh.
  - intros i Hi. rewrite Hhigh by lia. rewrite Hout_tags by lia.
    subst page0.
    rewrite (make_oggs_page_outside _ _ _ _ _ _ _ Hfit0)
      by (change (lacing_count 19) with 1; lia).
    apply Hout_head. lia.
Qed.

Lemma lacing_values_length n :
  0 <= n -> Z.of_nat (List.length (lacing_values n)) = n / 255 + 1.
Proof.
  intros Hn. unfold lacing_values.
  rewrite length_app, repeat_length. cbn [List.length].
  assert (0 <= n / 255) by (apply Z.div_pos; lia). lia.
Qed.

(** The page [make_oggs_page] builds around a payload that is not empty and
    has fewer than 256 lacing values. *)
Lemma make_oggs_page_well_formed buf pos buf_size data_size page_sequence granule :
  page_fits buf_size data_size -> 0 < data_size -> data_size / 255 + 1 < 256 ->
  0 <= pos -> pos + 27 + data_size / 255 < Z.of_nat (List.length buf) ->
  oggs_page_at
    (fst (make_oggs_page buf pos buf_size data_size page_sequence granule))
    pos (if page_sequence =? 0 then 2 else 0) (to_uint64 granule)
    (to_uint32 page_sequence) (lacing_values data_size).
Proof.
  intros Hfit Hds Hcount Hpos Hlen.
  assert (Hq : 0 <= data_size / 255) by (apply Z.div_pos; lia).
  destruct (oggs_header_laid_fields buf pos data_size page_sequence granule
              Hpos ltac:(lia) (page_fits_lacing_small _ _ Hfit))
    as (Hcapture & Hversion & Hflag & Hgranule & Hserial & Hsequence & Hsegments).
  unfold oggs_page_at, get_64bitLE in *.
  rewrite (get_32bitBE_ext _ (oggs_header_laid buf pos data_size page_sequence granule))
    by (intros i Hi; apply (make_oggs_page_peek_header _ _ _ _ _ _ _ Hfit); lia).
  rewrite !(make_oggs_page_get_32bitLE_header _ _ _ _ _ _ _ Hfit) by lia.
  rewrite !(make_oggs_page_peek_header _ _ _ _ _ _ _ Hfit) by lia.
  rewrite lacing_values_length, sum_lacing_values by lia.
  repeat split; try assumption.
  - rewrite Hsegments. apply to_uint8_small_value. lia.
  - replace (List.length (lacing_values data_size))
      with (Z.to_nat (data_size / 255 + 1))
      by (rewrite <- lacing_values_length by lia; lia).
    rewrite <- (oggs_table_laid_values buf pos buf_size data_size page_sequence
                  granule Hfit Hds Hpos Hlen).
    apply bytes_at_ext. intros i Hi.
    rewrite (make_oggs_page_built _ _ _ _ _ _ Hfit). cbn [fst].
    apply peek_put_32bitLE_other. lia.
  - rewrite (make_oggs_page_built _ _ _ _ _ _ Hfit). cbn [fst].
    replace (27 + (data_size / 255 + 1) + data_size)
      with (27 + lacing_count data_size + data_size)
      by (unfold lacing_count; destruct (Z.eqb_spec data_size 0); lia).
    apply checksum_stored_verifies.
    + exact Hpos.
    + rewrite oggs_table_laid_length. lia.
    + intros i Hi.
      apply (make_oggs_page_checksum_field_cleared buf pos buf_size);
        [assumption | assumption | lia | assumption].
Qed.

(** Whether there is such a page at [buf+pos] depends on the bytes of the
    page only. *)
Lemma oggs_page_at_ext buf buf' pos flag granule sequence table :
  List.length buf = List.length buf' ->
  (forall i, pos <= i < pos + 27 + Z.of_nat (List.length table)
                              + fold_right Z.add 0 table ->
             peek buf i = peek buf' i) ->
  0 <= fold_right Z.add 0 table ->
  oggs_page_at buf pos flag granule sequence table ->
  oggs_page_at buf' pos flag granule sequence table.
Proof.
  intros Hlen Hsame Hsum.
  unfold oggs_page_at, get_64bitLE.
  intros (Hcapture & Hversion & Hflag & Hgranule & Hserial & Hsequence
          & Hsegments & Htable & Hverifies).
  rewrite <- (get_32bitBE_ext buf buf') by (intros i Hi; apply Hsame; lia).
  rewrite <- !(get_32bitLE_ext buf buf') by (intros i Hi; apply Hsame; lia).
  rewrite <- !Hsame by lia.
  rewrite <- (bytes_at_ext buf buf') by (intros i Hi; apply Hsame; lia).
  repeat split; try assumption.
  apply (checksum_verifies_ext buf buf'); [assumption | lia | | assumption].
  intros i Hi. apply Hsame. lia.
Qed.

(** X8.  The identification header in the prelude [make_oggs_first]
    builds: "OpusHead", version 1, then the channel count, the pre-skip and
    the sample rate it was given, as one byte, 16 and 32 bits little-endian,
    output gain 0 and mapping family 0, in the payload of the first page. *)
Theorem make_oggs_first_opus_head (buf : list Z)
    (buf_size channels skip sample_rate : Z) :
  0x100 <= buf_size < 2 ^ 31 -> 47 <= Z.of_nat (List.length buf) ->
  let head := fst (make_oggs_first buf buf_size channels skip sample_rate) in
  bytes_at head 0x1c 8 = bytes_of_string "OpusHead"
  /\ peek head (0x1c + 0x08) = 1
  /\ peek head (0x1c + 0x09) = to_uint8 channels
  /\ get_16bitLE head (0x1c + 0x0A) = to_uint16 skip
  /\ get_32bitLE head (0x1c + 0x0c) = to_uint32 sample_rate
  /\ get_16bitLE head (0x1c + 0x10) = 0
  /\ peek head (0x1c + 0x12) = 0.
Proof.
  intros Hb Hlen head.
  destruct (make_oggs_first_trace buf buf_size channels skip sample_rate Hb)
    as (_ & _ & _ & _ & Hpayload & _).
  fold head in Hpayload.
  assert (Hbytes : bytes_at head 28 19
                   = bytes_of_string "OpusHead"
                     ++ [1; to_uint8 channels;
                         to_uint8 skip; to_uint8 (Z.shiftr skip 8);
                         to_uint8 sample_rate; to_uint8 (Z.shiftr sample_rate 8);
                         to_uint8 (Z.shiftr sample_rate 16);
                         to_uint8 (Z.shiftr sample_rate 24);
                         0; 0; 0]).
  { rewrite <- (make_opus_header_bytes buf 28 buf_size channels skip sample_rate)
      by lia.
    apply bytes_at_ext. intros i Hi. apply Hpayload. lia. }
  assert (Hbyte : forall k, (k < 19)%nat ->
            peek head (28 + Z.of_nat k)
            = nth k (bytes_of_string "OpusHead"
                     ++ [1; to_uint8 channels;
                         to_uint8 skip; to_uint8 (Z.shiftr skip 8);
                         to_uint8 sample_rate; to_uint8 (Z.shiftr sample_rate 8);
                         to_uint8 (Z.shiftr sample_rate 16);
                         to_uint8 (Z.shiftr sample_rate 24);
                         0; 0; 0]) 0)
    by (intros k Hk; now apply (bytes_at_peek head 28 19)).
  repeat split.
  - rewrite (bytes_at_firstn head 28 8 19) by lia. rewrite Hbytes. reflexivity.
  - exact (Hbyte 8%nat ltac:(lia)).
  - exact (Hbyte 9%nat ltac:(lia)).
  - unfold get_16bitLE.
    rewrite (Hbyte 10%nat ltac:(lia) : peek head (28 + 10) = to_uint8 skip).
    rewrite (Hbyte 11%nat ltac:(lia)
             : peek head (28 + 10 + 1) = to_uint8 (Z.shiftr skip 8)).
    apply le16_recompose.
  - unfold get_32bitLE.
    rewrite (Hbyte 12%nat ltac:(lia) : peek head (28 + 12) = to_uint8 sample_rate).
    rewrite (Hbyte 13%nat ltac:(lia)
             : peek head (28 + 12 + 1) = to_uint8 (Z.shiftr sample_rate 8)).
    rewrite (Hbyte 14%nat ltac:(lia)
             : peek head (28 + 12 + 2) = to_uint8 (Z.shiftr sample_rate 16)).
    rewrite (Hbyte 15%nat ltac:(lia)
             : peek head (28 + 12 + 3) = to_uint8 (Z.shiftr sample_rate 24)).
    apply le32_recompose.
  - unfold get_16bitLE.
    rewrite (Hbyte 16%nat ltac:(lia) : peek head (28 + 16) = 0).
    rewrite (Hbyte 17%nat ltac:(lia) : peek head (28 + 16 + 1) = 0).
    reflexivity.
  - exact (Hbyte 18%nat ltac:(lia)).
Qed.

Lemma make_oggs_first_opus_head_witness :
  (0x100 <= 0x100 < 2 ^ 31)
  /\ get_32bitLE (fst (make_oggs_first (repeat 0 256) 0x100 2 312 48000)) 40
     = 48000.
Proof.
  assert (Hb : 0x100 <= 0x100 < 2 ^ 31) by lia.
  split; [exact Hb|].
  destruct (make_oggs_first_opus_head (repeat 0 256) 0x100 2 312 48000 Hb
              ltac:(vm_compute; discriminate))
    as (_ & _ & _ & _ & Hrate & _).
  exact Hrate.
Defined.

(** X9.  The comment header in the prelude: "OpusTags", the vendor string
    "vgmstream" behind its length, and one user comment, "vgmstream Opus
    converter", behind its length, in the payload of the second page. *)
Theorem make_oggs_first_opus_tags (buf : list Z)
    (buf_size channels skip sample_rate : Z) :
  0x100 <= buf_size < 2 ^ 31 -> 128 <= Z.of_nat (List.length buf) ->
  let head := fst (make_oggs_first buf buf_size channels skip sample_rate) in
  let tags := 0x2f + 0x1c in
  bytes_at head tags 8 = bytes_of_string "OpusTags"
  /\ get_32bitLE head (tags + 0x08) = Z.of_nat (List.length vendor_string)
  /\ bytes_at head (tags + 0x0c) (List.length vendor_string) = vendor_string
  /\ get_32bitLE head (tags + 0x15) = 1
  /\ get_32bitLE head (tags + 0x19) = Z.of_nat (List.length user_comment_0_string)
  /\ bytes_at head (tags + 0x1d) (List.length user_comment_0_string)
     = user_comment_0_string.
Proof.
  intros Hb Hlen head tags. subst tags.
  destruct (make_oggs_first_trace buf buf_size channels skip sample_rate Hb)
    as (_ & Hlen0 & _ & _ & _ & Hpayload & _).
  fold head in Hpayload.
  destruct (make_opus_comment_fields
              (fst (make_oggs_page
                      (fst (make_opus_header buf 28 buf_size channels skip
                              sample_rate)) 0 buf_size 19 0 0))
              75 buf_size ltac:(lia) ltac:(lia) ltac:(rewrite Hlen0; lia))
    as (Hmagic & Hvendor_length & Hvendor & Hcount & Hcomment_length & Hcomment).
  repeat split.
  - etransitivity; [|exact Hmagic].
    apply bytes_at_ext. intros i Hi. apply Hpayload. lia.
  - etransitivity; [|exact Hvendor_length].
    apply get_32bitLE_ext. intros i Hi. apply Hpayload. lia.
  - etransitivity; [|exact Hvendor].
    apply bytes_at_ext. intros i Hi. apply Hpayload. lia.
  - etransitivity; [|exact Hcount].
    apply get_32bitLE_ext. intros i Hi. apply Hpayload. lia.
  - etransitivity; [|exact Hcomment_length].
    apply get_32bitLE_ext. intros i Hi. apply Hpayload. lia.
  - etransitivity; [|exact Hcomment].
    apply bytes_at_ext. intros i Hi. apply Hpayload. lia.
Qed.

Lemma make_oggs_first_opus_tags_witness :
  (0x100 <= 0x100 < 2 ^ 31)
  /\ bytes_at (fst (make_oggs_first (repeat 0 256) 0x100 2 312 48000)) 87 9
     = bytes_of_string "vgmstream".
Proof.
  assert (Hb : 0x100 <= 0x100 < 2 ^ 31) by lia.
  split; [exact Hb|].
  destruct (make_oggs_first_opus_tags (repeat 0 256) 0x100 2 312 48000 Hb
              ltac:(vm_compute; discriminate))
    as (_ & _ & Hvendor & _).
  exact Hvendor.
Defined.

(** X10.  The prelude is two Ogg pages back to back, 128 bytes in all: at 0
    the page of sequence 0 with the first-page flag and the 19-byte
    identification header as its one segment, at 47 the page of sequence 1
    with the 53-byte comment header; both have granule 0 and a checksum that
    verifies.  A capacity below 0x100 is refused with 0 and the buffer
    untouched. *)
Theorem make_oggs_first_pages (buf : list Z)
    (buf_size channels skip sample_rate : Z) :
  0 <= buf_size < 2 ^ 31 -> 128 <= Z.of_nat (List.length buf) ->
  let head := fst (make_oggs_first buf buf_size channels skip sample_rate) in
  (buf_size < 0x100 ->
   make_oggs_first buf buf_size channels skip sample_rate = (buf, 0))
  /\ (0x100 <= buf_size ->
      snd (make_oggs_first buf buf_size channels skip sample_rate) = 0x2f + 0x51
      /\ oggs_page_at head 0 2 0 0 [0x13]
      /\ oggs_page_at head 0x2f 0 0 1 [0x35]
      /\ List.length head = List.length buf
      /\ forall i, 0x2f + 0x51 <= i -> peek head i = peek buf i).
Proof.
  intros Hb Hlen head. split.
  - intros Hsmall. unfold make_oggs_first. cbv zeta.
    replace (buf_size <? 256) with true by (symmetry; apply Z.ltb_lt; lia).
    reflexivity.
  - intros Hroom.
    assert (Hb' : 0x100 <= buf_size < 2 ^ 31) by lia.
    destruct (header_pages_fit _ Hb') as [Hfit0 Hfit1].
    destruct (make_oggs_first_trace buf buf_size channels skip sample_rate Hb')
      as (Hlen_head & Hlen0 & Hlen_tags & Hlow & _ & _ & Hout).
    fold head in Hlen_head, Hlow, Hout.
    split; [|split; [|split; [|split]]].
    + now rewrite make_oggs_first_built by assumption.
    + apply (oggs_page_at_ext
               (fst (make_oggs_page
                       (fst (make_opus_header buf 28 buf_size channels skip
                               sample_rate)) 0 buf_size 19 0 0))).
      * congruence.
      * intros i Hi. cbn in Hi. symmetry. apply Hlow. lia.
      * cbn. lia.
      * apply (make_oggs_page_well_formed _ 0 buf_size 19 0 0 Hfit0);
          [lia | reflexivity | lia |].
        destruct (make_opus_header_frame buf 28 buf_size channels skip
                    sample_rate ltac:(lia)) as [-> _].
        change (19 / 255) with 0. lia.
    + subst head. rewrite make_oggs_first_built by assumption. cbn [fst].
      apply (make_oggs_page_well_formed _ 47 buf_size 53 1 0 Hfit1);
        [lia | reflexivity | lia |].
      rewrite Hlen_tags. change (53 / 255) with 0. lia.
    + exact Hlen_head.
    + exact Hout.
Qed.

Lemma make_oggs_first_pages_witness :
  (0 <= 0x100 < 2 ^ 31)
  /\ snd (make_oggs_first (repeat 0 256) 0x100 2 312 48000) = 128
  /\ checksum_verifies (fst (make_oggs_first (repeat 0 256) 0x100 2 312 48000))
       0 47.
Proof.
  assert (Hb : 0 <= 0x100 < 2 ^ 31) by lia.
  split; [exact Hb|].
  destruct (make_oggs_first_pages (repeat 0 256) 0x100 2 312 48000 Hb
              ltac:(vm_compute; discriminate)) as [_ Hbuilt].
  destruct (Hbuilt ltac:(lia)) as (Hsize & Hpage0 & _).
  split; [exact Hsize|].
  destruct Hpage0 as (_ & _ & _ & _ & _ & _ & _ & _ & Hverifies).
  exact Hverifies.
Defined.

(** ** What a read hands out *)

Lemma memcpy_from_length buf pos n :
  List.length (memcpy_from buf pos n) = Z.to_nat n.
Proof. unfold memcpy_from. now rewrite length_map, length_seq. Qed.

Lemma clamped_to_read x len :
  0 <= len ->
  0 <= (if to_size_t x >? len then len else to_size_t x) <= len.
Proof.
  intros Hlen. pose proof (to_size_t_range x) as Hx.
  destruct (Z.gtb_spec (to_size_t x) len); lia.
Qed.

(** One [memcpy] to [dest] with its four updates of the locals. *)
Lemma copy_accounted requested l buf bytes_consumed to_read offset' :
  requested < 2 ^ 64 -> accounted requested l ->
  0 <= to_read <= length_ l ->
  accounted requested
    (mk_read_locals (dest l ++ memcpy_from buf bytes_consumed to_read)
                    (to_size_t (total_read l + to_read)) offset'
                    (to_size_t (length_ l - to_read))).
Proof.
  intros Hreq (Htotal & Hlen & Hsum & Hdest) Hto.
  unfold accounted. cbn [dest total_read length_].
  rewrite !to_size_t_small by lia.
  rewrite length_app, memcpy_from_length. repeat split; lia.
Qed.

Lemma insert_fake_header_accounted requested d l :
  requested < 2 ^ 64 -> accounted requested l ->
  accounted requested (snd (insert_fake_header d l)).
Proof.
  intros Hreq Hl. unfold insert_fake_header.
  destruct (_ <? head_size d); [|exact Hl].
  cbv zeta. cbn [snd]. apply copy_accounted; try assumption.
  apply clamped_to_read. apply Hl.
Qed.

Lemma read_block_turn_accounted requested sf d l :
  requested < 2 ^ 64 -> accounted requested l ->
  match read_block_turn sf d l with
  | Break _ l' | Again _ l' => accounted requested l'
  end.
Proof.
  intros Hreq Hl. unfold read_block_turn.
  destruct (_ >=? logical_size d); [exact Hl|].
  destruct (if page_size d =? 0 then process_new_block sf d else (d, false))
    as [d' stop].
  destruct stop; [exact Hl|].
  destruct (_ >=? _); [exact Hl|].
  cbv zeta.
  match goal with
  | |- context [if ?c =? 0 then _ else _] => destruct (c =? 0)
  end; (apply copy_accounted; [assumption | assumption |]);
    apply clamped_to_read; apply Hl.
Qed.

Lemma read_blocks_accounted requested sf fuel : forall d l d' l',
  requested < 2 ^ 64 -> accounted requested l ->
  read_blocks fuel sf d l = Some (d', l') -> accounted requested l'.
Proof.
  induction fuel as [|fuel IH]; intros d l d' l' Hreq Hl; cbn [read_blocks];
    destruct (length_ l >? 0); try discriminate;
    try (intros [= <- <-]; exact Hl).
  pose proof (read_block_turn_accounted requested sf d l Hreq Hl) as Hturn.
  destruct (read_block_turn sf d l) as [d1 l1|d1 l1].
  - intros [= <- <-]. exact Hturn.
  - intros Hrun. exact (IH d1 l1 d' l' Hreq Hturn Hrun).
Qed.

(** X11.  A read never hands out more than it was asked for: the count
    [opus_io_read] returns is the number of bytes it stored at [dest], and
    it is at most [length]. *)
Theorem opus_io_read_count (fuel : nat) (sf : STREAMFILE) (d : opus_io_data)
    (offset length : Z) (d' : opus_io_data) (out : list Z) (n : Z) :
  0 <= length < 2 ^ 64 ->
  opus_io_read fuel sf d offset length = Some (d', out, n) ->
  n = Z.of_nat (List.length out) /\ 0 <= n <= length.
Proof.
  intros Hlen. unfold opus_io_read.
  destruct (opus_io_read_entry d offset) as [|d0].
  - intros [= _ <- <-]. cbn. lia.
  - assert (Hstart : accounted length (mk_read_locals [] 0 offset length))
      by (unfold accounted; cbn; lia).
    pose proof (insert_fake_header_accounted length d0 _ ltac:(lia) Hstart)
      as Hheader.
    destruct (insert_fake_header d0 (mk_read_locals [] 0 offset length))
      as [d1 l1].
    cbn [snd] in Hheader.
    destruct (read_blocks fuel sf d1 l1) as [[d2 l2]|] eqn:Hrun;
      [|discriminate].
    intros [= _ <- <-].
    destruct (read_blocks_accounted length sf fuel d1 l1 d2 l2 ltac:(lia)
                Hheader Hrun) as (Htotal & Hleft & Hsum & Hdest).
    lia.
Qed.

Lemma opus_io_read_count_witness :
  let sf := Scenario.ue4_source in
  let d := Scenario.the (Scenario.reframer 16 sf OPUS_UE4) in
  0 <= 200 < 2 ^ 64
  /\ exists d' out,
       opus_io_read 16 sf d 0 200 = Some (d', out, 188)
       /\ 188 = Z.of_nat (List.length out) /\ 0 <= 188 <= 200.
Proof.
  intros sf d.
  assert (Hlen : 0 <= 200 < 2 ^ 64) by lia.
  split; [exact Hlen|].
  destruct (opus_io_read 16 sf d 0 200) as [[[d' out] n]|] eqn:Hread.
  - assert (Hn : n = 188).
    { pose proof Hread as Hrun. vm_compute in Hrun.
      injection Hrun as _ _ Hn. now symmetry. }
    subst n. exists d', out. split; [reflexivity|].
    exact (opus_io_read_count 16 sf d 0 200 d' out 188 Hlen Hread).
  - vm_compute in Hread. discriminate.
Defined.

(** ** The page of one packet *)

Lemma opus_get_packet_samples_ext buf buf' pos pos' len :
  peek buf pos = peek buf' pos' -> peek buf (pos + 1) = peek buf' (pos' + 1) ->
  opus_get_packet_samples buf pos len = opus_get_packet_samples buf' pos' len.
Proof.
  intros H0 H1.
  unfold opus_get_packet_samples, opus_packet_get_nb_frames,
    opus_packet_get_samples_per_frame.
  now rewrite H0, H1.
Qed.

Lemma page_fits_check_buffer data_size :
  page_fits sizeof_page_buffer data_size ->
  oggs_size_of data_size = 27 + (data_size / 255 + 1)
  /\ (to_size_t (oggs_size_of data_size + data_size) >? sizeof_page_buffer)
     = false
  /\ to_size_t (oggs_size_of data_size + data_size)
     = 27 + (data_size / 255 + 1) + data_size.
Proof.
  intros Hfit. pose proof (oggs_size_of_fits _ _ Hfit) as Hoggs.
  destruct Hfit as (Hd & Hb & Hf).
  assert (0 <= data_size / 255) by (apply Z.div_pos; lia).
  unfold sizeof_page_buffer in *.
  rewrite Hoggs, to_size_t_small by lia.
  repeat split. rewrite Z.gtb_ltb. apply Z.ltb_ge. lia.
Qed.

(** [process_new_block] on a packet whose page fits the page buffer: the
    payload is read behind the place of the header, the samples counted,
    the page built around the payload and the sequence advanced. *)
Lemma process_new_block_built sf d data_size skip_size :
  packet_framing (type d) sf (physical_offset d)
                 (to_int (to_size_t (sequence d - 2))) = (data_size, skip_size) ->
  page_fits sizeof_page_buffer data_size ->
  let oggs_size := 27 + (data_size / 255 + 1) in
  let filled :=
    read_streamfile (page_buffer d) oggs_size
      (to_off_t (to_size_t (physical_offset d) + skip_size)) data_size sf in
  let total :=
    to_size_t (samples_done d
               + opus_get_packet_samples filled oggs_size (to_int data_size)) in
  process_new_block sf d
  = (mk_opus_io_data (type d) (stream_offset d) (stream_size d)
       (logical_offset d) (physical_offset d)
       (to_size_t (data_size + skip_size)) (oggs_size + data_size)
       (fst (make_oggs_page filled 0 sizeof_page_buffer data_size
               (to_int (sequence d)) (to_int total)))
       (to_size_t (sequence d + 1)) total
       (head_buffer d) (head_size d) (logical_size d),
     false).
Proof.
  intros Hframe Hfit.
  destruct (page_fits_check_buffer _ Hfit) as (Hoggs & Hcheck & Hsize).
  unfold process_new_block. rewrite Hframe.
  cbn [page_size set_page_size set_block_size]. rewrite Hcheck, Hsize, Hoggs.
  destruct d. reflexivity.
Qed.

Lemma packet_framing_skip ty sf po packet :
  0 <= snd (packet_framing ty sf po packet) <= 8.
Proof. destruct ty; cbn; lia. Qed.

(** X12.  What [process_new_block] leaves in the page buffer for a packet
    that is not empty and whose page fits: one Ogg page with the header type
    0, the sequence number the state held (which then goes up by one), the
    running sample count as granule and the segment table of the payload
    size; behind it the payload, byte for byte what the source holds behind
    the packet's size field; and the cursors are where they were. *)
Theorem process_new_block_page (sf : STREAMFILE) (d : opus_io_data)
    (data_size skip_size : Z) :
  packet_framing (type d) sf (physical_offset d)
                 (to_int (to_size_t (sequence d - 2))) = (data_size, skip_size) ->
  page_fits sizeof_page_buffer data_size -> 0 < data_size ->
  List.length (page_buffer d) = Z.to_nat sizeof_page_buffer ->
  0 <= physical_offset d < 2 ^ 62 -> 0 < sequence d < 2 ^ 31 ->
  let d' := fst (process_new_block sf d) in
  let payload := 27 + (data_size / 255 + 1) in
  snd (process_new_block sf d) = false
  /\ page_size d' = payload + data_size
  /\ block_size d' = data_size + skip_size
  /\ sequence d' = sequence d + 1
  /\ physical_offset d' = physical_offset d
  /\ logical_offset d' = logical_offset d
  /\ samples_done d'
     = to_size_t (samples_done d
                  + opus_get_packet_samples (page_buffer d') payload
                                            (to_int data_size))
  /\ oggs_page_at (page_buffer d') 0 0 (to_uint64 (to_int (samples_done d')))
                  (sequence d) (lacing_values data_size)
  /\ forall k, 0 <= k < data_size ->
       physical_offset d + skip_size + k < get_streamfile_size sf ->
       peek (page_buffer d') (payload + k)
       = source_byte sf (physical_offset d + skip_size + k).
Proof.
  intros Hframe Hfit Hds Hlen Hpo Hseq d' payload.
  pose proof (packet_framing_skip (type d) sf (physical_offset d)
                (to_int (to_size_t (sequence d - 2)))) as Hskip.
  rewrite Hframe in Hskip. cbn [snd] in Hskip.
  assert (Hq : 0 <= data_size / 255) by (apply Z.div_pos; lia).
  assert (Hroom : payload + data_size <= 0x2000)
    by (destruct Hfit as (_ & _ & Hroom); exact Hroom).
  assert (Hfew : data_size / 255 <= 32)
    by (change 32 with (8192 / 255); apply Z.div_le_mono; subst payload; lia).
  subst d'. rewrite (process_new_block_built sf d data_size skip_size Hframe Hfit).
  cbv zeta. cbn [fst snd page_size block_size sequence physical_offset
                 logical_offset samples_done page_buffer].
  fold payload.
  rewrite (to_size_t_small (physical_offset d)) by lia.
  rewrite (to_off_t_small (physical_offset d + skip_size)) by lia.
  set (filled := read_streamfile (page_buffer d) payload
                   (physical_offset d + skip_size) data_size sf).
  set (total := to_size_t (samples_done d
                           + opus_get_packet_samples filled payload
                                                     (to_int data_size))).
  assert (Hfilled : Z.of_nat (List.length filled) = 0x2000).
  { subst filled. unfold read_streamfile. rewrite memcpy_to_length, Hlen.
    unfold sizeof_page_buffer. lia. }
  assert (Hbehind : forall i, payload <= i ->
            peek (fst (make_oggs_page filled 0 sizeof_page_buffer data_size
                         (to_int (sequence d)) (to_int total))) i
            = peek filled i).
  { intros i Hi. apply (make_oggs_page_outside _ _ _ _ _ _ _ Hfit).
    right. unfold lacing_count.
    destruct (Z.eqb_spec data_size 0); [lia|]. subst payload. lia. }
  split; [reflexivity|]. split; [reflexivity|].
  split; [apply to_size_t_small; lia|].
  split; [apply to_size_t_small; lia|].
  split; [reflexivity|]. split; [reflexivity|]. split; [|split].
  - subst total. f_equal. f_equal.
    apply opus_get_packet_samples_ext; symmetry; apply Hbehind; lia.
  - pose proof (make_oggs_page_well_formed filled 0 sizeof_page_buffer data_size
                  (to_int (sequence d)) (to_int total) Hfit Hds) as Hpage.
    rewrite (to_uint32_small (to_int (sequence d))) in Hpage
      by (rewrite to_int_small; lia).
    rewrite (to_int_small (sequence d)) in Hpage at 2 3 by lia.
    replace (sequence d =? 0) with false in Hpage
      by (symmetry; apply Z.eqb_neq; lia).
    apply Hpage; subst payload; lia.
  - intros k Hk Hsource. rewrite Hbehind by lia. subst filled.
    apply read_streamfile_peek; try lia.
    rewrite Hlen. unfold sizeof_page_buffer. lia.
Qed.

Lemma process_new_block_page_witness :
  let sf := Scenario.ue4_source in
  let d := Scenario.the (Scenario.reframer 16 sf OPUS_UE4) in
  (packet_framing (type d) sf (physical_offset d)
                  (to_int (to_size_t (sequence d - 2))) = (2, 2)
   /\ page_fits sizeof_page_buffer 2)
  /\ sequence (fst (process_new_block sf d)) = 3
  /\ bytes_at (page_buffer (fst (process_new_block sf d))) 28 2 = [4; 0].
Proof.
  intros sf d.
  assert (Hframe : packet_framing (type d) sf (physical_offset d)
                     (to_int (to_size_t (sequence d - 2))) = (2, 2))
    by (vm_compute; reflexivity).
  assert (Hfit : page_fits sizeof_page_buffer 2)
    by (unfold page_fits; repeat split; vm_compute; congruence).
  split; [split; assumption|].
  destruct (process_new_block_page sf d 2 2 Hframe Hfit ltac:(lia)
              ltac:(vm_compute; reflexivity)
              ltac:(split; vm_compute; congruence)
              ltac:(split; vm_compute; congruence))
    as (_ & _ & _ & Hsequence & _ & _ & _ & _ & Hpayload).
  split; [exact Hsequence|].
  unfold bytes_at. cbn [seq map].
  rewrite (Hpayload 0 ltac:(lia) ltac:(vm_compute; reflexivity)
           : peek (page_buffer (fst (process_new_block sf d))) (28 + Z.of_nat 0)
             = _).
  rewrite (Hpayload 1 ltac:(lia) ltac:(vm_compute; reflexivity)
           : peek (page_buffer (fst (process_new_block sf d))) (28 + Z.of_nat 1)
             = _).
  reflexivity.
Defined.

(** ** A read of the whole stream *)

Lemma oggs_page_size_positive n : 0 <= n -> 28 <= oggs_page_size n.
Proof.
  intros Hn. unfold oggs_page_size.
  assert (0 <= n / 255) by (apply Z.div_pos; lia). lia.
Qed.

Lemma sum_pages_nonneg sizes :
  Forall (page_fits sizeof_page_buffer) sizes ->
  0 <= sum_pages oggs_page_size sizes.
Proof.
  induction 1 as [|n sizes Hn _ IH]; cbn [sum_pages fold_right]; [lia|].
  fold (sum_pages oggs_page_size sizes).
  pose proof (oggs_page_size_positive n ltac:(apply Hn)). lia.
Qed.

(** The turn of the loop that builds the page of a packet and hands it out
    in full. *)
Lemma read_block_turn_serves sf d l data_size skip_size :
  packet_framing (type d) sf (physical_offset d)
                 (to_int (to_size_t (sequence d - 2))) = (data_size, skip_size) ->
  page_fits sizeof_page_buffer data_size ->
  page_size d = 0 ->
  0 <= logical_offset d < logical_size d ->
  logical_offset d + oggs_page_size data_size < 2 ^ 62 ->
  logical_size d < 2 ^ 62 ->
  offset_ l = logical_offset d ->
  oggs_page_size data_size <= length_ l < 2 ^ 63 ->
  0 <= total_read l -> total_read l + length_ l < 2 ^ 64 ->
  let d1 := fst (process_new_block sf d) in
  read_block_turn sf d l
  = Again d1
      (mk_read_locals
         (dest l ++ memcpy_from (page_buffer d1) 0 (page_size d1))
         (total_read l + oggs_page_size data_size)
         (logical_offset d + oggs_page_size data_size)
         (length_ l - oggs_page_size data_size)).
Proof.
  intros Hframe Hfit Hpage Hlo Hend Hsize Hoff Hlen Htotal Hsum d1.
  pose proof (oggs_page_size_positive data_size ltac:(apply Hfit)) as Hpos.
  subst d1. unfold read_block_turn.
  rewrite (to_size_t_small (logical_offset d)) by lia.
  replace (logical_offset d >=? logical_size d) with false
    by (symmetry; rewrite Z.geb_leb; apply Z.leb_gt; lia).
  rewrite Hpage. change (0 =? 0) with true. cbv iota.
  rewrite (process_new_block_built sf d data_size skip_size Hframe Hfit).
  cbv zeta. cbn [fst snd page_size logical_offset page_buffer].
  fold (oggs_page_size data_size).
  rewrite Hoff.
  rewrite (to_size_t_small (logical_offset d)) by lia.
  rewrite (to_size_t_small (logical_offset d + oggs_page_size data_size)) by lia.
  replace (logical_offset d >=? logical_offset d + oggs_page_size data_size)
    with false by (symmetry; rewrite Z.geb_leb; apply Z.leb_gt; lia).
  rewrite Z.sub_diag. change (to_size_t (to_off_t 0)) with 0.
  rewrite Z.sub_0_r.
  rewrite (to_size_t_small (oggs_page_size data_size)) by lia.
  replace (oggs_page_size data_size >? length_ l) with false
    by (symmetry; rewrite Z.gtb_ltb; apply Z.ltb_ge; lia).
  replace (oggs_page_size data_size =? 0) with false
    by (symmetry; apply Z.eqb_neq; lia).
  rewrite (to_size_t_small (total_read l + oggs_page_size data_size)) by lia.
  rewrite (to_off_t_small (logical_offset d + oggs_page_size data_size)) by lia.
  rewrite (to_size_t_small (length_ l - oggs_page_size data_size)) by lia.
  reflexivity.
Qed.

(** The turn after it: the request starts behind the page, so the cursors
    move to the next packet. *)
Lemma read_block_turn_moves sf d l :
  0 <= logical_offset d < logical_size d ->
  0 < page_size d -> logical_offset d + page_size d < 2 ^ 62 ->
  offset_ l = logical_offset d + page_size d ->
  read_block_turn sf d l = Again (move_to_next_block d) l.
Proof.
  intros Hlo Hpage Hend Hoff. unfold read_block_turn.
  rewrite (to_size_t_small (logical_offset d)) by lia.
  replace (logical_offset d >=? logical_size d) with false
    by (symmetry; rewrite Z.geb_leb; apply Z.leb_gt; lia).
  replace (page_size d =? 0) with false by (symmetry; apply Z.eqb_neq; lia).
  cbv iota beta. rewrite Hoff.
  rewrite (to_size_t_small (logical_offset d)) by lia.
  rewrite !(to_size_t_small (logical_offset d + page_size d)) by lia.
  replace (logical_offset d + page_size d >=? logical_offset d + page_size d)
    with true by (symmetry; rewrite Z.geb_leb; apply Z.leb_refl).
  reflexivity.
Qed.

(** The state at the next packet boundary. *)
Lemma next_block_state sf d data_size skip_size :
  packet_framing (type d) sf (physical_offset d)
                 (to_int (to_size_t (sequence d - 2))) = (data_size, skip_size) ->
  page_fits sizeof_page_buffer data_size ->
  let d1 := fst (process_new_block sf d) in
  let d2 := move_to_next_block d1 in
  (type d1 = type d /\ logical_offset d1 = logical_offset d
   /\ logical_size d1 = logical_size d
   /\ page_size d1 = oggs_page_size data_size)
  /\ type d2 = type d
  /\ physical_offset d2
     = to_off_t (to_size_t (physical_offset d) + to_size_t (data_size + skip_size))
  /\ logical_offset d2
     = to_off_t (to_size_t (logical_offset d) + oggs_page_size data_size)
  /\ page_size d2 = 0
  /\ sequence d2 = to_size_t (sequence d + 1)
  /\ logical_size d2 = logical_size d
  /\ List.length (page_buffer d2) = List.length (page_buffer d).
Proof.
  intros Hframe Hfit d1 d2. subst d2 d1.
  rewrite (process_new_block_built sf d data_size skip_size Hframe Hfit).
  cbv zeta. unfold move_to_next_block, oggs_page_size.
  cbn. rewrite make_oggs_page_length. unfold read_streamfile.
  rewrite memcpy_to_length. repeat split.
Qed.

Lemma read_blocks_at_end sf d l fuel :
  0 <= logical_offset d < 2 ^ 62 -> logical_size d = logical_offset d ->
  (1 <= fuel)%nat ->
  read_blocks fuel sf d l = Some (d, l).
Proof.
  intros Hlo Hend Hfuel. destruct fuel as [|fuel]; [lia|].
  cbn [read_blocks]. destruct (length_ l >? 0); [|reflexivity].
  unfold read_block_turn.
  rewrite (to_size_t_small (logical_offset d)) by lia.
  replace (logical_offset d >=? logical_size d) with true
    by (symmetry; rewrite Z.geb_leb; apply Z.leb_le; lia).
  reflexivity.
Qed.

(** From a packet boundary, a request that reaches to the end of the
    logical stream is served page by page, in two turns of the loop for
    each packet. *)
Lemma read_blocks_serves_pages sf ty max_physical_offset walk_fuel :
  forall po pk sizes d l fuel,
  discovered_packets walk_fuel sf ty po max_physical_offset pk = Some sizes ->
  Forall (page_fits sizeof_page_buffer) sizes ->
  type d = ty -> physical_offset d = po -> page_size d = 0 ->
  sequence d = pk + 2 ->
  0 <= pk -> pk + Z.of_nat (List.length sizes) < 2 ^ 31 ->
  0 <= logical_offset d ->
  logical_size d = logical_offset d + sum_pages oggs_page_size sizes ->
  logical_size d < 2 ^ 62 ->
  offset_ l = logical_offset d ->
  sum_pages oggs_page_size sizes <= length_ l < 2 ^ 63 ->
  0 <= total_read l -> total_read l + length_ l < 2 ^ 64 ->
  (2 * List.length sizes + 1 <= fuel)%nat ->
  exists d' l',
    read_blocks fuel sf d l = Some (d', l')
    /\ dest l' = dest l ++ served_pages (List.length sizes) sf d
    /\ total_read l' = total_read l + sum_pages oggs_page_size sizes
    /\ length_ l' = length_ l - sum_pages oggs_page_size sizes.
Proof.
  induction walk_fuel as [|walk_fuel IH];
    intros po pk sizes d l fuel Hwalk Hfits Hty Hpo Hpage Hseq Hpk Hcount
           Hlo Hsize Hbound Hoff Hlen Htotal Hsum Hfuel;
    cbn [discovered_packets] in Hwalk;
    destruct (po <? max_physical_offset); try discriminate.
  1, 3: injection Hwalk as <-; cbn [sum_pages fold_right] in *;
    exists d, l; rewrite read_blocks_at_end by lia;
    cbn [served_pages List.length]; rewrite app_nil_r;
    repeat split; lia.
  destruct (packet_framing ty sf po pk) as [data_size skip_size] eqn:Hframe.
  destruct (discovered_packets walk_fuel sf ty _ max_physical_offset _)
    as [rest|] eqn:Hrest; [|discriminate].
  cbn [option_map] in Hwalk. injection Hwalk as <-.
  inversion Hfits as [|n ns Hfit Hfits_rest]; subst n ns.
  cbn [sum_pages fold_right List.length] in *.
  fold (sum_pages oggs_page_size rest) in *.
  pose proof (sum_pages_nonneg rest Hfits_rest) as Hrest_sum.
  pose proof (oggs_page_size_positive data_size ltac:(apply Hfit)) as Hpos.
  assert (Hframe' : packet_framing (type d) sf (physical_offset d)
                      (to_int (to_size_t (sequence d - 2)))
                    = (data_size, skip_size)).
  { rewrite Hty, Hpo, Hseq. replace (pk + 2 - 2) with pk by lia.
    rewrite to_size_t_small, to_int_small by lia. exact Hframe. }
  destruct (next_block_state sf d data_size skip_size Hframe' Hfit)
    as ((Hty1 & Hlo1 & Hsize1 & Hpage1) & Hty2 & Hpo2 & Hlo2 & Hpage2 & Hseq2
        & Hsize2 & Hbuf2).
  destruct fuel as [|[|fuel]]; [lia | lia |].
  cbn [read_blocks].
  replace (length_ l >? 0) with true
    by (symmetry; rewrite Z.gtb_ltb; apply Z.ltb_lt; lia).
  rewrite (read_block_turn_serves sf d l data_size skip_size Hframe' Hfit)
    by (assumption || lia).
  cbn [length_].
  set (d1 := fst (process_new_block sf d)) in *.
  set (l1 := mk_read_locals _ _ _ _).
  destruct (Z.gtb_spec (length_ l - oggs_page_size data_size) 0) as [Hmore|Hdone].
  - rewrite (read_block_turn_moves sf d1 l1)
      by (subst l1; cbn [offset_]; lia).
    destruct (IH _ _ rest (move_to_next_block d1) l1 fuel Hrest Hfits_rest)
      as (d' & l' & Hrun & Hdest & Htotal' & Hleft); subst l1;
      cbn [offset_ length_ total_read dest] in *;
      try (rewrite ?Hty2, ?Hpo2, ?Hlo2, ?Hpage2, ?Hseq2, ?Hsize2, ?Hpo, ?Hty, ?Hseq;
           rewrite ?to_size_t_small, ?to_off_t_small, ?to_int_small by lia;
           first [reflexivity | lia]).
    exists d', l'. rewrite Hrun, Hdest, Htotal', Hleft.
    cbn [served_pages]. fold d1. rewrite <- app_assoc.
    repeat split; lia.
  - assert (Hnone : rest = []).
    { destruct rest as [|n rest]; [reflexivity|].
      inversion Hfits_rest as [|? ? Hfit_n Hfits_tail]; subst.
      cbn [sum_pages fold_right] in *.
      fold (sum_pages oggs_page_size rest) in *.
      pose proof (sum_pages_nonneg rest Hfits_tail).
      pose proof (oggs_page_size_positive n ltac:(apply Hfit_n)). lia. }
    subst rest. cbn [sum_pages fold_right List.length served_pages] in *.
    exists d1, l1. subst l1. cbn [dest total_read length_].
    fold d1. rewrite app_nil_r. repeat split; lia.
Qed.

(** The state [setup_opus_streamfile] hands over. *)
Lemma setup_opus_streamfile_state fuel sf channels skip sample_rate
    region_offset region_size ty d :
  setup_opus_streamfile fuel sf channels skip sample_rate
                        region_offset region_size ty = Some (Some d) ->
  exists logical,
    d = mk_opus_io_data ty region_offset region_size 0 region_offset 0 0
          (repeat 0 (Z.to_nat sizeof_page_buffer)) 2 0
          (fst (make_oggs_first (repeat 0 (Z.to_nat 0x100)) 0x100
                  channels skip sample_rate))
          128 logical
    /\ (logical <> 0 ->
        exists sizes,
          discovered_packets fuel sf ty region_offset
            (to_off_t (to_size_t region_offset + region_size)) 0 = Some sizes
          /\ (Forall (fun p => p < 2 ^ 31) sizes ->
              logical = to_size_t (128 + sum_pages oggs_page_size sizes))).
Proof.
  unfold setup_opus_streamfile.
  pose proof (make_oggs_first_size channels skip sample_rate) as Hsize.
  destruct (make_oggs_first _ _ channels skip sample_rate) as [hb hs].
  cbn [fst snd] in *. subst hs. change (128 =? 0) with false. cbv iota.
  unfold opus_io_size.
  cbn [logical_size stream_offset stream_size type head_size].
  change (negb (0 =? 0)) with false. cbv iota.
  destruct (_ >? get_streamfile_size sf).
  { intros [= <-]. eexists. split; [reflexivity|]. intros Hnz. congruence. }
  destruct (size_walk _ _ _ _ _ _ _) as [[[po' ls'] pk']|] eqn:Hwalk;
    [|discriminate].
  destruct (_ >? get_streamfile_size sf).
  { intros [= <-]. eexists. split; [reflexivity|]. intros Hnz. congruence. }
  intros [= <-]. eexists. split; [reflexivity|]. intros _.
  apply size_walk_sum in Hwalk; [|lia].
  destruct Hwalk as (sizes & Hd & Hsum). exists sizes. split; assumption.
Qed.

Lemma sum_pages_bound sizes :
  Forall (page_fits sizeof_page_buffer) sizes ->
  sum_pages oggs_page_size sizes <= 0x2000 * Z.of_nat (List.length sizes).
Proof.
  induction 1 as [|n sizes Hn _ IH]; cbn [sum_pages fold_right List.length];
    [lia|].
  fold (sum_pages oggs_page_size sizes).
  destruct Hn as (_ & _ & Hroom). unfold sizeof_page_buffer in Hroom.
  unfold oggs_page_size at 1. lia.
Qed.

Lemma page_fits_int32 sizes :
  Forall (page_fits sizeof_page_buffer) sizes ->
  Forall (fun p => p < 2 ^ 31) sizes.
Proof.
  apply Forall_impl. intros n (Hn & _ & Hroom).
  unfold sizeof_page_buffer in Hroom.
  assert (0 <= n / 255) by (apply Z.div_pos; lia). lia.
Qed.

(** X13.  A read of the whole stream from the constructed reframer, when
    every packet's page fits the page buffer: it returns, it serves exactly
    [logical_size] bytes, the size [opus_io_size] promised, and these are
    the 128 bytes of the prelude and then, packet after packet, the page
    [process_new_block] builds. *)
Theorem full_read_serves_logical_size (walk_fuel fuel : nat) (sf : STREAMFILE)
    (channels skip sample_rate region_offset region_size : Z)
    (ty : opus_type_t) (d : opus_io_data) (sizes : list Z) (length : Z) :
  setup_opus_streamfile walk_fuel sf channels skip sample_rate
                        region_offset region_size ty = Some (Some d) ->
  logical_size d <> 0 ->
  discovered_packets walk_fuel sf ty region_offset
    (to_off_t (to_size_t region_offset + region_size)) 0 = Some sizes ->
  Forall (page_fits sizeof_page_buffer) sizes ->
  Z.of_nat (List.length sizes) < 2 ^ 31 ->
  logical_size d <= length < 2 ^ 63 ->
  (2 * List.length sizes + 1 <= fuel)%nat ->
  logical_size d = head_size d + sum_pages oggs_page_size sizes
  /\ exists d',
       opus_io_read fuel sf d 0 length
       = Some (d',
               memcpy_from (head_buffer d) 0 (head_size d)
               ++ served_pages (List.length sizes) sf
                    (set_logical_offset (head_size d) d),
               logical_size d).
Proof.
  intros Hsetup Hnz Hwalk Hfits Hcount Hlen Hfuel.
  destruct (setup_opus_streamfile_state _ _ _ _ _ _ _ _ _ Hsetup)
    as (logical & -> & Hlogical).
  cbn [logical_size head_size head_buffer] in *.
  destruct (Hlogical Hnz) as (sizes' & Hwalk' & Hsum).
  rewrite Hwalk in Hwalk'. injection Hwalk' as <-.
  specialize (Hsum (page_fits_int32 _ Hfits)).
  pose proof (sum_pages_bound _ Hfits) as Hbound.
  pose proof (sum_pages_nonneg _ Hfits) as Hnonneg.
  rewrite to_size_t_small in Hsum by lia.
  split; [exact Hsum|].
  unfold opus_io_read, opus_io_read_entry, bad_read.
  cbn [logical_size]. change (0 <? 0) with false. change (to_size_t 0) with 0.
  replace (0 >? logical) with false
    by (symmetry; rewrite Z.gtb_ltb; apply Z.ltb_ge; lia).
  cbn [orb]. unfold restart_if_previous. cbn [logical_offset].
  change (0 <? 0) with false. cbv iota.
  unfold insert_fake_header.
  cbn [offset_ length_ dest total_read head_size head_buffer logical_offset].
  change (to_size_t 0 <? 128) with true. cbv iota.
  change (to_size_t (to_off_t (0 - 0))) with 0.
  change (to_size_t (128 - 0)) with 128.
  replace (128 >? length) with false
    by (symmetry; rewrite Z.gtb_ltb; apply Z.ltb_ge; lia).
  change (to_off_t (to_size_t 0 + 128)) with 128.
  change (to_size_t (0 + 128)) with 128. cbn [app].
  rewrite (to_size_t_small (length - 128)) by lia.
  unfold set_logical_offset at 1.
  cbn [type stream_offset stream_size physical_offset block_size page_size
       page_buffer sequence samples_done head_buffer head_size logical_size].
  match goal with
  | |- context [read_blocks fuel sf ?d0 ?l0] =>
      destruct (read_blocks_serves_pages sf ty _ walk_fuel region_offset 0 sizes
                  d0 l0 fuel Hwalk Hfits)
        as (d' & l' & Hrun & Hdest & Htotal & _);
        cbn [type physical_offset page_size sequence logical_offset
             logical_size offset_ length_ total_read];
        try first [reflexivity | lia]
  end.
  rewrite Hrun, Hdest, Htotal. cbn [dest total_read].
  exists d'. unfold set_logical_offset.
  cbn [type stream_offset stream_size physical_offset block_size page_size
       page_buffer sequence samples_done head_buffer head_size logical_size].
  do 2 f_equal. lia.
Qed.

Lemma full_read_serves_logical_size_witness :
  let sf := Scenario.ue4_source in
  let d := Scenario.the (Scenario.reframer 16 sf OPUS_UE4) in
  (setup_opus_streamfile 16 sf 2 312 48000 0 8 OPUS_UE4 = Some (Some d)
   /\ discovered_packets 16 sf OPUS_UE4 0 (to_off_t (to_size_t 0 + 8)) 0
      = Some [2; 2]
   /\ logical_size d = 188)
  /\ exists d' out, opus_io_read 5 sf d 0 200 = Some (d', out, 188).
Proof.
  intros sf d.
  assert (Hsetup : setup_opus_streamfile 16 sf 2 312 48000 0 8 OPUS_UE4
                   = Some (Some d)) by (vm_compute; reflexivity).
  assert (Hwalk : discovered_packets 16 sf OPUS_UE4 0
                    (to_off_t (to_size_t 0 + 8)) 0 = Some [2; 2])
    by (vm_compute; reflexivity).
  assert (Hsize : logical_size d = 188) by (vm_compute; reflexivity).
  split; [repeat split; assumption|].
  destruct (full_read_serves_logical_size 16 5 sf 2 312 48000 0 8 OPUS_UE4 d
              [2; 2] 200 Hsetup)
    as (_ & d' & Hread).
  - rewrite Hsize. discriminate.
  - exact Hwalk.
  - repeat constructor; vm_compute; congruence.
  - vm_compute. reflexivity.
  - rewrite Hsize. lia.
  - cbn. lia.
  - rewrite Hsize in Hread. eexists. eexists. exact Hread.
Defined.

(** ** The size of a UE4 or EA stream *)

Lemma framing_16bit ty sf po pk :
  ty = OPUS_UE4 \/ ty = OPUS_EA ->
  exists ds, packet_framing ty sf po pk = (ds, 2) /\ 0 <= ds < 2 ^ 16.
Proof.
  intros [-> | ->].
  - exists (source_le16 sf po). split;
      [apply framing_ue4 | apply source_le16_range].
  - exists (source_be16 sf po). split;
      [apply framing_ea | apply source_be16_range].
Qed.

(** Each packet moves the walk by at least two bytes and adds a page that
    is larger than the packet and at most 14 times as large. *)
Lemma size_walk_16bit_grows sf ty max_physical_offset fuel :
  forall po ls pk po' ls' pk',
  ty = OPUS_UE4 \/ ty = OPUS_EA ->
  0 <= po <= max_physical_offset + 65536 -> max_physical_offset < 2 ^ 40 ->
  0 <= ls -> ls + 14 * (max_physical_offset + 65536 - po) < 2 ^ 63 ->
  size_walk fuel sf ty po max_physical_offset ls pk = Some (po', ls', pk') ->
  max_physical_offset <= po' <= max_physical_offset + 65536
  /\ po <= po'
  /\ ls + (po' - po) <= ls' <= ls + 14 * (po' - po).
Proof.
  induction fuel as [|fuel IH]; intros po ls pk po' ls' pk' Hty Hpo Hmax Hls Hroom;
    cbn [size_walk]; destruct (Z.ltb_spec po max_physical_offset) as [Hlt|Hge];
    try discriminate; try (intros [= <- <- <-]; lia).
  destruct (framing_16bit ty sf po pk Hty) as (ds & -> & Hds).
  assert (Hq : 0 <= ds / 255 <= ds).
  { split; [apply Z.div_pos; lia|]. apply Z.div_le_upper_bound; lia. }
  rewrite (to_size_t_small po), (to_size_t_small (ds + 2)) by lia.
  rewrite to_off_t_small by lia.
  rewrite oggs_size_of_int32 by lia.
  rewrite (to_size_t_small (27 + (ds / 255 + 1) + ds)) by lia.
  rewrite (to_size_t_small (ls + _)) by lia.
  intros Hwalk. apply IH in Hwalk; try assumption; lia.
Qed.

(** X14.  For a UE4 or EA stream [opus_io_size] always returns.  It
    returns 0, leaving the state as it was, or the size it stores in the
    state: then the region lies inside the source, and the logical stream is
    larger than the header and the region together, and at most 14 times
    the region and its last packet. *)
Theorem opus_io_size_16bit (fuel : nat) (sf : STREAMFILE) (d : opus_io_data) :
  type d = OPUS_UE4 \/ type d = OPUS_EA ->
  logical_size d = 0 ->
  0 <= stream_offset d -> 0 <= stream_size d ->
  stream_offset d + stream_size d < 2 ^ 40 ->
  0 <= head_size d < 2 ^ 40 ->
  stream_size d <= Z.of_nat fuel ->
  exists n,
    opus_io_size fuel sf d = Some (set_logical_size n d, n)
    /\ (n = 0
        \/ (stream_offset d + stream_size d <= get_streamfile_size sf
            /\ head_size d + stream_size d <= n
               <= head_size d + 14 * (stream_size d + 65536))).
Proof.
  intros Hty Hzero Hso Hss Hmax Hhead Hfuel.
  assert (Hsame : set_logical_size 0 d = d)
    by (destruct d; cbn in *; subst; reflexivity).
  unfold opus_io_size. rewrite Hzero. change (negb (0 =? 0)) with false.
  cbv iota.
  rewrite (to_size_t_small (stream_offset d)) by lia.
  rewrite (to_size_t_small (stream_offset d + stream_size d)) by lia.
  rewrite to_off_t_small by lia.
  destruct (Z.gtb_spec (stream_offset d + stream_size d) (get_streamfile_size sf))
    as [Hpast|Hinside].
  { exists 0. rewrite Hsame. split; [reflexivity | now left]. }
  destruct (size_walk_16bit_ends sf (type d) (stream_offset d + stream_size d)
              fuel (stream_offset d) (head_size d) 0 Hty Hso ltac:(lia)
              ltac:(lia)) as [[[po' ls'] pk'] Hwalk].
  rewrite Hwalk.
  destruct (size_walk_16bit_grows sf (type d)
              (stream_offset d + stream_size d) fuel (stream_offset d)
              (head_size d) 0 po' ls' pk' Hty
              ltac:(lia) Hmax ltac:(lia) ltac:(lia) Hwalk)
    as (Hend & Hadvance & Hgrow).
  rewrite (to_size_t_small po') by lia.
  destruct (po' >? get_streamfile_size sf).
  - exists 0. rewrite Hsame. split; [reflexivity | now left].
  - exists ls'. split; [reflexivity|]. right. lia.
Qed.

Lemma opus_io_size_16bit_witness :
  let sf := Scenario.ue4_source in
  let d := mk_opus_io_data OPUS_UE4 0 8 0 0 0 0 [] 2 0 [] 128 0 in
  opus_io_size 8 sf d = Some (set_logical_size 188 d, 188).
Proof.
  intros sf d.
  assert (Hty : type d = OPUS_UE4 \/ type d = OPUS_EA) by (left; reflexivity).
  assert (Hzero : logical_size d = 0) by reflexivity.
  assert (Hso : 0 <= stream_offset d) by (cbn [stream_offset d]; lia).
  assert (Hss : 0 <= stream_size d) by (cbn [stream_size d]; lia).
  assert (Hmax : stream_offset d + stream_size d < 2 ^ 40)
    by (cbn [stream_offset stream_size d]; lia).
  assert (Hhead : 0 <= head_size d < 2 ^ 40) by (cbn [head_size d]; lia).
  assert (Hfuel : stream_size d <= Z.of_nat 8) by (cbn [stream_size d]; lia).
  destruct (opus_io_size_16bit 8 sf d Hty Hzero Hso Hss Hmax Hhead Hfuel)
    as (n & Hsize & _).
  rewrite Hsize. vm_compute in Hsize. injection Hsize as _ <-. reflexivity.
Defined.

(** ** Counting the samples of a stream *)

Lemma multiple_of_120_add a b :
  a mod 120 = 0 -> b mod 120 = 0 -> (a + b) mod 120 = 0.
Proof. intros Ha Hb. now rewrite Z.add_mod, Ha, Hb by lia. Qed.

(** The loop of [custom_opus_get_samples] steps through the packets as the
    loop of [opus_io_size] does. *)
Lemma samples_walk_follows sf ty uninit end_offset fuel :
  forall offset num_samples packet sizes,
  discovered_packets fuel sf ty offset end_offset packet = Some sizes ->
  0 <= num_samples ->
  num_samples + 181440 * Z.of_nat (List.length sizes) < 2 ^ 64 ->
  num_samples mod 120 = 0 ->
  exists n,
    samples_walk fuel sf ty uninit offset end_offset num_samples packet = Some n
    /\ num_samples <= n <= num_samples + 181440 * Z.of_nat (List.length sizes)
    /\ n mod 120 = 0.
Proof.
  induction fuel as [|fuel IH];
    intros offset num packet sizes Hwalk Hnum Hroom Hmul;
    cbn [samples_walk discovered_packets] in *;
    destruct (offset <? end_offset); try discriminate;
    try (injection Hwalk as <-; cbn [List.length] in *;
         exists num; split; [reflexivity|]; split; [lia | exact Hmul]).
  destruct (packet_framing ty sf offset packet) as [data_size skip_size].
  destruct (discovered_packets fuel sf ty _ end_offset _) as [rest|] eqn:Hrest;
    [|discriminate].
  cbn [option_map] in Hwalk. injection Hwalk as <-.
  cbn [List.length] in *.
  match goal with
  | |- context [opus_get_packet_samples ?b 0 4] =>
      destruct (packet_samples_range b 0 4) as [Hs Hs120];
      set (samples := opus_get_packet_samples b 0 4) in *
  end.
  rewrite (to_size_t_small (num + samples)) by lia.
  rewrite (Z.add_comm skip_size data_size).
  destruct (IH _ (num + samples) _ rest Hrest)
    as (n & Hrun & Hn & Hn120); try lia.
  - now apply multiple_of_120_add.
  - exists n. split; [exact Hrun|]. split; [lia | exact Hn120].
Qed.

(** X15.  [custom_opus_get_samples] cuts a region that runs past the end of
    the source at that end, and then visits the packets the size walk of
    [opus_io_size] visits: where that walk ends, it returns, with at most
    181440 samples for each packet and a multiple of 120 in all. *)
Theorem custom_opus_get_samples_follows_size_walk (fuel : nat)
    (uninit : Z -> list Z) (offset data_size : Z) (sf : STREAMFILE)
    (ty : opus_type_t) (sizes : list Z) :
  0 <= offset -> 0 <= data_size -> offset + data_size < 2 ^ 63 ->
  get_streamfile_size sf < 2 ^ 63 ->
  discovered_packets fuel sf ty offset
    (Z.min (offset + data_size) (get_streamfile_size sf)) 0 = Some sizes ->
  Z.of_nat (List.length sizes) < 2 ^ 40 ->
  exists n,
    custom_opus_get_samples fuel uninit offset data_size sf ty = Some n
    /\ 0 <= n <= 181440 * Z.of_nat (List.length sizes)
    /\ n mod 120 = 0.
Proof.
  intros Hoff Hsize Hend Hsource Hwalk Hcount.
  unfold custom_opus_get_samples. cbv zeta.
  rewrite (to_size_t_small offset) by lia.
  rewrite (to_off_t_small (offset + data_size)) by lia.
  rewrite (to_size_t_small (offset + data_size)) by lia.
  assert (Hclamp : (if offset + data_size >? get_streamfile_size sf
                    then to_off_t (get_streamfile_size sf)
                    else offset + data_size)
                   = Z.min (offset + data_size) (get_streamfile_size sf)).
  { unfold get_streamfile_size in *.
    destruct (Z.gtb_spec (offset + data_size) (Z.of_nat (List.length sf)));
      [rewrite to_off_t_small by lia|]; lia. }
  rewrite Hclamp.
  destruct (samples_walk_follows sf ty uninit _ fuel offset 0 0 sizes Hwalk)
    as (n & Hrun & Hn & Hn120); try lia; [reflexivity|].
  exists n. split; [exact Hrun|]. split; [lia | exact Hn120].
Qed.

Lemma custom_opus_get_samples_follows_size_walk_witness :
  let sf := [0; 0; 0; 2; 0; 0; 0; 0; 0x0B; 0x05] in
  discovered_packets 4 sf OPUS_SWITCH 0 (Z.min (0 + 64) (get_streamfile_size sf)) 0
  = Some [2]
  /\ switch_opus_get_samples 4 (fun _ => [0; 0; 0; 0]) 0 64 sf = Some 4800.
Proof.
  intros sf.
  assert (Hwalk : discovered_packets 4 sf OPUS_SWITCH 0
                    (Z.min (0 + 64) (get_streamfile_size sf)) 0 = Some [2])
    by (vm_compute; reflexivity).
  split; [exact Hwalk|].
  assert (Hoff : 0 <= 0) by lia.
  assert (Hsize : 0 <= 64) by lia.
  assert (Hend : 0 + 64 < 2 ^ 63) by lia.
  assert (Hsource : get_streamfile_size sf < 2 ^ 63)
    by (vm_compute; reflexivity).
  assert (Hcount : Z.of_nat (List.length [2]) < 2 ^ 40)
    by (vm_compute; reflexivity).
  destruct (custom_opus_get_samples_follows_size_walk 4 (fun _ => [0; 0; 0; 0])
              0 64 sf OPUS_SWITCH [2] Hoff Hsize Hend Hsource Hwalk Hcount)
    as (n & Hrun & _).
  unfold switch_opus_get_samples. rewrite Hrun.
  vm_compute in Hrun. injection Hrun as <-. reflexivity.
Defined.

(** The walk of [custom_opus_get_samples] at a packet that moves it on by 0
    bytes. *)
Lemma samples_walk_stuck sf ty uninit offset end_offset :
  0 <= offset < 2 ^ 63 -> offset < end_offset ->
  (forall packet,
     to_size_t (snd (packet_framing ty sf offset packet)
                + fst (packet_framing ty sf offset packet)) = 0) ->
  forall fuel num_samples packet,
    samples_walk fuel sf ty uninit offset end_offset num_samples packet = None.
Proof.
  intros Hoff Hlt Hstuck fuel.
  induction fuel as [|fuel IH]; intros num packet; cbn [samples_walk];
    replace (offset <? end_offset) with true
      by (symmetry; apply Z.ltb_lt; lia);
    [reflexivity|].
  specialize (Hstuck packet).
  destruct (packet_framing ty sf offset packet) as [data_size skip_size].
  cbn [fst snd] in Hstuck. rewrite Hstuck, Z.add_0_r.
  rewrite (to_size_t_small offset) by lia.
  rewrite (to_off_t_small offset) by lia.
  apply IH.
Qed.

(** X16.  [switch_opus_get_samples] never returns when the size field of a
    packet inside the region reads -8: the packet then moves the walk on by
    [8 + (2^64 - 8)], which is 0 in [size_t], and the loop has no other way
    out. *)
Theorem switch_opus_get_samples_never_returns (uninit : Z -> list Z)
    (offset data_size : Z) (sf : STREAMFILE) :
  0 <= offset < get_streamfile_size sf -> get_streamfile_size sf < 2 ^ 63 ->
  0 < data_size -> offset + data_size < 2 ^ 63 ->
  read_32bitBE offset sf = -8 ->
  forall fuel, switch_opus_get_samples fuel uninit offset data_size sf = None.
Proof.
  intros Hoff Hsource Hsize Hend Hfield fuel.
  unfold switch_opus_get_samples, custom_opus_get_samples. cbv zeta.
  apply samples_walk_stuck.
  - lia.
  - rewrite (to_size_t_small offset) by lia.
    rewrite (to_off_t_small (offset + data_size)) by lia.
    rewrite (to_size_t_small (offset + data_size)) by lia.
    destruct (_ >? _); [rewrite to_off_t_small by lia|]; lia.
  - intros packet. cbn [packet_framing fst snd]. rewrite Hfield. reflexivity.
Qed.

Lemma switch_opus_get_samples_never_returns_witness :
  read_32bitBE 0 Scenario.switch_stuck_source = -8
  /\ forall fuel,
       switch_opus_get_samples fuel (fun _ => [0; 0; 0; 0]) 0 8
                               Scenario.switch_stuck_source = None.
Proof.
  assert (Hfield : read_32bitBE 0 Scenario.switch_stuck_source = -8)
    by (vm_compute; reflexivity).
  split; [exact Hfield|].
  assert (Hoff : 0 <= 0 < get_streamfile_size Scenario.switch_stuck_source)
    by (vm_compute; split; congruence).
  assert (Hsource : get_streamfile_size Scenario.switch_stuck_source < 2 ^ 63)
    by (vm_compute; reflexivity).
  assert (Hsize : 0 < 8) by lia.
  assert (Hend : 0 + 8 < 2 ^ 63) by lia.
  exact (switch_opus_get_samples_never_returns (fun _ => [0; 0; 0; 0]) 0 8
           Scenario.switch_stuck_source Hoff Hsource Hsize Hend Hfield).
Defined.

(** ** Encoder delay *)

(** X17.  The encoder delay is read off the first two payload bytes of the
    packet at [offset], behind the size field of the variant: when the
    source holds them, the result is the packet's sample count divided by 8,
    the division is exact, the result is a multiple of 15 and at most
    22680, and what the local buffer held before makes no difference. *)
Theorem custom_opus_get_encoder_delay_spec (uninit : list Z) (offset : Z)
    (sf : STREAMFILE) (ty : opus_type_t) :
  let skip_size :=
    match ty with
    | OPUS_SWITCH => 0x08
    | OPUS_UE4 | OPUS_EA => 0x02
    | OPUS_X => 0x00
    end in
  let payload := offset + skip_size in
  let samples :=
    opus_get_packet_samples
      [source_byte sf payload; source_byte sf (payload + 1)] 0 2 in
  0 <= offset < 2 ^ 62 -> List.length uninit = 4%nat ->
  payload + 2 <= get_streamfile_size sf ->
  custom_opus_get_encoder_delay uninit offset sf ty = samples / 8
  /\ 8 * (samples / 8) = samples
  /\ 0 <= samples / 8 <= 22680
  /\ (samples / 8) mod 15 = 0.
Proof.
  intros skip_size payload samples Hoff Huninit Hsource.
  assert (Hskip : 0 <= skip_size <= 8) by (subst skip_size; destruct ty; lia).
  assert (Hdelay : custom_opus_get_encoder_delay uninit offset sf ty
                   = samples / 8).
  { unfold custom_opus_get_encoder_delay. cbv zeta. fold skip_size.
    rewrite (to_size_t_small offset) by lia.
    rewrite (to_off_t_small (offset + skip_size)) by lia.
    fold payload. f_equal. subst samples.
    rewrite !packet_samples_product.
    rewrite (nb_frames_two_bytes _ 0 4 2) by lia.
    rewrite <- !packet_samples_product.
    apply opus_get_packet_samples_ext.
    - pose proof (read_streamfile_peek uninit 0 payload 4 sf 0) as Hfirst.
      rewrite Huninit, Z.add_0_r in Hfirst. change (0 + 0) with 0 in Hfirst.
      rewrite Hfirst by lia. reflexivity.
    - pose proof (read_streamfile_peek uninit 0 payload 4 sf 1) as Hsecond.
      rewrite Huninit in Hsecond.
      rewrite Hsecond by lia. reflexivity. }
  destruct (packet_samples_range
              [source_byte sf payload; source_byte sf (payload + 1)] 0 2)
    as [Hrange Hmultiple].
  fold samples in Hrange, Hmultiple.
  apply Z.mod_divide in Hmultiple; [|lia].
  destruct Hmultiple as [k Hk].
  assert (Heighth : samples / 8 = 15 * k).
  { rewrite Hk. replace (k * 120) with (15 * k * 8) by lia.
    apply Z.div_mul. lia. }
  split; [exact Hdelay|]. rewrite Heighth. split; [lia|]. split; [lia|].
  rewrite Z.mul_comm. apply Z.mod_mul. lia.
Qed.

Lemma custom_opus_get_encoder_delay_spec_witness :
  let sf := [0; 0; 0; 2; 0; 0; 0; 0; 0x0B; 0x05] in
  (0 <= 0 < 2 ^ 62 /\ 0 + 8 + 2 <= get_streamfile_size sf)
  /\ switch_opus_get_encoder_delay [9; 9; 9; 9] 0 sf = 600.
Proof.
  intros sf.
  assert (Hoff : 0 <= 0 < 2 ^ 62) by lia.
  assert (Hsource : 0 + 8 + 2 <= get_streamfile_size sf)
    by (vm_compute; congruence).
  split; [split; assumption|].
  destruct (custom_opus_get_encoder_delay_spec [9; 9; 9; 9] 0 sf OPUS_SWITCH
              Hoff eq_refl Hsource) as (Hdelay & _).
  unfold switch_opus_get_encoder_delay. rewrite Hdelay. reflexivity.
Defined.

(** ** The checksum as a polynomial division *)

Lemma crc_lookup_generated_all :
  forallb (fun i => peek crc_lookup (Z.of_nat i)
                    =? Nat.iter 8 crc_shift (Z.shiftl (Z.of_nat i) 24))
          (seq 0 256) = true.
Proof. vm_compute. reflexivity. Qed.

(** Every entry of the table is the remainder of its index. *)
Lemma crc_lookup_generated i :
  0 <= i < 256 ->
  peek crc_lookup i = Nat.iter 8 crc_shift (Z.shiftl i 24).
Proof.
  intros Hi. pose proof crc_lookup_generated_all as Hall.
  rewrite forallb_forall in Hall.
  specialize (Hall (Z.to_nat i)). rewrite Z2Nat.id in Hall by lia.
  apply Z.eqb_eq, Hall, in_seq. lia.
Qed.

Lemma to_uint32_lxor a b :
  to_uint32 (Z.lxor a b) = Z.lxor (to_uint32 a) (to_uint32 b).
Proof.
  unfold to_uint32, wrap_unsigned. rewrite <- !Z.land_ones by lia.
  apply Z.bits_inj'. intros n Hn.
  rewrite !Z.land_spec, !Z.lxor_spec, !Z.land_spec.
  destruct (Z.testbit a n), (Z.testbit b n), (Z.testbit (Z.ones 32) n);
    reflexivity.
Qed.

(** The division step is linear over exclusive or. *)
Lemma crc_shift_lxor x y :
  crc_shift (Z.lxor x y) = Z.lxor (crc_shift x) (crc_shift y).
Proof.
  unfold crc_shift. cbv zeta.
  rewrite Z.shiftl_lxor, to_uint32_lxor, Z.lxor_spec.
  set (sx := to_uint32 (Z.shiftl x 1)). set (sy := to_uint32 (Z.shiftl y 1)).
  destruct (Z.testbit x 31), (Z.testbit y 31); cbn [xorb];
    apply Z.bits_inj'; intros n Hn; rewrite !Z.lxor_spec;
    destruct (Z.testbit sx n), (Z.testbit sy n),
             (Z.testbit 79764919 n); reflexivity.
Qed.

Lemma crc_shifts_lxor k : forall x y,
  Nat.iter k crc_shift (Z.lxor x y)
  = Z.lxor (Nat.iter k crc_shift x) (Nat.iter k crc_shift y).
Proof.
  induction k as [|k IH]; intros x y; [reflexivity|].
  rewrite !Nat.iter_succ. now rewrite IH, crc_shift_lxor.
Qed.

Lemma crc_shift_low v : 0 <= v < 2 ^ 31 -> crc_shift v = 2 * v.
Proof.
  intros Hv. unfold crc_shift. cbv zeta.
  replace (Z.testbit v 31) with false.
  - rewrite Z.shiftl_mul_pow2 by lia. rewrite to_uint32_small; lia.
  - symmetry. destruct (Z.eq_dec v 0) as [->|Hne]; [apply Z.bits_0|].
    apply Z.bits_above_log2; [lia|]. apply Z.log2_lt_pow2; lia.
Qed.

Lemma crc_shifts_low v :
  0 <= v < 2 ^ 24 -> Nat.iter 8 crc_shift v = 256 * v.
Proof.
  intros Hv. rewrite !Nat.iter_succ. change (Nat.iter 0 crc_shift v) with v.
  rewrite (crc_shift_low v) by lia.
  rewrite (crc_shift_low (2 * v)) by lia.
  rewrite (crc_shift_low (2 * (2 * v))) by lia.
  rewrite (crc_shift_low (2 * (2 * (2 * v)))) by lia.
  rewrite (crc_shift_low (2 * (2 * (2 * (2 * v))))) by lia.
  rewrite (crc_shift_low (2 * (2 * (2 * (2 * (2 * v)))))) by lia.
  rewrite (crc_shift_low (2 * (2 * (2 * (2 * (2 * (2 * v))))))) by lia.
  rewrite (crc_shift_low (2 * (2 * (2 * (2 * (2 * (2 * (2 * v)))))))) by lia.
  lia.
Qed.

(** A register as its low 24 bits and its top byte. *)
Lemma register_split r :
  0 <= r -> r = Z.lxor (r mod 2 ^ 24) (Z.shiftl (Z.shiftr r 24) 24).
Proof.
  intros Hr. apply Z.bits_inj'. intros n Hn. rewrite Z.lxor_spec.
  destruct (Z_lt_dec n 24) as [Hlow|Hhigh].
  - rewrite Z.mod_pow2_bits_low by lia.
    rewrite Z.shiftl_spec_low by lia. now rewrite xorb_false_r.
  - rewrite Z.mod_pow2_bits_high by lia.
    rewrite Z.shiftl_spec by lia. rewrite Z.shiftr_spec by lia.
    cbn [xorb]. f_equal. lia.
Qed.

(** One turn of the table-driven loop is the division by the generator
    polynomial for the eight bits of the byte. *)
Lemma crc_step_bitwise crc_reg byte :
  0 <= crc_reg < 2 ^ 32 -> 0 <= byte < 256 ->
  crc_step crc_reg byte = crc_bitwise_step crc_reg byte.
Proof.
  intros Hr Hb. unfold crc_step, crc_bitwise_step.
  set (top := Z.shiftr crc_reg 24).
  assert (Htop : 0 <= top < 256).
  { subst top. rewrite Z.shiftr_div_pow2 by lia. split.
    - apply Z.div_pos; lia.
    - apply Z.div_lt_upper_bound; lia. }
  assert (Hmask : Z.land top 255 = top).
  { change 255 with (Z.ones 8). rewrite Z.land_ones by lia.
    apply Z.mod_small. lia. }
  rewrite Hmask.
  assert (Hindex : 0 <= Z.lxor top byte < 256)
    by (change 256 with (2 ^ 8); apply lxor_below_pow2; lia).
  rewrite (crc_lookup_generated _ Hindex).
  rewrite (register_split crc_reg) at 2 by lia. fold top.
  rewrite Z.lxor_assoc, <- Z.shiftl_lxor.
  rewrite crc_shifts_lxor.
  rewrite (crc_shifts_low (crc_reg mod 2 ^ 24)) by (apply Z.mod_pos_bound; lia).
  f_equal. unfold to_uint32, wrap_unsigned.
  rewrite Z.shiftl_mul_pow2 by lia.
  change (2 ^ 32) with (2 ^ 24 * 2 ^ 8).
  rewrite Z.mul_mod_distr_r by lia. lia.
Qed.

(** X18.  [get_oggs_checksum] computes the checksum of the Ogg format: the
    table-driven loop over bytes gives what the bit-by-bit division by the
    polynomial 0x04c11db7 gives, and each of the 256 table entries is the
    remainder of its index. *)
Theorem get_oggs_checksum_is_crc32 (data : list Z) (pos bytes : Z) :
  (forall i, pos <= i < pos + bytes -> 0 <= peek data i < 256) ->
  get_oggs_checksum data pos bytes = crc_bitwise (memcpy_from data pos bytes)
  /\ forall i, 0 <= i < 256 ->
       peek crc_lookup i = Nat.iter 8 crc_shift (Z.shiftl i 24).
Proof.
  intros Hbytes. split; [|exact crc_lookup_generated].
  unfold get_oggs_checksum, crc_bitwise.
  assert (Hall : Forall (fun b => 0 <= b < 256) (memcpy_from data pos bytes)).
  { unfold memcpy_from. apply Forall_forall. intros b Hb.
    apply in_map_iff in Hb. destruct Hb as (k & <- & Hk).
    apply in_seq in Hk. apply Hbytes. lia. }
  assert (Hfold : forall l crc_reg,
            Forall (fun b => 0 <= b < 256) l -> 0 <= crc_reg < 2 ^ 32 ->
            fold_left crc_step l crc_reg = fold_left crc_bitwise_step l crc_reg).
  { induction l as [|b l IH]; intros crc_reg Hl Hreg; [reflexivity|].
    inversion Hl as [|? ? Hb Hrest]; subst. cbn [fold_left].
    rewrite <- (crc_step_bitwise crc_reg b Hreg Hb).
    apply IH; [assumption | apply crc_step_range]. }
  apply Hfold; [exact Hall | lia].
Qed.

Lemma get_oggs_checksum_is_crc32_witness :
  get_oggs_checksum [0x4F; 0x67; 0x67; 0x53] 0 4
  = crc_bitwise [0x4F; 0x67; 0x67; 0x53].
Proof.
  apply (get_oggs_checksum_is_crc32 [0x4F; 0x67; 0x67; 0x53] 0 4).
  intros i Hi.
  assert (Hcases : i = 0 \/ i = 1 \/ i = 2 \/ i = 3) by lia.
  destruct Hcases as [-> | [-> | [-> | ->]]]; vm_compute; split; congruence.
Defined.

(** ** Reads in step with the stream *)

Lemma same_stream_refl d : same_stream d d.
Proof. repeat split. Qed.

Lemma same_stream_trans d1 d2 d3 :
  same_stream d1 d2 -> same_stream d2 d3 -> same_stream d1 d3.
Proof.
  unfold same_stream.
  intros (H1 & H2 & H3 & H4 & H5 & H6) (K1 & K2 & K3 & K4 & K5 & K6).
  repeat split; congruence.
Qed.

Lemma move_to_next_block_state d :
  same_stream d (move_to_next_block d)
  /\ physical_offset (move_to_next_block d)
     = to_off_t (to_size_t (physical_offset d) + block_size d)
  /\ logical_offset (move_to_next_block d)
     = to_off_t (to_size_t (logical_offset d) + page_size d)
  /\ page_size (move_to_next_block d) = 0
  /\ sequence (move_to_next_block d) = sequence d
  /\ page_buffer (move_to_next_block d) = page_buffer d.
Proof. destruct d. repeat split. Qed.

Lemma process_new_block_state sf d data_size skip_size :
  packet_framing (type d) sf (physical_offset d)
                 (to_int (to_size_t (sequence d - 2))) = (data_size, skip_size) ->
  page_fits sizeof_page_buffer data_size ->
  let d1 := fst (process_new_block sf d) in
  snd (process_new_block sf d) = false
  /\ same_stream d d1
  /\ physical_offset d1 = physical_offset d
  /\ logical_offset d1 = logical_offset d
  /\ page_size d1 = oggs_page_size data_size
  /\ block_size d1 = to_size_t (data_size + skip_size)
  /\ sequence d1 = to_size_t (sequence d + 1)
  /\ List.length (page_buffer d1) = List.length (page_buffer d).
Proof.
  intros Hframe Hfit d1. subst d1.
  rewrite (process_new_block_built sf d data_size skip_size Hframe Hfit).
  cbv zeta. unfold oggs_page_size, same_stream. cbn.
  rewrite make_oggs_page_length. unfold read_streamfile.
  rewrite memcpy_to_length. repeat split.
Qed.

(** Building the page of the next packet takes a state from the boundary
    to the page. *)
Lemma boundary_to_page sf d data_size rest :
  at_boundary sf d (data_size :: rest) ->
  let d1 := fst (process_new_block sf d) in
  snd (process_new_block sf d) = false
  /\ at_page sf d1 (data_size :: rest)
  /\ same_stream d d1
  /\ logical_offset d1 = logical_offset d.
Proof.
  intros (Hpage & [Hsize Hframed] & Hfits & Hseq & Hcount & Hbuf & Hlo & Hend
          & Hbound) d1.
  inversion Hfits as [|n ns Hfit Hfits_rest]; subst n ns.
  cbn [List.length sum_pages fold_right] in *.
  fold (sum_pages oggs_page_size rest) in *.
  pose proof (sum_pages_nonneg rest Hfits_rest) as Hrest.
  pose proof (oggs_page_size_positive data_size ltac:(apply Hfit)) as Hpos.
  assert (Hframe : packet_framing (type d) sf (physical_offset d)
                     (to_int (to_size_t (sequence d - 2)))
                   = (data_size,
                      snd (packet_framing (type d) sf (physical_offset d)
                             (sequence d - 2)))).
  { rewrite to_size_t_small, to_int_small by lia.
    rewrite <- Hsize. apply surjective_pairing. }
  destruct (process_new_block_state sf d data_size _ Hframe Hfit)
    as (Hstop & Hsame & Hpo1 & Hlo1 & Hpage1 & Hblock1 & Hseq1 & Hbuf1).
  fold d1 in Hsame, Hpo1, Hlo1, Hpage1, Hblock1, Hseq1, Hbuf1.
  destruct (move_to_next_block_state d1)
    as (Hsame2 & Hpo2 & Hlo2 & Hpage2 & Hseq2 & Hbuf2).
  pose proof Hsame as Hstream.
  destruct Hsame as (Hty1 & _ & _ & _ & _ & Hsize1).
  destruct Hsame2 as (Hty2 & _ & _ & _ & _ & Hsize2).
  split; [exact Hstop|]. split; [|split; [|exact Hlo1]].
  - cbn [at_page]. split; [exact Hpage1|]. split; [exact Hfit|].
    split; [lia|]. split; [lia|].
    unfold at_boundary.
    rewrite Hpage2, Hty2, Hty1, Hpo2, Hpo1, Hblock1, Hseq2, Hseq1, Hbuf2, Hbuf1,
      Hlo2, Hlo1, Hpage1, Hsize2, Hsize1.
    rewrite (to_size_t_small (sequence d + 1)) by lia.
    rewrite (to_size_t_small (logical_offset d)) by lia.
    rewrite (to_off_t_small (logical_offset d + oggs_page_size data_size)) by lia.
    replace (sequence d + 1 - 2) with (to_int (sequence d - 2 + 1))
      by (rewrite to_int_small; lia).
    repeat split; try assumption; lia.
  - exact Hstream.
Qed.

Lemma at_boundary_bounds sf d sizes :
  at_boundary sf d sizes ->
  0 <= logical_offset d <= logical_size d /\ logical_size d < 2 ^ 62
  /\ logical_size d = logical_offset d + sum_pages oggs_page_size sizes
  /\ 0 <= sum_pages oggs_page_size sizes.
Proof.
  intros (_ & _ & Hfits & _ & _ & _ & Hlo & Hend & Hbound).
  pose proof (sum_pages_nonneg sizes Hfits). lia.
Qed.

Lemma at_page_bounds sf d data_size rest :
  at_page sf d (data_size :: rest) ->
  page_size d = oggs_page_size data_size
  /\ 28 <= oggs_page_size data_size
  /\ 0 <= logical_offset d
  /\ logical_offset d + oggs_page_size data_size <= logical_size d
  /\ logical_size d < 2 ^ 62
  /\ logical_offset (move_to_next_block d)
     = logical_offset d + oggs_page_size data_size.
Proof.
  intros (Hpage & Hfit & Hlo & Hend & Hnext).
  destruct (at_boundary_bounds _ _ _ Hnext) as (_ & Hbound & _ & Hrest).
  destruct (move_to_next_block_state d) as (Hsame & _ & Hlo2 & _).
  destruct Hsame as (_ & _ & _ & _ & _ & Hsize).
  pose proof (oggs_page_size_positive data_size ltac:(apply Hfit)) as Hpos.
  rewrite Hsize in Hbound. rewrite Hlo2, Hpage.
  rewrite to_size_t_small, to_off_t_small by lia.
  repeat split; try assumption; lia.
Qed.

(** A turn of the loop from a boundary is the turn from the page built
    there. *)
Lemma read_block_turn_at_boundary sf d l data_size rest :
  at_boundary sf d (data_size :: rest) ->
  read_block_turn sf d l = read_block_turn sf (fst (process_new_block sf d)) l.
Proof.
  intros Hstate.
  destruct (boundary_to_page sf d data_size rest Hstate)
    as (Hstop & Hpage & Hsame & Hlo1).
  destruct (at_page_bounds _ _ _ _ Hpage)
    as (Hsize1 & Hpos & Hlo & Hlast & Hbound & _).
  destruct Hsame as (_ & _ & _ & _ & _ & Hend).
  destruct Hstate as (Hzero & _).
  unfold read_block_turn. rewrite Hlo1, Hend, Hzero.
  rewrite ?Hlo1, ?Hend in Hlo, Hlast, Hbound.
  rewrite (to_size_t_small (logical_offset d)) by lia.
  replace (logical_offset d >=? logical_size d) with false
    by (symmetry; rewrite Z.geb_leb; apply Z.leb_gt; lia).
  change (0 =? 0) with true. cbv iota.
  destruct (process_new_block sf d) as [d1 stop]. cbn [fst snd] in *.
  subst stop.
  replace (page_size d1 =? 0) with false by (symmetry; apply Z.eqb_neq; lia).
  reflexivity.
Qed.

(** At a page that ends before the request starts, the loop moves on. *)
Lemma read_block_turn_skips sf d l data_size rest :
  at_page sf d (data_size :: rest) ->
  logical_offset d + oggs_page_size data_size <= offset_ l < 2 ^ 62 ->
  read_block_turn sf d l = Again (move_to_next_block d) l.
Proof.
  intros Hstate Hoff.
  destruct (at_page_bounds _ _ _ _ Hstate)
    as (Hpage & Hpos & Hlo & Hend & Hbound & _).
  unfold read_block_turn.
  rewrite (to_size_t_small (logical_offset d)) by lia.
  replace (logical_offset d >=? logical_size d) with false
    by (symmetry; rewrite Z.geb_leb; apply Z.leb_gt; lia).
  replace (page_size d =? 0) with false by (symmetry; apply Z.eqb_neq; lia).
  cbv iota beta.
  rewrite (to_size_t_small (logical_offset d)) by lia.
  rewrite (to_size_t_small (offset_ l)) by lia.
  rewrite Hpage.
  rewrite (to_size_t_small (logical_offset d + oggs_page_size data_size)) by lia.
  replace (offset_ l >=? logical_offset d + oggs_page_size data_size) with true
    by (symmetry; rewrite Z.geb_leb; apply Z.leb_le; lia).
  reflexivity.
Qed.

(** At a page the request starts in, the loop hands out the bytes from
    there to the end of the page, or as many as are asked for. *)
Lemma read_block_turn_copies sf d l data_size rest :
  at_page sf d (data_size :: rest) ->
  logical_offset d <= offset_ l < logical_offset d + oggs_page_size data_size ->
  0 < length_ l < 2 ^ 63 -> 0 <= total_read l ->
  total_read l + length_ l < 2 ^ 64 ->
  let bytes_consumed := offset_ l - logical_offset d in
  let to_read := Z.min (oggs_page_size data_size - bytes_consumed) (length_ l) in
  read_block_turn sf d l
  = Again d
      (mk_read_locals
         (dest l ++ memcpy_from (page_buffer d) bytes_consumed to_read)
         (total_read l + to_read) (offset_ l + to_read) (length_ l - to_read)).
Proof.
  intros Hstate Hoff Hlen Htotal Hsum bytes_consumed to_read.
  destruct (at_page_bounds _ _ _ _ Hstate)
    as (Hpage & Hpos & Hlo & Hend & Hbound & _).
  unfold read_block_turn.
  rewrite (to_size_t_small (logical_offset d)) by lia.
  replace (logical_offset d >=? logical_size d) with false
    by (symmetry; rewrite Z.geb_leb; apply Z.leb_gt; lia).
  replace (page_size d =? 0) with false by (symmetry; apply Z.eqb_neq; lia).
  cbv iota beta.
  rewrite (to_size_t_small (logical_offset d)) by lia.
  rewrite (to_size_t_small (offset_ l)) by lia.
  rewrite Hpage.
  rewrite (to_size_t_small (logical_offset d + oggs_page_size data_size)) by lia.
  replace (offset_ l >=? logical_offset d + oggs_page_size data_size) with false
    by (symmetry; rewrite Z.geb_leb; apply Z.leb_gt; lia).
  fold bytes_consumed.
  rewrite (to_off_t_small bytes_consumed) by (subst bytes_consumed; lia).
  rewrite (to_size_t_small bytes_consumed) by (subst bytes_consumed; lia).
  rewrite (to_size_t_small (oggs_page_size data_size - bytes_consumed))
    by (subst bytes_consumed; lia).
  assert (Hmin : (if oggs_page_size data_size - bytes_consumed >? length_ l
                  then length_ l
                  else oggs_page_size data_size - bytes_consumed) = to_read).
  { subst to_read.
    destruct (Z.gtb_spec (oggs_page_size data_size - bytes_consumed) (length_ l));
      lia. }
  rewrite Hmin.
  assert (Hto : 0 < to_read <= length_ l)
    by (subst to_read bytes_consumed; lia).
  replace (to_read =? 0) with false by (symmetry; apply Z.eqb_neq; lia).
  rewrite (to_size_t_small (total_read l + to_read)) by lia.
  rewrite (to_size_t_small (length_ l - to_read)) by lia.
  rewrite (to_off_t_small (offset_ l + to_read)) by lia.
  reflexivity.
Qed.

Lemma memcpy_from_nth buf pos n k :
  (k < Z.to_nat n)%nat ->
  nth k (memcpy_from buf pos n) 0 = peek buf (pos + Z.of_nat k).
Proof. intros Hk. now apply (bytes_at_nth buf pos (Z.to_nat n)). Qed.

Lemma skipn_memcpy_from buf size b :
  0 <= b <= size ->
  skipn (Z.to_nat b) (memcpy_from buf 0 size) = memcpy_from buf b (size - b).
Proof.
  intros Hb. apply (nth_ext _ _ 0 0).
  - rewrite length_skipn, !memcpy_from_length. lia.
  - intros k Hk. rewrite length_skipn, memcpy_from_length in Hk.
    rewrite nth_skipn, !memcpy_from_nth by lia. f_equal. lia.
Qed.

Lemma firstn_memcpy_from buf pos size k :
  0 <= k <= size ->
  firstn (Z.to_nat k) (memcpy_from buf pos size) = memcpy_from buf pos k.
Proof.
  intros Hk. apply (nth_ext _ _ 0 0).
  - rewrite length_firstn, !memcpy_from_length. lia.
  - intros i Hi. rewrite length_firstn, memcpy_from_length in Hi.
    rewrite nth_firstn.
    destruct (Nat.ltb_spec i (Z.to_nat k)) as [Hlt|Hge]; [|lia].
    now rewrite !memcpy_from_nth by lia.
Qed.

(** The stream from a page on, read from behind the page. *)
Lemma skipn_past_page buf size stream k :
  0 <= size <= k ->
  skipn (Z.to_nat k) (memcpy_from buf 0 size ++ stream)
  = skipn (Z.to_nat (k - size)) stream.
Proof.
  intros Hk. rewrite skipn_app, memcpy_from_length.
  rewrite skipn_all2 by (rewrite memcpy_from_length; lia).
  cbn [app]. f_equal. lia.
Qed.

(** ... read from inside the page, not beyond it ... *)
Lemma firstn_inside_page buf size stream b len :
  0 <= b -> 0 <= len <= size - b ->
  firstn (Z.to_nat len) (skipn (Z.to_nat b) (memcpy_from buf 0 size ++ stream))
  = memcpy_from buf b len.
Proof.
  intros Hb Hlen. rewrite skipn_app, memcpy_from_length.
  rewrite skipn_memcpy_from by lia.
  rewrite firstn_app, memcpy_from_length.
  replace (Z.to_nat len - Z.to_nat (size - b))%nat with 0%nat by lia.
  rewrite firstn_0, app_nil_r. apply firstn_memcpy_from. lia.
Qed.

(** ... and read from inside the page on into what follows. *)
Lemma firstn_across_page buf size stream b len :
  0 <= b <= size -> size - b <= len ->
  firstn (Z.to_nat len) (skipn (Z.to_nat b) (memcpy_from buf 0 size ++ stream))
  = memcpy_from buf b (size - b)
    ++ firstn (Z.to_nat (len - (size - b))) stream.
Proof.
  intros Hb Hlen. rewrite skipn_app, memcpy_from_length.
  rewrite skipn_memcpy_from by lia.
  replace (Z.to_nat b - Z.to_nat size)%nat with 0%nat by lia.
  rewrite skipn_0, firstn_app, memcpy_from_length.
  rewrite firstn_all2 by (rewrite memcpy_from_length; lia).
  do 2 f_equal. lia.
Qed.

Lemma remaining_at_boundary sf d sizes :
  page_size d = 0 -> remaining sf d sizes = served_pages (List.length sizes) sf d.
Proof. intros H. unfold remaining. now rewrite H. Qed.

Lemma remaining_at_page sf d data_size rest :
  page_size d <> 0 ->
  remaining sf d (data_size :: rest)
  = memcpy_from (page_buffer d) 0 (page_size d)
    ++ remaining sf (move_to_next_block d) rest.
Proof.
  intros H. unfold remaining at 1.
  replace (page_size d =? 0) with false by (symmetry; now apply Z.eqb_neq).
  cbn [List.length Nat.pred].
  rewrite remaining_at_boundary; [reflexivity|].
  apply move_to_next_block_state.
Qed.

(** The loop at the end of the stream. *)
Lemma serves_at_end sf d l fuel :
  at_boundary sf d [] ->
  logical_offset d <= offset_ l <= logical_size d ->
  (1 <= fuel)%nat ->
  serves sf d l [] (read_blocks fuel sf d l).
Proof.
  intros Hstate Hoff Hfuel.
  destruct (at_boundary_bounds _ _ _ Hstate) as (Hlo & Hbound & Hend & _).
  cbn [sum_pages fold_right] in Hend.
  pose proof Hstate as (Hzero & _).
  unfold serves. cbv zeta.
  rewrite (remaining_at_boundary sf d [] Hzero). cbn [List.length served_pages].
  rewrite skipn_nil, firstn_nil. cbn [List.length].
  exists d, l, []. rewrite read_blocks_at_end by lia.
  rewrite app_nil_r, Z.sub_diag.
  split; [reflexivity|]. split; [reflexivity|]. split; [lia|].
  split; [unfold synced; now rewrite Hzero|].
  split; [now rewrite (remaining_at_boundary sf d [] Hzero)|].
  split; [lia|]. split; [apply same_stream_refl | apply le_n].
Qed.

(** A request for no bytes. *)
Lemma serves_nothing sf d l sizes fuel :
  synced sf d sizes -> length_ l = 0 ->
  logical_offset d <= offset_ l ->
  serves sf d l sizes (read_blocks fuel sf d l).
Proof.
  intros Hstate Hlen Hoff. unfold serves. cbv zeta.
  rewrite Hlen. change (Z.to_nat 0) with 0%nat. rewrite firstn_0.
  cbn [List.length].
  exists d, l, sizes.
  replace (read_blocks fuel sf d l) with (Some (d, l))
    by (destruct fuel; cbn [read_blocks]; rewrite Hlen; reflexivity).
  rewrite app_nil_r, Z.sub_diag.
  split; [reflexivity|]. split; [reflexivity|]. split; [lia|].
  split; [exact Hstate|]. split; [reflexivity|].
  split; [lia|]. split; [apply same_stream_refl | apply le_n].
Qed.

(** From a page, given that reads from the next boundary are served. *)
Lemma serves_from_page sf data_size rest :
  (forall d l fuel,
     at_boundary sf d rest ->
     logical_offset d <= offset_ l <= logical_size d ->
     0 <= length_ l < 2 ^ 63 -> 0 <= total_read l ->
     total_read l + length_ l < 2 ^ 64 ->
     (2 * List.length rest + 1 <= fuel)%nat ->
     serves sf d l rest (read_blocks fuel sf d l)) ->
  forall d l fuel,
    at_page sf d (data_size :: rest) ->
    logical_offset d <= offset_ l <= logical_size d ->
    0 <= length_ l < 2 ^ 63 -> 0 <= total_read l ->
    total_read l + length_ l < 2 ^ 64 ->
    (2 * List.length (data_size :: rest) + 1 <= fuel)%nat ->
    serves sf d l (data_size :: rest) (read_blocks fuel sf d l).
Proof.
  intros Hnext d l fuel Hstate Hoff Hlen Htotal Hsum Hfuel.
  destruct (at_page_bounds _ _ _ _ Hstate)
    as (Hpage & Hpos & Hlo & Hend & Hbound & Hlo2).
  assert (Hsynced : synced sf d (data_size :: rest)).
  { unfold synced.
    replace (page_size d =? 0) with false by (symmetry; apply Z.eqb_neq; lia).
    exact Hstate. }
  destruct (Z.eq_dec (length_ l) 0) as [Hnone|Hsome];
    [apply serves_nothing; [assumption | assumption | lia]|].
  pose proof Hstate as (_ & _ & _ & _ & Hboundary).
  destruct (move_to_next_block_state d) as (Hsame2 & _ & _ & Hzero2 & _).
  cbn [List.length] in Hfuel.
  destruct fuel as [|fuel]; [lia|].
  unfold serves. cbv zeta.
  rewrite (remaining_at_page sf d data_size rest) by lia.
  rewrite Hpage.
  set (stream := remaining sf (move_to_next_block d) rest).
  cbn [read_blocks].
  replace (length_ l >? 0) with true
    by (symmetry; rewrite Z.gtb_ltb; apply Z.ltb_lt; lia).
  destruct (Z_le_gt_dec (logical_offset d + oggs_page_size data_size) (offset_ l))
    as [Hbehind|Hinside].
  - (* the request starts behind the page *)
    rewrite (read_block_turn_skips sf d l data_size rest Hstate) by lia.
    destruct (Hnext (move_to_next_block d) l fuel Hboundary)
      as (d' & l' & sizes' & Hrun & Hdest & Hcount & Hsync' & Hrest & Hlo'
          & Hsame' & Hfewer); try lia.
    { destruct Hsame2 as (_ & _ & _ & _ & _ & ->). lia. }
    fold stream in Hdest, Hcount, Hrest, Hlo'. rewrite Hlo2 in *.
    replace (offset_ l - (logical_offset d + oggs_page_size data_size))
      with (offset_ l - logical_offset d - oggs_page_size data_size)
      in Hdest, Hcount, Hlo' by lia.
    rewrite <- (skipn_past_page (page_buffer d) (oggs_page_size data_size) stream)
      in Hdest, Hcount, Hlo' by lia.
    replace (logical_offset d' - (logical_offset d + oggs_page_size data_size))
      with (logical_offset d' - logical_offset d - oggs_page_size data_size)
      in Hrest by lia.
    rewrite <- (skipn_past_page (page_buffer d) (oggs_page_size data_size) stream)
      in Hrest by lia.
    exists d', l', sizes'.
    split; [exact Hrun|]. split; [exact Hdest|]. split; [exact Hcount|].
    split; [exact Hsync'|]. split; [exact Hrest|]. split; [lia|].
    split; [exact (same_stream_trans _ _ _ Hsame2 Hsame')|].
    cbn [List.length]. lia.
  - (* the request starts inside the page *)
    rewrite (read_block_turn_copies sf d l data_size rest Hstate) by lia.
    cbv zeta.
    set (bytes_consumed := offset_ l - logical_offset d).
    destruct (Z_le_gt_dec (length_ l) (oggs_page_size data_size - bytes_consumed))
      as [Hshort|Hlong].
    + (* and ends inside it *)
      rewrite Z.min_r by lia.
      rewrite (firstn_inside_page (page_buffer d) (oggs_page_size data_size)
                 stream bytes_consumed (length_ l))
        by (subst bytes_consumed; lia).
      rewrite memcpy_from_length.
      exists d,
        (mk_read_locals
           (dest l ++ memcpy_from (page_buffer d) bytes_consumed (length_ l))
           (total_read l + length_ l) (offset_ l + length_ l)
           (length_ l - length_ l)),
        (data_size :: rest).
      split.
      { destruct fuel; cbn [read_blocks length_]; rewrite Z.sub_diag;
          reflexivity. }
      cbn [dest total_read]. rewrite Z.sub_diag.
      split; [reflexivity|]. split; [lia|]. split; [exact Hsynced|].
      split.
      { rewrite (remaining_at_page sf d data_size rest) by lia.
        now rewrite Hpage. }
      split; [lia|]. split; [apply same_stream_refl | apply le_n].
    + (* and ends behind it *)
      rewrite Z.min_l by lia.
      rewrite (firstn_across_page (page_buffer d) (oggs_page_size data_size)
                 stream bytes_consumed (length_ l))
        by (subst bytes_consumed; lia).
      set (to_read := oggs_page_size data_size - bytes_consumed).
      set (l1 := mk_read_locals _ _ _ _).
      destruct fuel as [|fuel]; [lia|].
      cbn [read_blocks].
      replace (length_ l1 >? 0) with true
        by (symmetry; subst l1; cbn [length_]; rewrite Z.gtb_ltb;
            apply Z.ltb_lt; lia).
      rewrite (read_block_turn_skips sf d l1 data_size rest Hstate)
        by (subst l1 to_read bytes_consumed; cbn [offset_]; lia).
      destruct (Hnext (move_to_next_block d) l1 fuel Hboundary)
        as (d' & l' & sizes' & Hrun & Hdest & Hcount & Hsync' & Hrest & Hlo'
            & Hsame' & Hfewer);
        try (subst l1 to_read bytes_consumed;
             cbn [offset_ length_ total_read]; lia).
      { subst l1 to_read bytes_consumed. cbn [offset_].
        destruct Hsame2 as (_ & _ & _ & _ & _ & ->). lia. }
      fold stream in Hdest, Hcount, Hrest, Hlo'. rewrite Hlo2 in *.
      subst l1. cbn [dest total_read offset_ length_] in *.
      replace (offset_ l + to_read
               - (logical_offset d + oggs_page_size data_size)) with 0
        in Hdest, Hcount, Hlo' by (subst to_read bytes_consumed; lia).
      change (Z.to_nat 0) with 0%nat in Hdest, Hcount, Hlo'.
      rewrite skipn_0 in Hdest, Hcount, Hlo'.
      replace (logical_offset d' - (logical_offset d + oggs_page_size data_size))
        with (logical_offset d' - logical_offset d - oggs_page_size data_size)
        in Hrest by lia.
      rewrite <- (skipn_past_page (page_buffer d) (oggs_page_size data_size)
                    stream) in Hrest by lia.
      exists d', l', sizes'.
      split; [exact Hrun|].
      split; [rewrite Hdest, <- app_assoc; reflexivity|].
      split.
      { rewrite Hcount, length_app, memcpy_from_length.
        subst to_read bytes_consumed. lia. }
      split; [exact Hsync'|]. split; [exact Hrest|].
      split.
      { rewrite length_app, memcpy_from_length.
        subst to_read bytes_consumed. lia. }
      split; [exact (same_stream_trans _ _ _ Hsame2 Hsame')|].
      cbn [List.length]. lia.
Qed.

(** From a boundary, given that reads from the page built there are
    served. *)
Lemma serves_from_boundary sf data_size rest :
  (forall d l fuel,
     at_page sf d (data_size :: rest) ->
     logical_offset d <= offset_ l <= logical_size d ->
     0 <= length_ l < 2 ^ 63 -> 0 <= total_read l ->
     total_read l + length_ l < 2 ^ 64 ->
     (2 * List.length (data_size :: rest) + 1 <= fuel)%nat ->
     serves sf d l (data_size :: rest) (read_blocks fuel sf d l)) ->
  forall d l fuel,
    at_boundary sf d (data_size :: rest) ->
    logical_offset d <= offset_ l <= logical_size d ->
    0 <= length_ l < 2 ^ 63 -> 0 <= total_read l ->
    total_read l + length_ l < 2 ^ 64 ->
    (2 * List.length (data_size :: rest) + 1 <= fuel)%nat ->
    serves sf d l (data_size :: rest) (read_blocks fuel sf d l).
Proof.
  intros Hpage d l fuel Hstate Hoff Hlen Htotal Hsum Hfuel.
  pose proof Hstate as (Hzero & _).
  assert (Hsynced : synced sf d (data_size :: rest))
    by (unfold synced; now rewrite Hzero).
  destruct (Z.eq_dec (length_ l) 0) as [Hnone|Hsome];
    [apply serves_nothing; [assumption | assumption | lia]|].
  destruct (boundary_to_page sf d data_size rest Hstate)
    as (_ & Hstate1 & Hsame1 & Hlo1).
  set (d1 := fst (process_new_block sf d)) in *.
  destruct (at_page_bounds _ _ _ _ Hstate1) as (Hpage1 & Hpos & _).
  assert (Hrun : read_blocks fuel sf d l = read_blocks fuel sf d1 l).
  { destruct fuel as [|fuel]; [cbn in Hfuel; lia|]. cbn [read_blocks].
    replace (length_ l >? 0) with true
      by (symmetry; rewrite Z.gtb_ltb; apply Z.ltb_lt; lia).
    now rewrite (read_block_turn_at_boundary sf d l data_size rest Hstate). }
  assert (Hstream : remaining sf d (data_size :: rest)
                    = remaining sf d1 (data_size :: rest)).
  { rewrite (remaining_at_boundary sf d _ Hzero).
    rewrite (remaining_at_page sf d1 data_size rest) by lia.
    rewrite remaining_at_boundary by apply move_to_next_block_state.
    reflexivity. }
  destruct (Hpage d1 l fuel Hstate1)
    as (d' & l' & sizes' & Hrun' & Hdest & Hcount & Hsync' & Hrest & Hlo'
        & Hsame' & Hfewer); try lia.
  { destruct Hsame1 as (_ & _ & _ & _ & _ & ->). lia. }
  unfold serves. cbv zeta. rewrite Hrun, Hstream, <- Hlo1.
  exists d', l', sizes'.
  split; [exact Hrun'|]. split; [exact Hdest|]. split; [exact Hcount|].
  split; [exact Hsync'|]. split; [exact Hrest|]. split; [exact Hlo'|].
  split; [exact (same_stream_trans _ _ _ Hsame1 Hsame') | exact Hfewer].
Qed.

Lemma serves_at_boundary sf : forall sizes d l fuel,
  at_boundary sf d sizes ->
  logical_offset d <= offset_ l <= logical_size d ->
  0 <= length_ l < 2 ^ 63 -> 0 <= total_read l ->
  total_read l + length_ l < 2 ^ 64 ->
  (2 * List.length sizes + 1 <= fuel)%nat ->
  serves sf d l sizes (read_blocks fuel sf d l).
Proof.
  induction sizes as [|data_size rest IH]; intros d l fuel Hstate Hoff Hlen
    Htotal Hsum Hfuel.
  - apply serves_at_end; [assumption | assumption | cbn in Hfuel; lia].
  - apply (serves_from_boundary sf data_size rest); try assumption.
    apply (serves_from_page sf data_size rest). exact IH.
Qed.

(** The loop of a read from a state in step with the stream. *)
Lemma read_blocks_in_step sf sizes d l fuel :
  synced sf d sizes ->
  logical_offset d <= offset_ l <= logical_size d ->
  0 <= length_ l < 2 ^ 63 -> 0 <= total_read l ->
  total_read l + length_ l < 2 ^ 64 ->
  (2 * List.length sizes + 1 <= fuel)%nat ->
  serves sf d l sizes (read_blocks fuel sf d l).
Proof.
  unfold synced. destruct (page_size d =? 0).
  - apply serves_at_boundary.
  - destruct sizes as [|data_size rest]; [intros []|].
    apply (serves_from_page sf data_size rest).
    intros d0 l0 fuel0. apply serves_at_boundary.
Qed.

Lemma served_pages_length sf : forall sizes d,
  at_boundary sf d sizes ->
  Z.of_nat (List.length (served_pages (List.length sizes) sf d))
  = sum_pages oggs_page_size sizes.
Proof.
  induction sizes as [|data_size rest IH]; intros d Hstate; [reflexivity|].
  destruct (boundary_to_page sf d data_size rest Hstate) as (_ & Hpage & _).
  destruct (at_page_bounds _ _ _ _ Hpage) as (Hsize & Hpos & _).
  destruct Hpage as (_ & _ & _ & _ & Hnext).
  cbn [List.length served_pages sum_pages fold_right].
  fold (sum_pages oggs_page_size rest).
  rewrite length_app, memcpy_from_length, Hsize, Nat2Z.inj_add, (IH _ Hnext).
  lia.
Qed.

Lemma synced_bounds sf d sizes :
  synced sf d sizes ->
  0 <= logical_offset d <= logical_size d /\ logical_size d < 2 ^ 62
  /\ Z.of_nat (List.length (remaining sf d sizes))
     = logical_size d - logical_offset d
  /\ List.length (page_buffer d) = Z.to_nat sizeof_page_buffer.
Proof.
  unfold synced. destruct (Z.eqb_spec (page_size d) 0) as [Hzero|Hpage].
  - intros Hstate.
    destruct (at_boundary_bounds _ _ _ Hstate) as (Hlo & Hbound & Hend & _).
    rewrite (remaining_at_boundary sf d sizes Hzero).
    rewrite (served_pages_length sf sizes d Hstate).
    repeat split; try lia; apply Hstate.
  - destruct sizes as [|data_size rest]; [intros []|]. intros Hstate.
    destruct (at_page_bounds _ _ _ _ Hstate)
      as (Hsize & Hpos & Hlo & Hend & Hbound & Hlo2).
    pose proof Hstate as (_ & _ & _ & Hstream & Hnext).
    rewrite (remaining_at_page sf d data_size rest Hpage).
    rewrite remaining_at_boundary by apply move_to_next_block_state.
    rewrite length_app, memcpy_from_length, Nat2Z.inj_add.
    rewrite (served_pages_length sf rest _ Hnext).
    destruct (move_to_next_block_state d) as (_ & _ & _ & _ & _ & Hbuf).
    destruct Hnext as (_ & _ & _ & _ & _ & Hlen & _). rewrite Hbuf in Hlen.
    repeat split; try lia; exact Hlen.
Qed.

(** A read that comes past its first two tests with a state in step with
    the stream, at or past the header. *)
Lemma opus_io_read_proceeds fuel sf d d0 sizes offset length :
  opus_io_read_entry d offset = Proceed d0 ->
  synced sf d0 sizes ->
  head_size d0 <= offset -> logical_offset d0 <= offset <= logical_size d0 ->
  0 <= length < 2 ^ 63 ->
  (2 * List.length sizes + 1 <= fuel)%nat ->
  let out :=
    firstn (Z.to_nat length)
      (skipn (Z.to_nat (offset - logical_offset d0)) (remaining sf d0 sizes)) in
  exists d' sizes',
    opus_io_read fuel sf d offset length
    = Some (d', out, Z.of_nat (List.length out))
    /\ synced sf d' sizes'
    /\ remaining sf d' sizes'
       = skipn (Z.to_nat (logical_offset d' - logical_offset d0))
           (remaining sf d0 sizes)
    /\ logical_offset d0 <= logical_offset d'
       <= offset + Z.of_nat (List.length out)
    /\ same_stream d0 d'
    /\ (List.length sizes' <= List.length sizes)%nat.
Proof.
  intros Hentry Hstate Hhead Hoff Hlen Hfuel out.
  destruct (synced_bounds _ _ _ Hstate) as (Hlo & Hbound & _).
  unfold opus_io_read. rewrite Hentry. unfold insert_fake_header.
  cbn [offset_ length_ dest total_read].
  rewrite (to_size_t_small offset) by lia.
  replace (offset <? head_size d0) with false
    by (symmetry; apply Z.ltb_ge; lia).
  destruct (read_blocks_in_step sf sizes d0
              (mk_read_locals [] 0 offset length) fuel Hstate)
    as (d' & l' & sizes' & Hrun & Hdest & Hcount & Hsync & Hrest & Hlo'
        & Hsame & Hfewer); cbn [offset_ length_ total_read dest] in *; try lia.
  rewrite Hrun, Hdest, Hcount. cbn [app]. fold out. fold out in Hlo'.
  exists d', sizes'.
  split; [reflexivity|]. split; [exact Hsync|]. split; [exact Hrest|].
  split; [exact Hlo'|]. split; [exact Hsame | exact Hfewer].
Qed.

Lemma opus_io_read_entry_forward d offset :
  0 <= offset < 2 ^ 62 -> logical_offset d <= offset <= logical_size d ->
  opus_io_read_entry d offset = Proceed d.
Proof.
  intros Hsmall Hoff.
  unfold opus_io_read_entry, bad_read, restart_if_previous.
  rewrite (to_size_t_small offset) by lia.
  replace (offset <? 0) with false by (symmetry; apply Z.ltb_ge; lia).
  replace (offset >? logical_size d) with false
    by (symmetry; rewrite Z.gtb_ltb; apply Z.ltb_ge; lia).
  replace (offset <? logical_offset d) with false
    by (symmetry; apply Z.ltb_ge; lia).
  reflexivity.
Qed.

(** X19.  A read that goes forward from a state in step with the stream,
    at or past the header: it returns, it hands out the stretch of the
    stream from [offset] on, [length] bytes or what is left of the stream,
    and it leaves a state in step again, whose rest of the stream is that
    of before from its new cursor on. *)
Theorem opus_io_read_in_step (fuel : nat) (sf : STREAMFILE) (d : opus_io_data)
    (sizes : list Z) (offset length : Z) :
  synced sf d sizes ->
  head_size d <= offset -> logical_offset d <= offset <= logical_size d ->
  0 <= length < 2 ^ 63 ->
  (2 * List.length sizes + 1 <= fuel)%nat ->
  let out :=
    firstn (Z.to_nat length)
      (skipn (Z.to_nat (offset - logical_offset d)) (remaining sf d sizes)) in
  exists d' sizes',
    opus_io_read fuel sf d offset length
    = Some (d', out, Z.of_nat (List.length out))
    /\ synced sf d' sizes'
    /\ remaining sf d' sizes'
       = skipn (Z.to_nat (logical_offset d' - logical_offset d))
           (remaining sf d sizes)
    /\ logical_offset d <= logical_offset d'
       <= offset + Z.of_nat (List.length out)
    /\ same_stream d d'
    /\ (List.length sizes' <= List.length sizes)%nat.
Proof.
  intros Hstate Hhead Hoff Hlen Hfuel.
  destruct (synced_bounds _ _ _ Hstate) as (Hlo & Hbound & _).
  apply opus_io_read_proceeds; try assumption.
  apply opus_io_read_entry_forward; lia.
Qed.

Lemma discovered_packets_framed sf ty max_physical_offset fuel :
  forall po pk sizes,
  discovered_packets fuel sf ty po max_physical_offset pk = Some sizes ->
  framed sf ty po pk sizes.
Proof.
  induction fuel as [|fuel IH]; intros po pk sizes;
    cbn [discovered_packets]; destruct (po <? max_physical_offset);
    try discriminate; try (intros [= <-]; exact I).
  destruct (packet_framing ty sf po pk) as [data_size skip_size] eqn:Hframe.
  destruct (discovered_packets fuel sf ty _ max_physical_offset _)
    as [rest|] eqn:Hrest; [|discriminate].
  cbn [option_map]. intros [= <-]. cbn [framed]. rewrite Hframe. cbn [fst snd].
  split; [reflexivity | exact (IH _ _ _ Hrest)].
Qed.

(** The reframer [setup_opus_streamfile] constructs. *)
Lemma setup_reframes walk_fuel sf channels skip sample_rate
    region_offset region_size ty d sizes :
  setup_opus_streamfile walk_fuel sf channels skip sample_rate
                        region_offset region_size ty = Some (Some d) ->
  logical_size d <> 0 ->
  discovered_packets walk_fuel sf ty region_offset
    (to_off_t (to_size_t region_offset + region_size)) 0 = Some sizes ->
  Forall (page_fits sizeof_page_buffer) sizes ->
  2 + Z.of_nat (List.length sizes) < 2 ^ 31 ->
  reframes sf d sizes
  /\ logical_offset d = 0 /\ physical_offset d = stream_offset d
  /\ page_size d = 0 /\ sequence d = 2 /\ head_size d = 128.
Proof.
  intros Hsetup Hnz Hwalk Hfits Hcount.
  destruct (setup_opus_streamfile_state _ _ _ _ _ _ _ _ _ Hsetup)
    as (logical & -> & Hlogical).
  cbn [logical_size] in Hnz.
  destruct (Hlogical Hnz) as (sizes' & Hwalk' & Hsum).
  rewrite Hwalk in Hwalk'. injection Hwalk' as <-.
  specialize (Hsum (page_fits_int32 _ Hfits)).
  pose proof (sum_pages_bound _ Hfits) as Hbound.
  pose proof (sum_pages_nonneg _ Hfits) as Hnonneg.
  rewrite to_size_t_small in Hsum by lia.
  pose proof (discovered_packets_framed _ _ _ _ _ _ _ Hwalk) as Hframed.
  unfold reframes.
  cbn [type stream_offset head_size logical_size page_buffer logical_offset
       physical_offset page_size sequence].
  rewrite repeat_length.
  repeat split; try assumption; lia.
Qed.

Lemma reframes_kept sf d d' sizes sizes' :
  reframes sf d sizes -> same_stream d d' -> synced sf d' sizes' ->
  reframes sf d' sizes.
Proof.
  intros (Hframed & Hfits & Hcount & Hhead & Hsize & Hbound & _)
         (Hty & Hso & _ & _ & Hhs & Hls) Hsync.
  destruct (synced_bounds _ _ _ Hsync) as (_ & _ & _ & Hbuf).
  unfold reframes. rewrite Hty, Hso, Hhs, Hls.
  repeat split; assumption.
Qed.



Lemma firstn_add {A : Type} (a b : nat) : forall l : list A,
  firstn (a + b) l = firstn a l ++ firstn b (skipn a l).
Proof.
  induction a as [|a IH]; intros l; [reflexivity|].
  destruct l as [|x l];
    [cbn [Nat.add firstn skipn app]; now rewrite firstn_nil|].
  cbn [Nat.add firstn skipn app]. now rewrite IH.
Qed.

(** What is left behind a stretch that was cut at the end of the list. *)
Lemma skipn_served {A : Type} (a : nat) (l : list A) :
  skipn (List.length (firstn a l)) l = skipn a l.
Proof.
  rewrite length_firstn.
  destruct (Nat.le_gt_cases a (List.length l)) as [Hle|Hgt].
  - now rewrite Nat.min_l by assumption.
  - rewrite Nat.min_r by lia. rewrite skipn_all. symmetry.
    apply skipn_all2. lia.
Qed.

(** X21.  Reads that follow each other splice: from a state in step with
    the stream, at or past the header, a read of [length1] bytes and then a
    read of [length2] bytes from where the first one stopped hand out,
    together, exactly what one read of [length1 + length2] bytes does. *)
Theorem sequential_reads_splice (fuel : nat) (sf : STREAMFILE)
    (d : opus_io_data) (sizes : list Z) (offset length1 length2 : Z) :
  synced sf d sizes ->
  head_size d <= offset -> logical_offset d <= offset <= logical_size d ->
  0 <= length1 -> 0 <= length2 -> length1 + length2 < 2 ^ 63 ->
  (2 * List.length sizes + 1 <= fuel)%nat ->
  exists d1 out1 d2 out2 d12,
    opus_io_read fuel sf d offset length1
    = Some (d1, out1, Z.of_nat (List.length out1))
    /\ opus_io_read fuel sf d1 (offset + Z.of_nat (List.length out1)) length2
       = Some (d2, out2, Z.of_nat (List.length out2))
    /\ opus_io_read fuel sf d offset (length1 + length2)
       = Some (d12, out1 ++ out2, Z.of_nat (List.length (out1 ++ out2))).
Proof.
  intros Hstate Hhead Hoff Hlen1 Hlen2 Hsum Hfuel.
  destruct (synced_bounds _ _ _ Hstate) as (Hlo & Hbound & Hleft & _).
  assert (Hentry : opus_io_read_entry d offset = Proceed d)
    by (apply opus_io_read_entry_forward; lia).
  set (stream := remaining sf d sizes) in *.
  set (behind := skipn (Z.to_nat (offset - logical_offset d)) stream).
  destruct (opus_io_read_proceeds fuel sf d d sizes offset length1 Hentry
              Hstate Hhead Hoff ltac:(lia) Hfuel)
    as (d1 & sizes1 & Hread1 & Hsync1 & Hrest1 & Hlo1 & Hsame1 & Hfewer).
  destruct (opus_io_read_proceeds fuel sf d d sizes offset (length1 + length2)
              Hentry Hstate Hhead Hoff ltac:(lia) Hfuel)
    as (d12 & sizes12 & Hread12 & _).
  fold stream in Hread1, Hrest1, Hlo1, Hread12.
  fold behind in Hread1, Hlo1, Hread12.
  set (out1 := firstn (Z.to_nat length1) behind) in *.
  assert (Hserved : Z.of_nat (List.length out1) <= logical_size d - offset).
  { subst out1 behind. rewrite length_firstn, length_skipn. lia. }
  pose proof Hsame1 as (_ & _ & _ & _ & Hhs1 & Hls1).
  assert (Hentry1 : opus_io_read_entry d1 (offset + Z.of_nat (List.length out1))
                    = Proceed d1)
    by (apply opus_io_read_entry_forward; lia).
  destruct (opus_io_read_proceeds fuel sf d1 d1 sizes1
              (offset + Z.of_nat (List.length out1)) length2 Hentry1 Hsync1)
    as (d2 & sizes2 & Hread2 & _); try lia.
  assert (Hout2 : firstn (Z.to_nat length2)
                    (skipn (Z.to_nat (offset + Z.of_nat (List.length out1)
                                      - logical_offset d1))
                       (remaining sf d1 sizes1))
                  = firstn (Z.to_nat length2) (skipn (Z.to_nat length1) behind)).
  { rewrite Hrest1, skipn_skipn. subst behind.
    rewrite <- (skipn_served (Z.to_nat length1)). fold out1.
    rewrite skipn_skipn. do 2 f_equal. lia. }
  rewrite Hout2 in Hread2.
  set (out2 := firstn (Z.to_nat length2) (skipn (Z.to_nat length1) behind)) in *.
  assert (Hout : firstn (Z.to_nat (length1 + length2)) behind = out1 ++ out2).
  { rewrite Z2Nat.inj_add by lia. apply firstn_add. }
  rewrite Hout in Hread12.
  exists d1, out1, d2, out2, d12.
  split; [exact Hread1|]. split; [exact Hread2 | exact Hread12].
Qed.

(** The state with the header handed out. *)
Lemma header_read_at_boundary sf d sizes :
  reframes sf d sizes ->
  physical_offset d = stream_offset d -> page_size d = 0 -> sequence d = 2 ->
  at_boundary sf (set_logical_offset (head_size d) d) sizes.
Proof.
  intros (Hframed & Hfits & Hcount & Hhead & Hsize & Hbound & Hbuf)
         Hpo Hpage Hseq.
  destruct d. unfold at_boundary, set_logical_offset.
  cbn [type stream_offset stream_size logical_offset physical_offset
       block_size page_size page_buffer sequence samples_done head_buffer
       head_size logical_size] in *.
  subst. change (2 - 2) with 0.
  repeat split; try assumption; lia.
Qed.

(** X22.  The first read of the constructed reframer, from offset 0 and
    over at least the header: it hands out the start of the logical stream,
    that is the header and then the pages of the packets one after the
    other, [length] bytes of it or all, and leaves a state in step with the
    stream. *)
Theorem read_from_start (fuel : nat) (sf : STREAMFILE) (d : opus_io_data)
    (sizes : list Z) (length : Z) :
  reframes sf d sizes ->
  logical_offset d = 0 -> physical_offset d = stream_offset d ->
  page_size d = 0 -> sequence d = 2 ->
  0 < head_size d <= length -> length < 2 ^ 63 ->
  (2 * List.length sizes + 1 <= fuel)%nat ->
  let stream :=
    memcpy_from (head_buffer d) 0 (head_size d)
    ++ served_pages (List.length sizes) sf
         (set_logical_offset (head_size d) d) in
  let out := firstn (Z.to_nat length) stream in
  exists d' sizes',
    opus_io_read fuel sf d 0 length
    = Some (d', out, Z.of_nat (List.length out))
    /\ synced sf d' sizes' /\ reframes sf d' sizes
    /\ remaining sf d' sizes' = skipn (Z.to_nat (logical_offset d')) stream
    /\ head_size d <= logical_offset d' <= Z.of_nat (List.length out).
Proof.
  intros Hreframes Hlo Hpo Hpage Hseq Hhead Hlen Hfuel stream out.
  pose proof (header_read_at_boundary sf d sizes Hreframes Hpo Hpage Hseq)
    as Hstate.
  pose proof Hreframes as (_ & Hfits & _ & _ & Hsize & Hbound & _).
  pose proof (sum_pages_nonneg _ Hfits) as Hnonneg.
  set (d0 := set_logical_offset (head_size d) d) in *.
  assert (Hfields : logical_offset d0 = head_size d /\ page_size d0 = 0
                    /\ logical_size d0 = logical_size d /\ same_stream d d0).
  { subst d0. destruct d. unfold set_logical_offset, same_stream.
    cbn [type stream_offset stream_size logical_offset physical_offset
         block_size page_size page_buffer sequence samples_done head_buffer
         head_size logical_size] in *.
    repeat split; assumption. }
  destruct Hfields as (Hlo0 & Hzero0 & Hls0 & Hsame0).
  assert (Hsynced : synced sf d0 sizes) by (unfold synced; now rewrite Hzero0).
  unfold opus_io_read, opus_io_read_entry, bad_read, restart_if_previous.
  rewrite Hlo. change (0 <? 0) with false. change (to_size_t 0) with 0.
  replace (0 >? logical_size d) with false
    by (symmetry; rewrite Z.gtb_ltb; apply Z.ltb_ge; lia).
  cbn [orb]. cbv iota.
  unfold insert_fake_header. cbn [offset_ length_ dest total_read].
  rewrite Hlo. change (to_size_t 0) with 0.
  replace (0 <? head_size d) with true by (symmetry; apply Z.ltb_lt; lia).
  change (to_size_t (to_off_t (0 - 0))) with 0.
  rewrite Z.sub_0_r, !Z.add_0_l.
  rewrite !(to_size_t_small (head_size d)) by lia.
  replace (head_size d >? length) with false
    by (symmetry; rewrite Z.gtb_ltb; apply Z.ltb_ge; lia).
  cbv iota. rewrite ?Z.add_0_l.
  rewrite ?(to_size_t_small (head_size d)) by lia.
  rewrite (to_off_t_small (head_size d)) by lia.
  rewrite (to_size_t_small (length - head_size d)) by lia.
  fold d0. cbn [app].
  destruct (read_blocks_in_step sf sizes d0
              (mk_read_locals (memcpy_from (head_buffer d) 0 (head_size d))
                 (head_size d) (head_size d) (length - head_size d))
              fuel Hsynced)
    as (d' & l' & sizes' & Hrun & Hdest & Hcount & Hsync & Hrest & Hlo'
        & Hsame & _); cbn [offset_ length_ total_read dest] in *; try lia.
  rewrite (remaining_at_boundary sf d0 sizes Hzero0), Hlo0 in Hdest, Hcount,
    Hrest, Hlo'.
  rewrite Z.sub_diag in Hdest, Hcount, Hlo'.
  change (Z.to_nat 0) with 0%nat in Hdest, Hcount, Hlo'.
  rewrite skipn_0 in Hdest, Hcount, Hlo'.
  assert (Hout : out = memcpy_from (head_buffer d) 0 (head_size d)
                       ++ firstn (Z.to_nat (length - head_size d))
                            (served_pages (List.length sizes) sf d0)).
  { subst out stream. rewrite firstn_app, memcpy_from_length.
    rewrite firstn_all2 by (rewrite memcpy_from_length; lia).
    do 2 f_equal. lia. }
  rewrite Hrun, Hdest, Hcount, <- Hout.
  assert (Hserved : Z.of_nat (List.length out)
                    = head_size d
                      + Z.of_nat (List.length
                           (firstn (Z.to_nat (length - head_size d))
                              (served_pages (List.length sizes) sf d0)))).
  { rewrite Hout, length_app, memcpy_from_length. lia. }
  exists d', sizes'.
  split; [now rewrite Hserved|]. split; [exact Hsync|].
  split; [exact (reframes_kept sf d d' sizes sizes' Hreframes
                   (same_stream_trans _ _ _ Hsame0 Hsame) Hsync)|].
  split; [|lia].
  rewrite Hrest. subst stream. symmetry. apply skipn_past_page. lia.
Qed.

Lemma at_boundary_synced sf d sizes :
  at_boundary sf d sizes -> synced sf d sizes.
Proof.
  intros H. unfold synced. pose proof H as (Hzero & _). now rewrite Hzero.
Qed.

(** Settles a statement about the states of [Session] by evaluation. *)
Ltac evaluated :=
  unfold reframes, at_boundary, page_fits; cbn [framed];
  repeat match goal with
         | |- _ /\ _ => split
         | |- Forall _ [] => constructor
         | |- Forall _ (_ :: _) => constructor
         | |- True => exact I
         end;
  vm_compute; first [reflexivity | congruence].

Lemma session_after_header_in_step :
  synced Session.sf Session.after_header [2; 2].
Proof. apply at_boundary_synced. evaluated. Qed.

Lemma session_fresh_reframes : reframes Session.sf Session.fresh [2; 2].
Proof. evaluated. Qed.


Lemma opus_io_read_in_step_witness :
  synced Session.sf Session.after_header [2; 2]
  /\ exists d' out,
       opus_io_read 5 Session.sf Session.after_header 130 40 = Some (d', out, 40)
       /\ out = firstn 40 (skipn 130 Session.stream).
Proof.
  split; [exact session_after_header_in_step|].
  assert (Hhead : head_size Session.after_header <= 130)
    by (vm_compute; congruence).
  assert (Hoff : logical_offset Session.after_header <= 130
                 <= logical_size Session.after_header)
    by (vm_compute; split; congruence).
  assert (Hlen : 0 <= 40 < 2 ^ 63) by lia.
  assert (Hfuel : (2 * List.length [2; 2] + 1 <= 5)%nat) by (cbn; lia).
  destruct (opus_io_read_in_step 5 Session.sf Session.after_header [2; 2]
              130 40 session_after_header_in_step Hhead Hoff Hlen Hfuel)
    as (d' & sizes' & Hread & _).
  match type of Hread with
  | _ = Some (_, ?o, ?n) =>
      exists d', o; replace 40 with n at 2 by (vm_compute; reflexivity);
      split; [exact Hread | vm_compute; reflexivity]
  end.
Defined.


Lemma sequential_reads_splice_witness :
  synced Session.sf Session.after_header [2; 2]
  /\ exists d1 out1 d2 out2 d12,
       opus_io_read 5 Session.sf Session.after_header 130 10
       = Some (d1, out1, 10)
       /\ opus_io_read 5 Session.sf d1 140 30 = Some (d2, out2, 30)
       /\ opus_io_read 5 Session.sf Session.after_header 130 40
          = Some (d12, out1 ++ out2, 40).
Proof.
  split; [exact session_after_header_in_step|].
  assert (Hhead : head_size Session.after_header <= 130)
    by (vm_compute; congruence).
  assert (Hoff : logical_offset Session.after_header <= 130
                 <= logical_size Session.after_header)
    by (vm_compute; split; congruence).
  assert (Hlen1 : 0 <= 10) by lia.
  assert (Hlen2 : 0 <= 30) by lia.
  assert (Hsum : 10 + 30 < 2 ^ 63) by lia.
  assert (Hfuel : (2 * List.length [2; 2] + 1 <= 5)%nat) by (cbn; lia).
  destruct (sequential_reads_splice 5 Session.sf Session.after_header [2; 2]
              130 10 30 session_after_header_in_step Hhead Hoff Hlen1 Hlen2
              Hsum Hfuel)
    as (d1 & out1 & d2 & out2 & d12 & Hread1 & Hread2 & Hread12).
  assert (Hn1 : Z.of_nat (List.length out1) = 10).
  { pose proof Hread1 as Hrun. vm_compute in Hrun.
    injection Hrun as _ <- _. reflexivity. }
  assert (Hn2 : Z.of_nat (List.length out2) = 30).
  { pose proof Hread2 as Hrun. rewrite Hn1 in Hrun.
    pose proof Hread1 as Hfirst. vm_compute in Hfirst.
    injection Hfirst as <- _ _. vm_compute in Hrun.
    injection Hrun as _ <- _. reflexivity. }
  rewrite length_app, Nat2Z.inj_add in Hread12.
  rewrite Hn1 in Hread1, Hread2, Hread12. rewrite Hn2 in Hread2, Hread12.
  exists d1, out1, d2, out2, d12.
  split; [exact Hread1|]. split; [exact Hread2 | exact Hread12].
Defined.

Lemma read_from_start_witness :
  (reframes Session.sf Session.fresh [2; 2]
   /\ 0 < head_size Session.fresh <= 150)
  /\ exists d' out,
       opus_io_read 5 Session.sf Session.fresh 0 150 = Some (d', out, 150)
       /\ out = firstn 150 Session.stream.
Proof.
  assert (Hhead : 0 < head_size Session.fresh <= 150)
    by (vm_compute; split; congruence).
  split; [split; [exact session_fresh_reframes | exact Hhead]|].
  assert (Hlen : 150 < 2 ^ 63) by lia.
  assert (Hfuel : (2 * List.length [2; 2] + 1 <= 5)%nat) by (cbn; lia).
  destruct (read_from_start 5 Session.sf Session.fresh [2; 2] 150
              session_fresh_reframes eq_refl eq_refl eq_refl eq_refl Hhead
              Hlen Hfuel)
    as (d' & sizes' & Hread & _).
  match type of Hread with
  | _ = Some (_, ?o, ?n) =>
      exists d', o; replace 150 with n at 2 by (vm_compute; reflexivity);
      split; [exact Hread | vm_compute; reflexivity]
  end.
Defined.
